(** * Resilient vector-store client: circuit breaker, connection pool,
      retry executor, cache and facade

    Shallow embedding of [rag/production_rag_manager.py] (module [Sync]) and
    [rag/async_production_rag_manager.py] (module [Async], and module
    [Coroutine] for the coroutines that [batch_operations] runs
    concurrently).

    Python objects are records, mutation is explicit state passing through a
    state-and-exception monad, floats (timestamps, delays) are exact rationals,
    and everything the interpreter or the network decides (the value returned
    by [time.time()], the outcome of a remote call) is read from an oracle
    stored in the state, so that every theorem quantifies over all possible
    clocks and all possible remote behaviours. *)

From Stdlib Require Import ZArith QArith Qpower List String Bool Lia Lqa.
From stdpp Require Import gmap strings.
Import ListNotations.
Set Warnings "-register-all".
Open Scope string_scope.
Open Scope list_scope.

(** ** Python values, exceptions and the state/exception monad *)

Module Py.

(** An exception object: its class name and [str(e)].  Every exception of the
    model is an instance of [Exception] (the classes outside it, such as
    [KeyboardInterrupt], are not modelled). *)
Record exn := Exc { exc_class : string; exc_msg : string }.

Definition Exception (msg : string) : exn := Exc "Exception" msg.
Definition TypeError (msg : string) : exn := Exc "TypeError" msg.
Definition ValueError (msg : string) : exn := Exc "ValueError" msg.
Definition KeyError (msg : string) : exn := Exc "KeyError" msg.
Definition AttributeError (msg : string) : exn := Exc "AttributeError" msg.

(** [str(e)] *)
Definition str (e : exn) : string := exc_msg e.

(** The values that travel through the client: JSON documents, the dicts the
    facade returns, and opaque objects known by identity. *)
Inductive pyval :=
| PyNone
| PyBool (b : bool)
| PyInt (z : Z)
| PyFloat (q : Q)
| PyStr (s : string)
| PyList (l : list pyval)
| PyDict (d : list (string * pyval))
| PyObj (id : nat).

(** [d.get(k)] on the items of a dict. *)
Fixpoint dict_get (d : list (string * pyval)) (k : string) : option pyval :=
  match d with
  | [] => None
  | (k', v) :: d' => if String.eqb k' k then Some v else dict_get d' k
  end.

(** A computation over a mutable state [S]: it either raises or returns, and
    in both cases leaves a state behind. *)
Definition M (S A : Type) : Type := S -> (exn + A) * S.

Definition ret {S A} (a : A) : M S A := fun s => (inr a, s).

Definition raise {S A} (e : exn) : M S A := fun s => (inl e, s).

Definition bind {S A B} (c : M S A) (k : A -> M S B) : M S B :=
  fun s =>
    match c s with
    | (inr a, s') => k a s'
    | (inl e, s') => (inl e, s')
    end.

(** [try: c   except Exception as e: h e] *)
Definition try_except {S A} (c : M S A) (h : exn -> M S A) : M S A :=
  fun s =>
    match c s with
    | (inr a, s') => (inr a, s')
    | (inl e, s') => h e s'
    end.

(** [try: c   finally: f] *)
Definition try_finally {S A} (c : M S A) (f : M S unit) : M S A :=
  fun s =>
    match c s with
    | (r, s') =>
        match f s' with
        | (inr _, s'') => (r, s'')
        | (inl e, s'') => (inl e, s'')
        end
    end.

Definition gets {S A} (f : S -> A) : M S A := fun s => (inr (f s), s).

Definition modify {S} (f : S -> S) : M S unit := fun s => (inr tt, f s).

Definition raised {A} (r : exn + A) : bool :=
  match r with inl _ => true | inr _ => false end.

(** A computation that leaves [view] of the state as it found it, whether it
    returns or raises. *)
Definition keeps {S X A} (view : S -> X) (c : M S A) : Prop :=
  forall s, view (snd (c s)) = view s.

(** A computation that maintains the invariant [inv], whether it returns or
    raises. *)
Definition maintains {S A} (inv : S -> Prop) (c : M S A) : Prop :=
  forall s, inv s -> inv (snd (c s)).

(** [int(x)] of a float: truncation towards zero. *)
Definition int (x : Q) : Z := Z.quot (Qnum x) (Zpos (Qden x)).

(** [bool(v)] *)
Definition truthy (v : pyval) : bool :=
  match v with
  | PyNone => false
  | PyBool b => b
  | PyInt z => negb (z =? 0)%Z
  | PyFloat q => negb (Qeq_bool q 0)
  | PyStr s => negb (String.eqb s "")
  | PyList l => match l with [] => false | _ => true end
  | PyDict d => match d with [] => false | _ => true end
  | PyObj _ => true
  end.

(** [v == s] for a string literal [s]. *)
Definition eq_str (v : pyval) (s : string) : bool :=
  match v with
  | PyStr t => String.eqb t s
  | _ => false
  end.

(** A computation that, started where [P] holds, ends where [Q] holds,
    whether it returns or raises. *)
Definition leads {S A} (P : S -> Prop) (c : M S A) (Q : S -> Prop) : Prop :=
  forall s, P s -> Q (snd (c s)).

End Py.

Import Py.

Notation "'let*' x ':=' c 'in' k" := (bind c (fun x => k))
  (at level 10, x pattern, c at level 100, k at level 200).

Notation "c ';;;' k" := (bind c (fun _ => k))
  (at level 100, k at level 200, right associativity).

(** * The synchronous manager ([production_rag_manager.py]) *)

Module Sync.

Inductive ConnectionState := CLOSED | OPEN | HALF_OPEN.

(** [ConnectionState.X.value] *)
Definition value (s : ConnectionState) : string :=
  match s with
  | CLOSED => "closed"
  | OPEN => "open"
  | HALF_OPEN => "half_open"
  end.

Record ConnectionMetrics := {
  total_requests : Z;
  successful_requests : Z;
  failed_requests : Z;
  total_response_time : Q;
  response_times : list Q;
  last_success : option Q;
  last_failure : option Q
}.

Record CircuitBreaker := {
  failure_threshold : Z;
  recovery_timeout : Q;
  _state : ConnectionState;
  _failure_count : Z;
  _last_failure_time : option Q
}.

(** One entry of [ConnectionPool._connections]; [client] is the identity of
    the [chromadb.HttpClient] object. *)
Record Connection := {
  client : nat;
  host : string;
  port : Z;
  in_use : bool;
  created : Q;
  last_used : Q
}.

Record ConnectionPool := {
  max_connections : Z;
  max_idle_time : Q;
  health_check_interval : Q;
  _connections : list Connection
}.

(** The calls that leave the process. *)
Inductive extcall :=
| HttpClient (h : string) (p : Z)
| Heartbeat (c : nat)
| ListCollections (c : nat)
| Chroma (c : nat) (collection_name : string)
| AddDocuments (store : nat) (documents : pyval) (ids : option pyval)
| SimilaritySearch (store : nat) (query : string) (k : Z) (filter : pyval)
| GetCollection (c : nat) (name : string)
| DeleteCollection (c : nat) (name : string)
| CollectionCount (collection : pyval)
| PutMetricData (values : list Q).

(** What the program cannot decide itself.  [time_source n] is the value of
    the [n]-th call of [time.time()]; [ext_source n c] is the outcome of the
    external call [c] when [n] external calls were made before it;
    [quantiles_p95 l] is [statistics.quantiles(l, n=20)[18]], which raises on
    too few data points.  The logs record what the program did: the external
    calls, and the arguments of [time.sleep], oldest first. *)
Record World := {
  time_source : nat -> Q;
  time_reads : nat;
  ext_source : nat -> extcall -> exn + pyval;
  ext_log : list extcall;
  slept : list Q;
  next_obj : nat;
  quantiles_p95 : list Q -> exn + Q
}.

Record ProductionRAGManager := {
  chroma_host : string;
  chroma_port : Z;
  retry_attempts : Z;
  retry_backoff_factor : Q;
  enable_monitoring : bool;
  connection_pool : ConnectionPool;
  circuit_breaker : CircuitBreaker;
  _vector_stores : gmap string nat;
  _metrics : ConnectionMetrics
}.

Record State := { world : World; self : ProductionRAGManager }.

(** *** Field updates *)

Definition set_time_reads (n : nat) (w : World) : World :=
  {| time_source := time_source w; time_reads := n;
     ext_source := ext_source w; ext_log := ext_log w; slept := slept w;
     next_obj := next_obj w; quantiles_p95 := quantiles_p95 w |}.

Definition set_ext_log (l : list extcall) (w : World) : World :=
  {| time_source := time_source w; time_reads := time_reads w;
     ext_source := ext_source w; ext_log := l; slept := slept w;
     next_obj := next_obj w; quantiles_p95 := quantiles_p95 w |}.

Definition set_slept (l : list Q) (w : World) : World :=
  {| time_source := time_source w; time_reads := time_reads w;
     ext_source := ext_source w; ext_log := ext_log w; slept := l;
     next_obj := next_obj w; quantiles_p95 := quantiles_p95 w |}.

Definition set_next_obj (n : nat) (w : World) : World :=
  {| time_source := time_source w; time_reads := time_reads w;
     ext_source := ext_source w; ext_log := ext_log w; slept := slept w;
     next_obj := n; quantiles_p95 := quantiles_p95 w |}.

Definition set_connection_pool (p : ConnectionPool) (m : ProductionRAGManager) :=
  {| chroma_host := chroma_host m; chroma_port := chroma_port m;
     retry_attempts := retry_attempts m;
     retry_backoff_factor := retry_backoff_factor m;
     enable_monitoring := enable_monitoring m;
     connection_pool := p; circuit_breaker := circuit_breaker m;
     _vector_stores := _vector_stores m; _metrics := _metrics m |}.

Definition set_circuit_breaker (b : CircuitBreaker) (m : ProductionRAGManager) :=
  {| chroma_host := chroma_host m; chroma_port := chroma_port m;
     retry_attempts := retry_attempts m;
     retry_backoff_factor := retry_backoff_factor m;
     enable_monitoring := enable_monitoring m;
     connection_pool := connection_pool m; circuit_breaker := b;
     _vector_stores := _vector_stores m; _metrics := _metrics m |}.

Definition set_vector_stores (v : gmap string nat) (m : ProductionRAGManager) :=
  {| chroma_host := chroma_host m; chroma_port := chroma_port m;
     retry_attempts := retry_attempts m;
     retry_backoff_factor := retry_backoff_factor m;
     enable_monitoring := enable_monitoring m;
     connection_pool := connection_pool m;
     circuit_breaker := circuit_breaker m;
     _vector_stores := v; _metrics := _metrics m |}.

Definition set_metrics (x : ConnectionMetrics) (m : ProductionRAGManager) :=
  {| chroma_host := chroma_host m; chroma_port := chroma_port m;
     retry_attempts := retry_attempts m;
     retry_backoff_factor := retry_backoff_factor m;
     enable_monitoring := enable_monitoring m;
     connection_pool := connection_pool m;
     circuit_breaker := circuit_breaker m;
     _vector_stores := _vector_stores m; _metrics := x |}.

Definition on_world (f : World -> World) (s : State) : State :=
  {| world := f (world s); self := self s |}.

Definition on_self (f : ProductionRAGManager -> ProductionRAGManager)
  (s : State) : State :=
  {| world := world s; self := f (self s) |}.

(** *** The interpreter's primitives *)

(** [n] more readings of the clock were taken. *)
Definition clock_read (n : nat) (s : State) : State :=
  on_world (fun w => set_time_reads (time_reads w + n) w) s.

(** [time.time()] *)
Definition time_time : M State Q :=
  fun s => (inr (time_source (world s) (time_reads (world s))), clock_read 1 s).

(** [time.sleep(d)]; a negative argument is refused with [ValueError]. *)
Definition time_sleep (d : Q) : M State unit :=
  if Qle_bool 0%Q d
  then modify (on_world (fun w => set_slept (slept w ++ [d]) w))
  else raise (ValueError "sleep length must be non-negative").

(** An external call: it is logged, then it returns or raises as the oracle
    says. *)
Definition extern (c : extcall) : M State pyval :=
  fun s =>
    (ext_source (world s) (length (ext_log (world s))) c,
     on_world (fun w => set_ext_log (ext_log w ++ [c]) w) s).

(** A new object identity. *)
Definition fresh : M State nat :=
  fun s =>
    (inr (next_obj (world s)),
     on_world (set_next_obj (S (next_obj (world s)))) s).

(** *** [class CircuitBreaker] *)

Definition with_state (st : ConnectionState) (b : CircuitBreaker) :=
  {| failure_threshold := failure_threshold b;
     recovery_timeout := recovery_timeout b;
     _state := st; _failure_count := _failure_count b;
     _last_failure_time := _last_failure_time b |}.

(** [CircuitBreaker.__init__] *)
Definition CircuitBreaker_init (threshold : Z) (timeout : Q) : CircuitBreaker :=
  {| failure_threshold := threshold; recovery_timeout := timeout;
     _state := CLOSED; _failure_count := 0%Z; _last_failure_time := None |}.

Definition get_breaker : M State CircuitBreaker :=
  gets (fun s => circuit_breaker (self s)).

Definition put_breaker (b : CircuitBreaker) : M State unit :=
  modify (on_self (set_circuit_breaker b)).

(** [CircuitBreaker._can_execute].  The clock is read in the OPEN branch
    only; subtracting the initial [None] from a float raises [TypeError]. *)
Definition _can_execute : M State bool :=
  let* b := get_breaker in
  match _state b with
  | CLOSED => ret true
  | OPEN =>
      let* now := time_time in
      match _last_failure_time b with
      | None =>
          raise (TypeError "unsupported operand type(s) for -: 'float' and 'NoneType'")
      | Some t =>
          if Qle_bool (recovery_timeout b) (now - t)%Q
          then put_breaker (with_state HALF_OPEN b) ;;; ret true
          else ret false
      end
  | HALF_OPEN => ret true
  end.

(** [CircuitBreaker._on_success] *)
Definition _on_success : M State unit :=
  let* b := get_breaker in
  put_breaker
    {| failure_threshold := failure_threshold b;
       recovery_timeout := recovery_timeout b;
       _state := CLOSED; _failure_count := 0%Z;
       _last_failure_time := _last_failure_time b |}.

(** [CircuitBreaker._on_failure] *)
Definition _on_failure : M State unit :=
  let* b := get_breaker in
  let* now := time_time in
  let count := (_failure_count b + 1)%Z in
  put_breaker
    {| failure_threshold := failure_threshold b;
       recovery_timeout := recovery_timeout b;
       _state := if (failure_threshold b <=? count)%Z then OPEN else _state b;
       _failure_count := count;
       _last_failure_time := Some now |}.

(** [CircuitBreaker.call]: [expected_exception] is [Exception], so every
    modelled exception of [func] is recorded and re-raised. *)
Definition call {A} (func : M State A) : M State A :=
  let* ok := _can_execute in
  if negb ok
  then
    let* b := get_breaker in
    raise (Exception ("Circuit breaker is " +:+ value (_state b)))
  else
    try_except
      (let* result := func in _on_success ;;; ret result)
      (fun e => _on_failure ;;; raise e).

(** *** [class ConnectionPool] *)

Definition Qlt_bool (x y : Q) : bool := negb (Qle_bool y x).

Definition get_pool : M State ConnectionPool :=
  gets (fun s => connection_pool (self s)).

Definition with_connections (l : list Connection) (p : ConnectionPool) :=
  {| max_connections := max_connections p; max_idle_time := max_idle_time p;
     health_check_interval := health_check_interval p; _connections := l |}.

(** Assignment to, or in-place mutation of, [self._connections]. *)
Definition put_connections (l : list Connection) : M State unit :=
  modify (on_self (fun m =>
    set_connection_pool (with_connections l (connection_pool m)) m)).

(** [ConnectionPool.__init__] (the health-check thread is started apart). *)
Definition ConnectionPool_init (max : Z) : ConnectionPool :=
  {| max_connections := max; max_idle_time := 300%Q; health_check_interval := 30%Q;
     _connections := [] |}.

(** [conn['in_use'] = b; conn['last_used'] = t] *)
Definition touch (b : bool) (t : Q) (c : Connection) : Connection :=
  {| client := client c; host := host c; port := port c; in_use := b;
     created := created c; last_used := t |}.

(** The [for conn in self._connections] loop of [get_connection]: the first
    entry with the same host and port that is free and, at the clock reading
    taken for it, not idle for [max_idle_time] or more, is marked in use and
    stamped with a second clock reading.  The conjunction short-circuits: the
    clock is read for matching free entries only.  Returns the client found,
    if any, and the list with that entry updated. *)
Fixpoint claim_available (h : string) (p : Z) (idle : Q)
  (conns : list Connection) : M State (option nat * list Connection) :=
  match conns with
  | [] => ret (None, [])
  | c :: rest =>
      if String.eqb (host c) h && (port c =? p)%Z && negb (in_use c)
      then
        let* now := time_time in
        if Qlt_bool (now - last_used c)%Q idle
        then
          let* stamp := time_time in
          ret (Some (client c), touch true stamp c :: rest)
        else
          let* r := claim_available h p idle rest in
          ret (fst r, c :: snd r)
      else
        let* r := claim_available h p idle rest in
        ret (fst r, c :: snd r)
  end.

(** [ConnectionPool.get_connection] *)
Definition get_connection (h : string) (p : Z) : M State nat :=
  let* pool := get_pool in
  let* found := claim_available h p (max_idle_time pool) (_connections pool) in
  match fst found with
  | Some c => put_connections (snd found) ;;; ret c
  | None =>
      if (Z.of_nat (length (_connections pool)) <? max_connections pool)%Z
      then
        extern (HttpClient h p) ;;;
        let* c := fresh in
        let* t_created := time_time in
        let* t_used := time_time in
        put_connections
          (_connections pool ++
           [{| client := c; host := h; port := p; in_use := true;
               created := t_created; last_used := t_used |}]) ;;;
        ret c
      else raise (Exception "Connection pool exhausted")
  end.

(** The loop of [release_connection]: the first entry holding the client is
    freed and stamped, then [break]. *)
Fixpoint release_first (c : nat) (now : Q) (conns : list Connection)
  : list Connection :=
  match conns with
  | [] => []
  | x :: rest =>
      if Nat.eqb (client x) c
      then touch false now x :: rest
      else x :: release_first c now rest
  end.

(** [ConnectionPool.release_connection]; the clock is read when the client is
    found. *)
Definition release_connection (c : nat) : M State unit :=
  let* pool := get_pool in
  if existsb (fun x => Nat.eqb (client x) c) (_connections pool)
  then
    let* now := time_time in
    put_connections (release_first c now (_connections pool))
  else ret tt.

(** Equality of two connection dicts. *)
Definition conn_eqb (x y : Connection) : bool :=
  Nat.eqb (client x) (client y) && String.eqb (host x) (host y)
  && (port x =? port y)%Z && Bool.eqb (in_use x) (in_use y)
  && Qeq_bool (created x) (created y) && Qeq_bool (last_used x) (last_used y).

(** [list.remove(x)]: the first equal item goes; [None] when there is none
    (Python raises [ValueError]). *)
Fixpoint list_remove (x : Connection) (l : list Connection)
  : option (list Connection) :=
  match l with
  | [] => None
  | y :: rest =>
      if conn_eqb y x then Some rest
      else match list_remove x rest with
           | Some rest' => Some (y :: rest')
           | None => None
           end
  end.

(** The loop of [_health_check_connections] over the copy [snapshot]. *)
Fixpoint health_check_each (snapshot : list Connection) : M State unit :=
  match snapshot with
  | [] => ret tt
  | conn :: rest =>
      try_except
        (if negb (in_use conn)
         then extern (Heartbeat (client conn)) ;;; ret tt
         else ret tt)
        (fun _ =>
           let* pool := get_pool in
           match list_remove conn (_connections pool) with
           | Some l => put_connections l
           | None => raise (ValueError "list.remove(x): x not in list")
           end) ;;;
      health_check_each rest
  end.

(** [ConnectionPool._health_check_connections] *)
Definition _health_check_connections : M State unit :=
  let* pool := get_pool in
  health_check_each (_connections pool).

(** [sum(1 for c in self._connections if c['in_use'])], as reported by
    [get_performance_metrics]. *)
Definition active_connections (p : ConnectionPool) : nat :=
  length (List.filter in_use (_connections p)).

(** *** [class ProductionRAGManager] *)

Definition get_self : M State ProductionRAGManager := gets self.

(** [with self._get_connection() as client: body client] *)
Definition with_connection {A} (body : nat -> M State A) : M State A :=
  let* m := get_self in
  let* c := get_connection (chroma_host m) (chroma_port m) in
  try_finally (body c) (release_connection c).

(** [ConnectionMetrics.success_rate] *)
Definition success_rate (m : ConnectionMetrics) : Q :=
  if (total_requests m =? 0)%Z then 0%Q
  else (inject_Z (successful_requests m) / inject_Z (total_requests m))%Q.

Definition Qsum (l : list Q) : Q := fold_right Qplus 0%Q l.

(** [ConnectionMetrics.average_response_time] *)
Definition average_response_time (m : ConnectionMetrics) : Q :=
  match response_times m with
  | [] => 0%Q
  | l => (Qsum l / inject_Z (Z.of_nat (length l)))%Q
  end.

(** [ConnectionMetrics.p95_response_time] *)
Definition p95_response_time : M State Q :=
  fun s =>
    match response_times (_metrics (self s)) with
    | [] => (inr 0%Q, s)
    | l => (quantiles_p95 (world s) l, s)
    end.

(** [l[-1000:]] *)
Definition last_1000 (l : list Q) : list Q := skipn (length l - 1000) l.

(** [ProductionRAGManager._send_metrics] *)
Definition _send_metrics : M State unit :=
  try_except
    (let* m := gets (fun s => _metrics (self s)) in
     let* p95 := p95_response_time in
     extern (PutMetricData
               [inject_Z (total_requests m); (success_rate m * 100)%Q;
                (average_response_time m * 1000)%Q; (p95 * 1000)%Q]) ;;;
     ret tt)
    (fun _ => ret tt).

(** [ProductionRAGManager._record_success] *)
Definition _record_success (response_time : Q) : M State unit :=
  let* now := time_time in
  modify (on_self (fun m =>
    let x := _metrics m in
    let times := response_times x ++ [response_time] in
    set_metrics
      {| total_requests := (total_requests x + 1)%Z;
         successful_requests := (successful_requests x + 1)%Z;
         failed_requests := failed_requests x;
         total_response_time := (total_response_time x + response_time)%Q;
         response_times :=
           if (1000 <? length times)%nat then last_1000 times else times;
         last_success := Some now;
         last_failure := last_failure x |} m)) ;;;
  let* m := get_self in
  if enable_monitoring m then _send_metrics else ret tt.

(** [ProductionRAGManager._record_failure] *)
Definition _record_failure : M State unit :=
  let* now := time_time in
  modify (on_self (fun m =>
    let x := _metrics m in
    set_metrics
      {| total_requests := (total_requests x + 1)%Z;
         successful_requests := successful_requests x;
         failed_requests := (failed_requests x + 1)%Z;
         total_response_time := total_response_time x;
         response_times := response_times x;
         last_success := last_success x;
         last_failure := Some now |} m)) ;;;
  let* m := get_self in
  if enable_monitoring m then _send_metrics else ret tt.

(** The [try] block of the loop of [_retry_with_backoff]; it returns the
    result ([inl]). *)
Definition attempt_try {A} (func : M State A) : M State (A + exn) :=
  let* start_time := time_time in
  let* result := call func in
  let* t := time_time in
  _record_success (t - start_time)%Q ;;;
  ret (inl result).

(** Its [except] block: it records the failure, sleeps when attempts remain
    and hands the exception to the next iteration ([inr]).  An exception
    raised in this block leaves the function. *)
Definition attempt_except {A} (attempt : nat) (e : exn) : M State (A + exn) :=
  _record_failure ;;;
  let* m := get_self in
  (if (Z.of_nat attempt <? retry_attempts m - 1)%Z
   then time_sleep (retry_backoff_factor m ^ Z.of_nat attempt)%Q
   else ret tt) ;;;
  ret (inr e).

(** One iteration of the loop. *)
Definition attempt_once {A} (func : M State A) (attempt : nat)
  : M State (A + exn) :=
  try_except (attempt_try func) (attempt_except attempt).

(** [for attempt in range(self.retry_attempts)] from [attempt] on, with
    [remaining] iterations left, then [raise last_exception] (raising the
    initial [None] is a [TypeError]). *)
Fixpoint retry_from {A} (func : M State A) (remaining attempt : nat)
  (last_exception : option exn) : M State A :=
  match remaining with
  | O =>
      match last_exception with
      | Some e => raise e
      | None => raise (TypeError "exceptions must derive from BaseException")
      end
  | S remaining' =>
      let* r := attempt_once func attempt in
      match r with
      | inl result => ret result
      | inr e => retry_from func remaining' (S attempt) (Some e)
      end
  end.

(** [ProductionRAGManager._retry_with_backoff] *)
Definition _retry_with_backoff {A} (func : M State A) : M State A :=
  let* m := get_self in
  retry_from func (Z.to_nat (retry_attempts m)) 0 None.

(** [len(x)] *)
Definition py_len (v : pyval) : M State Z :=
  match v with
  | PyList l => ret (Z.of_nat (length l))
  | PyDict d => ret (Z.of_nat (length d))
  | PyStr s => ret (Z.of_nat (String.length s))
  | _ => raise (TypeError "object has no len()")
  end.

(** The [try] block of [health_check]. *)
Definition health_check_try : M State pyval :=
  with_connection (fun c =>
    let* start_time := time_time in
    extern (Heartbeat c) ;;;
    let* t := time_time in
    let response_time := (t - start_time)%Q in
    let* collections := extern (ListCollections c) in
    let* n := py_len collections in
    let* m := get_self in
    let* p95 := p95_response_time in
    ret (PyDict
           [("status", PyStr "healthy");
            ("response_time_ms", PyFloat (response_time * 1000)%Q);
            ("collections_count", PyInt n);
            ("circuit_breaker_state",
             PyStr (value (_state (circuit_breaker m))));
            ("connection_pool_size",
             PyInt (Z.of_nat (length (_connections (connection_pool m)))));
            ("metrics",
             PyDict
               [("success_rate", PyFloat (success_rate (_metrics m)));
                ("average_response_time_ms",
                 PyFloat (average_response_time (_metrics m) * 1000)%Q);
                ("p95_response_time_ms", PyFloat (p95 * 1000)%Q)])])).

(** The dict returned by its [except] block. *)
Definition unhealthy (e : exn) (b : CircuitBreaker) : pyval :=
  PyDict
    [("status", PyStr "unhealthy");
     ("error", PyStr (str e));
     ("circuit_breaker_state", PyStr (value (_state b)))].

(** [ProductionRAGManager.health_check] *)
Definition health_check : M State pyval :=
  try_except health_check_try
    (fun e => let* b := get_breaker in ret (unhealthy e b)).

(** The closure [_create_store] of [get_vector_store]: the [Chroma] object is
    known by a new identity. *)
Definition _create_store (store_label : string) : M State nat :=
  with_connection (fun c =>
    extern (Chroma c store_label) ;;;
    fresh).

(** [ProductionRAGManager.get_vector_store] *)
Definition get_vector_store (store_label : string) : M State (option nat) :=
  let* m := get_self in
  match _vector_stores m !! store_label with
  | Some store => ret (Some store)
  | None =>
      try_except
        (let* store := _retry_with_backoff (_create_store store_label) in
         modify (on_self (fun m =>
           set_vector_stores (<[store_label := store]> (_vector_stores m)) m)) ;;;
         ret (Some store))
        (fun _ => ret None)
  end.

(** The closure [_add_docs] of [add_documents]; [if ids:] is false for [None]
    and for the empty list. *)
Definition _add_docs (documents : list pyval) (store_label : string)
  (ids : option (list string)) : M State unit :=
  let* store := get_vector_store store_label in
  match store with
  | None =>
      raise (Exception ("Failed to get vector store '" +:+ store_label +:+ "'"))
  | Some st =>
      match ids with
      | Some (i :: l) =>
          extern (AddDocuments st (PyList documents)
                    (Some (PyList (map PyStr (i :: l))))) ;;;
          ret tt
      | _ => extern (AddDocuments st (PyList documents) None) ;;; ret tt
      end
  end.

(** [ProductionRAGManager.add_documents] *)
Definition add_documents (documents : list pyval) (store_label : string)
  (ids : option (list string)) : M State bool :=
  try_except
    (_retry_with_backoff (_add_docs documents store_label ids) ;;; ret true)
    (fun _ => ret false).

(** The closure [_search] of [similarity_search]. *)
Definition _search (query store_label : string) (k : Z) (filter : pyval)
  : M State pyval :=
  let* store := get_vector_store store_label in
  match store with
  | None =>
      raise (Exception ("Failed to get vector store '" +:+ store_label +:+ "'"))
  | Some st => extern (SimilaritySearch st query k filter)
  end.

(** [ProductionRAGManager.similarity_search] *)
Definition similarity_search (query store_label : string) (k : Z)
  (filter : pyval) : M State pyval :=
  try_except
    (_retry_with_backoff (_search query store_label k filter))
    (fun _ => ret (PyList [])).

(** The closure [_delete] of [delete_collection]. *)
Definition _delete (store_label : string) : M State unit :=
  with_connection (fun c => extern (DeleteCollection c store_label) ;;; ret tt).

(** [ProductionRAGManager.delete_collection] *)
Definition delete_collection (store_label : string) : M State bool :=
  try_except
    (_retry_with_backoff (_delete store_label) ;;;
     modify (on_self (fun m =>
       set_vector_stores (delete store_label (_vector_stores m)) m)) ;;;
     ret true)
    (fun _ => ret false).

(** [ProductionRAGManager.__init__] (the LangChain and CloudWatch clients
    hold no state of the model). *)
Definition ProductionRAGManager_init (chroma_host : string) (chroma_port : Z)
  (max_connections circuit_breaker_threshold : Z)
  (circuit_breaker_timeout : Q) (retry_attempts : Z)
  (retry_backoff_factor : Q) (enable_monitoring : bool)
  : ProductionRAGManager :=
  {| chroma_host := chroma_host; chroma_port := chroma_port;
     retry_attempts := retry_attempts;
     retry_backoff_factor := retry_backoff_factor;
     enable_monitoring := enable_monitoring;
     connection_pool := ConnectionPool_init max_connections;
     circuit_breaker :=
       CircuitBreaker_init circuit_breaker_threshold circuit_breaker_timeout;
     _vector_stores := ∅;
     _metrics :=
       {| total_requests := 0; successful_requests := 0; failed_requests := 0;
          total_response_time := 0; response_times := [];
          last_success := None; last_failure := None |} |}.

(** *** Runs used to state the properties *)

(** [n] failures recorded in a row. *)
Fixpoint record_failures (n : nat) : M State unit :=
  match n with
  | O => ret tt
  | S k => _on_failure ;;; record_failures k
  end.

(** The calls [fs] made one after the other through the breaker; the
    outcome of each is kept, raised or returned. *)
Fixpoint run_calls {A} (fs : list (M State A)) (s : State)
  : list (exn + A) * State :=
  match fs with
  | [] => ([], s)
  | f :: fs' =>
      let r := call f s in
      let rs := run_calls fs' (snd r) in
      (fst r :: fst rs, snd rs)
  end.

(** *** Sample inputs *)

(** A clock that advances by one second at each reading. *)
Definition clock_seconds (n : nat) : Q := inject_Z (Z.of_nat n).

(** A world where every remote call succeeds with [None]. *)
Definition quiet_world : World :=
  {| time_source := clock_seconds; time_reads := 0;
     ext_source := fun _ _ => inr PyNone; ext_log := []; slept := [];
     next_obj := 0;
     quantiles_p95 := fun l =>
       match l with
       | _ :: _ :: _ => inr 0%Q
       | _ => inl (Exc "StatisticsError" "must have at least two data points")
       end |}.

(** A world where every remote call fails. *)
Definition failing_world : World :=
  {| time_source := clock_seconds; time_reads := 0;
     ext_source := fun _ _ => inl (Exc "ConnectionError" "connection refused");
     ext_log := []; slept := []; next_obj := 0;
     quantiles_p95 := quantiles_p95 quiet_world |}.

(** The manager built with threshold 2, timeout 60 s, 3 attempts, backoff
    factor 2, two connections, monitoring off. *)
Definition small_manager : ProductionRAGManager :=
  ProductionRAGManager_init "localhost" 8000 2 2 60 3 2 false.

Definition quiet_state : State := {| world := quiet_world; self := small_manager |}.

Definition failing_state : State :=
  {| world := failing_world; self := small_manager |}.

(** The manager built with the defaults of [__init__], over a service that
    is down. *)
Definition default_manager : ProductionRAGManager :=
  ProductionRAGManager_init "localhost" 8000 20 5 60 3 2 true.


(** A clock that advances by one hundred seconds at each reading. *)
Definition clock_slow (n : nat) : Q := inject_Z (100 * Z.of_nat n).

Definition slow_world : World :=
  {| time_source := clock_slow; time_reads := 0;
     ext_source := ext_source quiet_world; ext_log := []; slept := [];
     next_obj := 0; quantiles_p95 := quantiles_p95 quiet_world |}.

Definition slow_state : State := {| world := slow_world; self := small_manager |}.

(** The breaker of [slow_state] after two failures and the admission check
    that finds the timeout elapsed. *)
Definition half_open_state : State :=
  snd (_can_execute (snd (record_failures 2 slow_state))).

(** The operations on a pool; [Sweep] is one round of the background health
    check. *)
Inductive pool_op :=
| Acquire (h : string) (p : Z)
| Release (c : nat)
| Sweep.

Definition run_pool_op (op : pool_op) : M State unit :=
  match op with
  | Acquire h p => get_connection h p ;;; ret tt
  | Release c => release_connection c
  | Sweep => _health_check_connections
  end.

(** A sequence of pool operations, each started in the state the one before
    left, whether it returned or raised. *)
Fixpoint run_pool_ops (ops : list pool_op) (s : State) : State :=
  match ops with
  | [] => s
  | op :: rest => run_pool_ops rest (snd (run_pool_op op s))
  end.

(** The pool keeps its limit [limit] and holds at most [limit] entries. *)
Definition pool_inv (limit : Z) (s : State) : Prop :=
  max_connections (connection_pool (self s)) = limit /\
  (Z.of_nat (length (_connections (connection_pool (self s)))) <= limit)%Z.

(** [d['status']] of a returned dict. *)
Definition status_of (v : pyval) : option pyval :=
  match v with
  | PyDict d => dict_get d "status"
  | _ => None
  end.


(** What every breaker built by [CircuitBreaker_init] and driven through its
    methods satisfies: the counter is never negative, and outside CLOSED it is
    at least the threshold and a failure time is recorded. *)
Definition breaker_inv (b : CircuitBreaker) : Prop :=
  (0 <= _failure_count b)%Z /\
  (_state b <> CLOSED ->
   (failure_threshold b <= _failure_count b)%Z /\ _last_failure_time b <> None).

(** What the sleeps of the retry loop depend on: the sleep log and the two
    retry settings. *)
Definition retry_view (s : State) : list Q * Z * Q :=
  (slept (world s), retry_attempts (self s), retry_backoff_factor (self s)).

(** [b^0; b^1; ...; b^(n-1)]: the backoff delays after the attempts
    [0 .. n-1]. *)
Definition backoff_delays (b : Q) (n : nat) : list Q :=
  map (fun i => (b ^ Z.of_nat i)%Q) (seq 0 n).

(** Two acquisitions fill the pool of [small_manager]; the third finds it
    exhausted. *)
Definition fill_pool : list pool_op :=
  [Acquire "localhost" 8000; Acquire "localhost" 8000;
   Acquire "localhost" 8000].

(** *** The rest of [class ProductionRAGManager] *)

(** [None] or a float. *)
Definition optional_float (x : option Q) : pyval :=
  match x with
  | Some q => PyFloat q
  | None => PyNone
  end.

(** [obj.name] of an object a remote call returned: the items of the dict
    that stands for the object are its attributes. *)
Definition getattr (obj : pyval) (name : string) : M State pyval :=
  match obj with
  | PyDict d =>
      match dict_get d name with
      | Some v => ret v
      | None => raise (AttributeError ("object has no attribute '" +:+ name +:+ "'"))
      end
  | _ => raise (AttributeError ("object has no attribute '" +:+ name +:+ "'"))
  end.

(** The closure [_get_info] of [get_collection_info]; the items of the dict
    are evaluated in order, and [collection.count()] is a remote call. *)
Definition _get_info (store_label : string) : M State pyval :=
  with_connection (fun c =>
    let* collection := extern (GetCollection c store_label) in
    let* name := getattr collection "name" in
    let* count := extern (CollectionCount collection) in
    let* metadata := getattr collection "metadata" in
    ret (PyDict [("name", name); ("count", count); ("metadata", metadata)])).

(** [ProductionRAGManager.get_collection_info] *)
Definition get_collection_info (store_label : string) : M State pyval :=
  try_except
    (_retry_with_backoff (_get_info store_label))
    (fun _ => ret (PyDict [])).

(** [ProductionRAGManager.get_performance_metrics]; the 95th percentile is
    computed outside any [try], so its exception leaves the function. *)
Definition get_performance_metrics : M State pyval :=
  let* m := get_self in
  let conns := _connections (connection_pool m) in
  let* p95 := p95_response_time in
  ret (PyDict
         [("connection_pool",
           PyDict
             [("total_connections", PyInt (Z.of_nat (length conns)));
              ("active_connections",
               PyInt (Z.of_nat (length (List.filter in_use conns))));
              ("idle_connections",
               PyInt (Z.of_nat
                        (length (List.filter (fun c => negb (in_use c)) conns))))]);
          ("circuit_breaker",
           PyDict
             [("state", PyStr (value (_state (circuit_breaker m))));
              ("failure_count", PyInt (_failure_count (circuit_breaker m)))]);
          ("performance",
           PyDict
             [("total_requests", PyInt (total_requests (_metrics m)));
              ("success_rate", PyFloat (success_rate (_metrics m)));
              ("average_response_time_ms",
               PyFloat (average_response_time (_metrics m) * 1000)%Q);
              ("p95_response_time_ms", PyFloat (p95 * 1000)%Q);
              ("last_success", optional_float (last_success (_metrics m)));
              ("last_failure", optional_float (last_failure (_metrics m)))]);
          ("vector_stores",
           PyDict
             [("cached_stores",
               PyInt (Z.of_nat (size (_vector_stores m))))])]).

(** [ProductionRAGManager.cleanup] *)
Definition cleanup : M State unit :=
  modify (on_self (set_vector_stores ∅)) ;;;
  put_connections [].

(** *** More runs and predicates *)

(** The public methods of the manager, one constructor for each, in the
    order of the class. *)
Inductive facade_op :=
| OpHealthCheck
| OpGetVectorStore (store_label : string)
| OpAddDocuments (documents : list pyval) (store_label : string)
    (ids : option (list string))
| OpSimilaritySearch (query store_label : string) (k : Z) (filter : pyval)
| OpGetCollectionInfo (store_label : string)
| OpDeleteCollection (store_label : string)
| OpPerformanceMetrics
| OpCleanup.

Definition run_facade_op (op : facade_op) : M State unit :=
  match op with
  | OpHealthCheck => health_check ;;; ret tt
  | OpGetVectorStore l => get_vector_store l ;;; ret tt
  | OpAddDocuments d l i => add_documents d l i ;;; ret tt
  | OpSimilaritySearch q l k f => similarity_search q l k f ;;; ret tt
  | OpGetCollectionInfo l => get_collection_info l ;;; ret tt
  | OpDeleteCollection l => delete_collection l ;;; ret tt
  | OpPerformanceMetrics => get_performance_metrics ;;; ret tt
  | OpCleanup => cleanup
  end.

(** A sequence of public operations, each started in the state the one
    before left, whether it returned or raised. *)
Fixpoint run_facade_ops (ops : list facade_op) (s : State) : State :=
  match ops with
  | [] => s
  | op :: rest => run_facade_ops rest (snd (run_facade_op op s))
  end.

(** The clients of the pool are distinct objects, all created before the
    next object identity. *)
Definition pool_ok (s : State) : Prop :=
  List.NoDup (map client (_connections (connection_pool (self s)))) /\
  Forall (fun c => (client c < next_obj (world s))%nat)
    (_connections (connection_pool (self s))).

(** The metrics add up: every request counted is a success or a failure,
    and at most 1000 response times are kept. *)
Definition metrics_ok (m : ConnectionMetrics) : Prop :=
  total_requests m = (successful_requests m + failed_requests m)%Z /\
  (0 <= successful_requests m)%Z /\ (0 <= failed_requests m)%Z /\
  (length (response_times m) <= 1000)%nat.

(** [d[k1][k2]] of nested dicts. *)
Definition nested_get (v : pyval) (k1 k2 : string) : option pyval :=
  match v with
  | PyDict d =>
      match dict_get d k1 with
      | Some (PyDict d') => dict_get d' k2
      | _ => None
      end
  | _ => None
  end.

(** A state of [small_manager] with a fresh manager and any world. *)
Definition fresh_state (w : World) (m : ProductionRAGManager) : State :=
  {| world := w; self := m |}.

(** The manager built with [retry_attempts=0], over a service that answers. *)
Definition no_retry_state : State :=
  {| world := quiet_world;
     self := ProductionRAGManager_init "localhost" 8000 2 2 60 0 2 false |}.

(** The pool is sound and no connection is in use but, perhaps, the one of
    the client [holder]. *)
Definition held (holder : option nat) (s : State) : Prop :=
  pool_ok s /\
  Forall (fun x => in_use x = true -> Some (client x) = holder)
    (_connections (connection_pool (self s))).

(** What [held] depends on. *)
Definition lease_view (s : State) : ConnectionPool * nat :=
  (connection_pool (self s), next_obj (world s)).

(** A session of public operations. *)
Definition sample_session : list facade_op :=
  [OpHealthCheck;
   OpAddDocuments [PyStr "text"] "docs" None;
   OpSimilaritySearch "query" "docs" 4 PyNone;
   OpGetCollectionInfo "docs";
   OpDeleteCollection "docs";
   OpPerformanceMetrics].

(** [quiet_state] after one health check: the pool holds one connection,
    given back. *)
Definition used_state : State := snd (health_check quiet_state).

(** The test of the loop of [get_connection], the idle time apart. *)
Definition free_for (h : string) (p : Z) (c : Connection) : bool :=
  String.eqb (host c) h && (port c =? p)%Z && negb (in_use c).

(** The counters of successes and failures. *)
Definition counts_view (s : State) : Z * Z :=
  (successful_requests (_metrics (self s)), failed_requests (_metrics (self s))).


(** A ChromaDB service that is up: the heartbeat is answered with a number of
    nanoseconds, there are no collections, and the other calls return
    [None]. *)
Definition chroma_world : World :=
  {| time_source := clock_seconds; time_reads := 0;
     ext_source := fun _ c =>
       match c with
       | Heartbeat _ => inr (PyInt 1700000000000000000)
       | ListCollections _ => inr (PyList [])
       | _ => inr PyNone
       end;
     ext_log := []; slept := []; next_obj := 0;
     quantiles_p95 := quantiles_p95 quiet_world |}.

Definition chroma_state : State :=
  {| world := chroma_world; self := default_manager |}.



End Sync.

(** * The asynchronous manager ([async_production_rag_manager.py]) *)

Module Async.

Inductive CircuitState := CLOSED | OPEN | HALF_OPEN.

Record CacheConfig := {
  enabled : bool;
  ttl_seconds : Z;
  max_size : Z;
  enable_query_cache : bool;
  enable_embedding_cache : bool
}.

Record ConnectionConfig := {
  max_connections : Z;
  connection_timeout : Q;
  read_timeout : Q;
  retry_attempts : Z;
  retry_delay : Q;
  circuit_breaker_threshold : Z;
  circuit_breaker_timeout : Q
}.

Record AsyncCircuitBreaker := {
  threshold : Z;
  timeout : Q;
  state : CircuitState;
  failure_count : Z;
  last_failure_time : Q
}.

(** [AsyncConnectionPool.session]: [None], an open session or a closed one. *)
Inductive Session := NoSession | SessionOpen | SessionClosed.

Record AsyncConnectionPool := {
  base_url : string;
  config : ConnectionConfig;
  session : Session;
  _circuit_breaker : AsyncCircuitBreaker
}.

(** [AsyncRedisCache]: its [config], and whether [self.redis] is a client
    ([true]) or [None]. *)
Record AsyncRedisCache := {
  cache_settings : CacheConfig;
  redis : bool
}.

(** [AsyncProductionRAGManager.metrics] *)
Record Metrics := {
  requests_total : Z;
  requests_success : Z;
  requests_failed : Z;
  cache_hits : Z;
  cache_misses : Z;
  avg_response_time : Q
}.

(** The manager.  [manager_base_url] is its [base_url] (the pool has one of
    its own).  [connection_pool] and [cache] tell whether the attribute
    refers to the pool and cache objects of the state ([true]) or is still
    [None], as it is before [initialize]. *)
Record AsyncProductionRAGManager := {
  manager_base_url : string;
  connection_config : ConnectionConfig;
  cache_config : CacheConfig;
  connection_pool : bool;
  cache : bool;
  metrics : Metrics
}.

(** An HTTP request of the session, and a command sent to Redis. *)
Record http_request := {
  method : string;
  url : string;
  json : option pyval
}.

Inductive redis_command :=
| PING
| GET (key : string)
| SETEX (key : string) (ttl : Z) (v : string)
| KEYS (pattern : string)
| DEL (keys : pyval)
| CLOSE.

(** The state update that [record_success] or [record_failure] hands to
    [asyncio.create_task].  The task updates the breaker that scheduled it:
    [RecordStale] is the recording of a failure on a breaker whose pool the
    manager has replaced since. *)
Inductive recording := RecordSuccess | RecordFailure | RecordStale.

(** What the program cannot decide itself.  [http_source n r] is the outcome
    of the request [r] when [n] requests were sent before it: an exception
    (no connection, timeout), or a status and the outcome of
    [response.json()].  [redis_source] answers the Redis commands in the same
    way.  [json_dumps_sorted], [json_dumps], [json_loads], [md5_hexdigest]
    and [format] are the library functions [json.dumps(_, sort_keys=True)],
    [json.dumps], [json.loads], [hashlib.md5(_).hexdigest()] and [str], and
    [hash] is the built-in [hash], which raises on an unhashable value.  The
    logs record the requests, the commands and the arguments of
    [asyncio.sleep], oldest first. *)
Record World := {
  time_source : nat -> Q;
  time_reads : nat;
  http_source : nat -> http_request -> exn + (Z * (exn + pyval));
  http_log : list http_request;
  redis_source : nat -> redis_command -> exn + pyval;
  redis_log : list redis_command;
  slept : list Q;
  json_dumps_sorted : pyval -> exn + string;
  json_dumps : pyval -> exn + string;
  json_loads : pyval -> exn + pyval;
  md5_hexdigest : string -> string;
  format : pyval -> string;
  hash : pyval -> exn + Z
}.

(** The process: the world, the tasks created and not yet run, the pool and
    cache objects, and the manager. *)
Record State := {
  world : World;
  pending : list recording;
  pool : AsyncConnectionPool;
  redis_cache : AsyncRedisCache;
  self : AsyncProductionRAGManager
}.

(** *** Field updates *)

Definition set_time_reads (n : nat) (w : World) : World :=
  {| time_source := time_source w; time_reads := n;
     http_source := http_source w; http_log := http_log w;
     redis_source := redis_source w; redis_log := redis_log w;
     slept := slept w; json_dumps_sorted := json_dumps_sorted w;
     json_dumps := json_dumps w; json_loads := json_loads w;
     md5_hexdigest := md5_hexdigest w; format := format w;
     hash := hash w |}.

Definition set_http_log (l : list http_request) (w : World) : World :=
  {| time_source := time_source w; time_reads := time_reads w;
     http_source := http_source w; http_log := l;
     redis_source := redis_source w; redis_log := redis_log w;
     slept := slept w; json_dumps_sorted := json_dumps_sorted w;
     json_dumps := json_dumps w; json_loads := json_loads w;
     md5_hexdigest := md5_hexdigest w; format := format w;
     hash := hash w |}.

Definition set_redis_log (l : list redis_command) (w : World) : World :=
  {| time_source := time_source w; time_reads := time_reads w;
     http_source := http_source w; http_log := http_log w;
     redis_source := redis_source w; redis_log := l;
     slept := slept w; json_dumps_sorted := json_dumps_sorted w;
     json_dumps := json_dumps w; json_loads := json_loads w;
     md5_hexdigest := md5_hexdigest w; format := format w;
     hash := hash w |}.

Definition set_slept (l : list Q) (w : World) : World :=
  {| time_source := time_source w; time_reads := time_reads w;
     http_source := http_source w; http_log := http_log w;
     redis_source := redis_source w; redis_log := redis_log w;
     slept := l; json_dumps_sorted := json_dumps_sorted w;
     json_dumps := json_dumps w; json_loads := json_loads w;
     md5_hexdigest := md5_hexdigest w; format := format w;
     hash := hash w |}.

Definition on_world (f : World -> World) (s : State) : State :=
  {| world := f (world s); pending := pending s; pool := pool s;
     redis_cache := redis_cache s; self := self s |}.

Definition set_pending (l : list recording) (s : State) : State :=
  {| world := world s; pending := l; pool := pool s;
     redis_cache := redis_cache s; self := self s |}.

Definition on_pool (f : AsyncConnectionPool -> AsyncConnectionPool)
  (s : State) : State :=
  {| world := world s; pending := pending s; pool := f (pool s);
     redis_cache := redis_cache s; self := self s |}.

Definition on_metrics (f : Metrics -> Metrics) (s : State) : State :=
  {| world := world s; pending := pending s; pool := pool s;
     redis_cache := redis_cache s;
     self :=
       {| manager_base_url := manager_base_url (self s);
          connection_config := connection_config (self s);
          cache_config := cache_config (self s);
          connection_pool := connection_pool (self s);
          cache := cache (self s);
          metrics := f (metrics (self s)) |} |}.

Definition on_cache (f : AsyncRedisCache -> AsyncRedisCache) (s : State)
  : State :=
  {| world := world s; pending := pending s; pool := pool s;
     redis_cache := f (redis_cache s); self := self s |}.

Definition set_redis (b : bool) (c : AsyncRedisCache) : AsyncRedisCache :=
  {| cache_settings := cache_settings c; redis := b |}.

Definition set_session (x : Session) (p : AsyncConnectionPool) :=
  {| base_url := base_url p; config := config p; session := x;
     _circuit_breaker := _circuit_breaker p |}.

Definition set_breaker (b : AsyncCircuitBreaker) (p : AsyncConnectionPool) :=
  {| base_url := base_url p; config := config p; session := session p;
     _circuit_breaker := b |}.

(** *** The interpreter's primitives and the event loop *)

Definition clock_read (n : nat) (s : State) : State :=
  on_world (fun w => set_time_reads (time_reads w + n) w) s.

(** [time.time()] *)
Definition time_time : M State Q :=
  fun s => (inr (time_source (world s) (time_reads (world s))), clock_read 1 s).

Definition get_breaker : M State AsyncCircuitBreaker :=
  gets (fun s => _circuit_breaker (pool s)).

Definition put_breaker (b : AsyncCircuitBreaker) : M State unit :=
  modify (on_pool (set_breaker b)).

(** The coroutine [_record] of [AsyncCircuitBreaker.record_success]. *)
Definition _record_success : M State unit :=
  let* b := get_breaker in
  put_breaker
    {| threshold := threshold b; timeout := timeout b;
       state := match state b with HALF_OPEN => CLOSED | st => st end;
       failure_count := 0%Z;
       last_failure_time := last_failure_time b |}.

(** The coroutine [_record] of [AsyncCircuitBreaker.record_failure]. *)
Definition _record_failure : M State unit :=
  let* b := get_breaker in
  let* now := time_time in
  let count := (failure_count b + 1)%Z in
  put_breaker
    {| threshold := threshold b; timeout := timeout b;
       state := if (threshold b <=? count)%Z then OPEN else state b;
       failure_count := count;
       last_failure_time := now |}.

(** The same coroutine for a breaker that is no longer the manager's: it
    reads the clock, and what it writes nothing reads. *)
Definition _record_stale : M State unit := time_time ;;; ret tt.

Definition run_recording (r : recording) : M State unit :=
  match r with
  | RecordSuccess => _record_success
  | RecordFailure => _record_failure
  | RecordStale => _record_stale
  end.

Fixpoint run_recordings (l : list recording) : M State unit :=
  match l with
  | [] => ret tt
  | r :: rest => run_recording r ;;; run_recordings rest
  end.

(** The running coroutine is suspended: the event loop runs the tasks
    created so far, in the order of their creation.  Each takes the breaker's
    lock, which no coroutine holds across a suspension, and runs to its
    end. *)
Definition run_pending : M State unit :=
  let* l := gets pending in
  modify (set_pending []) ;;;
  run_recordings l.

(** [AsyncCircuitBreaker.record_success]: the update is not made, it is
    scheduled ([asyncio.create_task]). *)
Definition record_success : M State unit :=
  modify (fun s => set_pending (pending s ++ [RecordSuccess]) s).

(** [AsyncCircuitBreaker.record_failure], scheduled in the same way. *)
Definition record_failure : M State unit :=
  modify (fun s => set_pending (pending s ++ [RecordFailure]) s).

(** [await asyncio.sleep(d)]: the delay is logged and the coroutine is
    suspended (also for a delay of zero or less). *)
Definition asyncio_sleep (d : Q) : M State unit :=
  modify (on_world (fun w => set_slept (slept w ++ [d]) w)) ;;;
  run_pending.

(** One HTTP exchange: the request is logged, the coroutine is suspended
    until the answer arrives, and the answer is what the oracle says. *)
Definition http_exchange (r : http_request)
  : M State (Z * (exn + pyval)) :=
  let* n := gets (fun s => length (http_log (world s))) in
  modify (on_world (fun w => set_http_log (http_log w ++ [r]) w)) ;;;
  run_pending ;;;
  fun s => (http_source (world s) n r, s).

(** One Redis command, in the same way. *)
Definition redis_call (c : redis_command) : M State pyval :=
  let* n := gets (fun s => length (redis_log (world s))) in
  modify (on_world (fun w => set_redis_log (redis_log w ++ [c]) w)) ;;;
  run_pending ;;;
  fun s => (redis_source (world s) n c, s).

(** *** [class AsyncCircuitBreaker] *)

(** [AsyncCircuitBreaker.__init__] *)
Definition AsyncCircuitBreaker_init (threshold : Z) (timeout : Q)
  : AsyncCircuitBreaker :=
  {| threshold := threshold; timeout := timeout; state := CLOSED;
     failure_count := 0%Z; last_failure_time := 0%Q |}.

Definition Qlt_bool (x y : Q) : bool := negb (Qle_bool y x).

Definition with_state (st : CircuitState) (b : AsyncCircuitBreaker) :=
  {| threshold := threshold b; timeout := timeout b; state := st;
     failure_count := failure_count b;
     last_failure_time := last_failure_time b |}.

(** [AsyncCircuitBreaker._check_state], run by [__aenter__]; [__aexit__]
    does nothing. *)
Definition _check_state : M State unit :=
  let* b := get_breaker in
  match state b with
  | OPEN =>
      let* now := time_time in
      if Qlt_bool (timeout b) (now - last_failure_time b)%Q
      then put_breaker (with_state HALF_OPEN b)
      else raise (Exception "Circuit breaker is OPEN")
  | _ => ret tt
  end.

(** *** [class AsyncConnectionPool] *)

(** [AsyncConnectionPool.__init__] *)
Definition AsyncConnectionPool_init (base_url : string) (config : ConnectionConfig)
  : AsyncConnectionPool :=
  {| base_url := base_url; config := config; session := NoSession;
     _circuit_breaker :=
       AsyncCircuitBreaker_init (circuit_breaker_threshold config)
         (circuit_breaker_timeout config) |}.

(** [AsyncConnectionPool._ensure_session] *)
Definition _ensure_session : M State unit :=
  let* p := gets pool in
  match session p with
  | SessionOpen => ret tt
  | _ => modify (on_pool (set_session SessionOpen))
  end.

(** [AsyncConnectionPool.close] *)
Definition pool_close : M State unit :=
  let* p := gets pool in
  match session p with
  | SessionOpen => modify (on_pool (set_session SessionClosed))
  | _ => ret tt
  end.

(** The [try] block of the loop of [request]: it returns the decoded body. *)
Definition request_try (r : http_request) : M State pyval :=
  _ensure_session ;;;
  let* response := http_exchange r in
  let* w := gets world in
  if (400 <=? fst response)%Z
  then raise (Exc "ClientResponseError"
                ("HTTP " +:+ format w (PyInt (fst response))))
  else
    match snd response with
    | inl e => raise e
    | inr data => record_success ;;; ret data
    end.

(** Its [except] block: the failure is recorded; after the last attempt the
    exception is raised again, otherwise the coroutine sleeps
    [retry_delay * (2 ** attempt)]. *)
Definition request_except (attempt : nat) (e : exn) : M State unit :=
  record_failure ;;;
  let* p := gets pool in
  if (Z.of_nat attempt =? retry_attempts (config p) - 1)%Z
  then raise e
  else asyncio_sleep (retry_delay (config p) * 2 ^ Z.of_nat attempt)%Q.

(** [for attempt in range(self.config.retry_attempts)] from [attempt] on;
    when the loop ends without a return the coroutine returns [None]. *)
Fixpoint request_from (r : http_request) (remaining attempt : nat)
  : M State pyval :=
  match remaining with
  | O => ret PyNone
  | S remaining' =>
      let* outcome :=
        try_except
          (let* data := request_try r in ret (Some data))
          (fun e => request_except attempt e ;;; ret None) in
      match outcome with
      | Some data => ret data
      | None => request_from r remaining' (S attempt)
      end
  end.

(** [AsyncConnectionPool.request] *)
Definition request (method endpoint : string) (json : option pyval)
  : M State pyval :=
  let* p := gets pool in
  let r := {| method := method; url := base_url p +:+ endpoint; json := json |} in
  _check_state ;;;
  request_from r (Z.to_nat (retry_attempts (config p))) 0.

(** [AsyncConnectionPool.get], [post] and [delete] *)
Definition get (endpoint : string) : M State pyval := request "GET" endpoint None.

Definition post (endpoint : string) (json : pyval) : M State pyval :=
  request "POST" endpoint (Some json).

Definition delete (endpoint : string) : M State pyval :=
  request "DELETE" endpoint None.

(** *** [class AsyncRedisCache] *)

(** [AsyncRedisCache._generate_key] *)
Definition _generate_key (prefix : string) (data : pyval) : M State string :=
  let* w := gets world in
  match json_dumps_sorted w data with
  | inl e => raise e
  | inr data_str => ret (prefix +:+ ":" +:+ md5_hexdigest w data_str)
  end.

(** [not self.config.enabled or not self.redis] *)
Definition cache_off (c : AsyncRedisCache) : bool :=
  negb (enabled (cache_settings c)) || negb (redis c).

(** [AsyncRedisCache.get]; [None] is the miss. *)
Definition cache_get (prefix : string) (data : pyval) : M State pyval :=
  let* c := gets redis_cache in
  if cache_off c then ret PyNone
  else
    try_except
      (let* key := _generate_key prefix data in
       let* v := redis_call (GET key) in
       if truthy v
       then
         let* w := gets world in
         match json_loads w v with
         | inl e => raise e
         | inr decoded => ret decoded
         end
       else ret PyNone)
      (fun _ => ret PyNone).

(** [AsyncRedisCache.set] *)
Definition cache_set (prefix : string) (data v : pyval) : M State unit :=
  let* c := gets redis_cache in
  if cache_off c then ret tt
  else
    try_except
      (let* key := _generate_key prefix data in
       let* w := gets world in
       match json_dumps w v with
       | inl e => raise e
       | inr text =>
           redis_call (SETEX key (ttl_seconds (cache_settings c)) text) ;;;
           ret tt
       end)
      (fun _ => ret tt).

(** [AsyncRedisCache.invalidate_pattern]; unpacking [keys] into the
    arguments of [delete] needs an iterable. *)
Definition invalidate_pattern (pattern : string) : M State unit :=
  let* c := gets redis_cache in
  if cache_off c then ret tt
  else
    try_except
      (let* keys := redis_call (KEYS pattern) in
       if truthy keys
       then
         match keys with
         | PyList _ | PyStr _ | PyDict _ => redis_call (DEL keys) ;;; ret tt
         | _ => raise (TypeError "argument after * must be an iterable")
         end
       else ret tt)
      (fun _ => ret tt).

(** *** [class AsyncProductionRAGManager] *)

(** [AsyncProductionRAGManager.__init__]; [base_url] is the URL it builds
    from the host and the port. *)
Definition AsyncProductionRAGManager_init (base_url : string)
  (connection_config : ConnectionConfig) (cache_config : CacheConfig)
  : AsyncProductionRAGManager :=
  {| manager_base_url := base_url;
     connection_config := connection_config; cache_config := cache_config;
     connection_pool := false; cache := false;
     metrics :=
       {| requests_total := 0; requests_success := 0; requests_failed := 0;
          cache_hits := 0; cache_misses := 0; avg_response_time := 0 |} |}.

(** [async with self.connection_pool as pool: body]: [__aenter__] ensures
    the session, [__aexit__] closes it and lets an exception through.  While
    the attribute is [None] the statement itself raises. *)
Definition async_with_pool {A} (body : M State A) : M State A :=
  let* m := gets self in
  if connection_pool m
  then _ensure_session ;;; try_finally body pool_close
  else raise (AttributeError "__aenter__").

(** [await self.cache.get(...)], [set] and [invalidate_pattern] at the call
    sites of the manager, where [self.cache] may still be [None]. *)
Definition self_cache_get (prefix : string) (data : pyval) : M State pyval :=
  let* m := gets self in
  if cache m then cache_get prefix data
  else raise (AttributeError "'NoneType' object has no attribute 'get'").

Definition self_cache_set (prefix : string) (data v : pyval) : M State unit :=
  let* m := gets self in
  if cache m then cache_set prefix data v
  else raise (AttributeError "'NoneType' object has no attribute 'set'").

Definition self_cache_invalidate (pattern : string) : M State unit :=
  let* m := gets self in
  if cache m then invalidate_pattern pattern
  else raise (AttributeError
                "'NoneType' object has no attribute 'invalidate_pattern'").

Definition count_success (m : Metrics) : Metrics :=
  {| requests_total := requests_total m;
     requests_success := (requests_success m + 1)%Z;
     requests_failed := requests_failed m; cache_hits := cache_hits m;
     cache_misses := cache_misses m;
     avg_response_time := avg_response_time m |}.

Definition count_failed (m : Metrics) : Metrics :=
  {| requests_total := requests_total m;
     requests_success := requests_success m;
     requests_failed := (requests_failed m + 1)%Z; cache_hits := cache_hits m;
     cache_misses := cache_misses m;
     avg_response_time := avg_response_time m |}.

Definition count_hit (m : Metrics) : Metrics :=
  {| requests_total := requests_total m;
     requests_success := requests_success m;
     requests_failed := requests_failed m;
     cache_hits := (cache_hits m + 1)%Z; cache_misses := cache_misses m;
     avg_response_time := avg_response_time m |}.

Definition count_miss (m : Metrics) : Metrics :=
  {| requests_total := requests_total m;
     requests_success := requests_success m;
     requests_failed := requests_failed m; cache_hits := cache_hits m;
     cache_misses := (cache_misses m + 1)%Z;
     avg_response_time := avg_response_time m |}.

(** [AsyncProductionRAGManager._update_metrics] *)
Definition _update_metrics (response_time : Q) : M State unit :=
  modify (on_metrics (fun m =>
    let total := (requests_total m + 1)%Z in
    {| requests_total := total;
       requests_success := requests_success m;
       requests_failed := requests_failed m; cache_hits := cache_hits m;
       cache_misses := cache_misses m;
       avg_response_time :=
         ((avg_response_time m * inject_Z (total - 1) + response_time)
          / inject_Z total)%Q |})).

(** The [except Exception] block shared by the operations: the failure is
    counted and the exception raised again. *)
Definition count_and_reraise {A} (e : exn) : M State A :=
  modify (on_metrics count_failed) ;;; raise e.

(** The [try] block of [health_check]; [response.get] needs a dict. *)
Definition health_check_try : M State bool :=
  async_with_pool
    (let* response := get "/heartbeat" in
     match response with
     | PyDict d =>
         match dict_get d "status" with
         | Some v => ret (eq_str v "ok")
         | None => ret false
         end
     | _ => raise (AttributeError "object has no attribute 'get'")
     end).

(** [AsyncProductionRAGManager.health_check] *)
Definition health_check : M State bool :=
  try_except health_check_try (fun _ => ret false).

(** [AsyncProductionRAGManager.similarity_search] *)
Definition similarity_search (collection_name query_texts n_results
  where_ where_document : pyval) : M State pyval :=
  let* start_time := time_time in
  let search_params :=
    PyDict [("collection_name", collection_name);
            ("query_texts", query_texts); ("n_results", n_results);
            ("where", where_); ("where_document", where_document)] in
  let* m := gets self in
  let* w := gets world in
  let cache_key := "search:" +:+ format w collection_name in
  let* cached :=
    (if enable_query_cache (cache_config m)
     then self_cache_get cache_key search_params
     else ret PyNone) in
  if enable_query_cache (cache_config m) && truthy cached
  then modify (on_metrics count_hit) ;;; ret cached
  else
    try_except
      (async_with_pool
         (let* response := post "/collections/query" search_params in
          modify (on_metrics count_success) ;;;
          (if enable_query_cache (cache_config m)
           then self_cache_set cache_key search_params response
           else ret tt) ;;;
          modify (on_metrics count_miss) ;;;
          let* t := time_time in
          _update_metrics (t - start_time)%Q ;;;
          ret response))
      count_and_reraise.

(** [[f"doc_{i}_{int(time.time())}" for i in range(n)]] from [i] on. *)
Fixpoint generate_ids (n i : nat) : M State (list pyval) :=
  match n with
  | O => ret []
  | S k =>
      let* now := time_time in
      let* w := gets world in
      let* rest := generate_ids k (S i) in
      ret (PyStr ("doc_" +:+ format w (PyInt (Z.of_nat i)) +:+ "_"
                  +:+ format w (PyInt (int now))) :: rest)
  end.

(** [len(x)] *)
Definition py_len (v : pyval) : M State nat :=
  match v with
  | PyList l => ret (length l)
  | PyDict d => ret (length d)
  | PyStr s => ret (String.length s)
  | _ => raise (TypeError "object has no len()")
  end.

(** [AsyncProductionRAGManager.add_documents] *)
Definition add_documents (collection_name documents metadatas ids : pyval)
  : M State pyval :=
  let* start_time := time_time in
  let* ids :=
    (match ids with
     | PyNone =>
         let* n := py_len documents in
         let* l := generate_ids n 0 in
         ret (PyList l)
     | _ => ret ids
     end) in
  let* metadatas :=
    (if truthy metadatas then ret metadatas
     else
       let* n := py_len documents in
       ret (PyList (repeat (PyDict []) n))) in
  let batch_data :=
    PyDict [("collection_name", collection_name); ("documents", documents);
            ("metadatas", metadatas); ("ids", ids)] in
  let* m := gets self in
  let* w := gets world in
  try_except
    (async_with_pool
       (let* response := post "/collections/add" batch_data in
        modify (on_metrics count_success) ;;;
        (if enabled (cache_config m)
         then self_cache_invalidate
                ("collection:" +:+ format w collection_name +:+ ":*")
         else ret tt) ;;;
        let* t := time_time in
        _update_metrics (t - start_time)%Q ;;;
        ret response))
    count_and_reraise.

(** [AsyncProductionRAGManager.get_collection_info] *)
Definition get_collection_info (collection_name : pyval) : M State pyval :=
  let* m := gets self in
  let* w := gets world in
  let* cached :=
    (if enabled (cache_config m)
     then self_cache_get "collection_info" collection_name
     else ret PyNone) in
  if enabled (cache_config m) && truthy cached
  then modify (on_metrics count_hit) ;;; ret cached
  else
    let* start_time := time_time in
    try_except
      (async_with_pool
         (let* response := get ("/collections/" +:+ format w collection_name) in
          modify (on_metrics count_success) ;;;
          (if enabled (cache_config m)
           then self_cache_set "collection_info" collection_name response
           else ret tt) ;;;
          modify (on_metrics count_miss) ;;;
          let* t := time_time in
          _update_metrics (t - start_time)%Q ;;;
          ret response))
      count_and_reraise.

(** [AsyncProductionRAGManager.delete_collection] *)
Definition delete_collection (collection_name : pyval) : M State pyval :=
  let* start_time := time_time in
  let* m := gets self in
  let* w := gets world in
  try_except
    (async_with_pool
       (let* response := delete ("/collections/" +:+ format w collection_name) in
        modify (on_metrics count_success) ;;;
        (if enabled (cache_config m)
         then self_cache_invalidate ("*" +:+ format w collection_name +:+ "*")
         else ret tt) ;;;
        let* t := time_time in
        _update_metrics (t - start_time)%Q ;;;
        ret response))
    count_and_reraise.

(** **** The arguments and the results of [batch_operations] *)

(** Binding [**params] to a signature: every key must name a parameter and
    every parameter without a default must be given. *)
Definition binds (parameters required : list string)
  (params : list (string * pyval)) : bool :=
  forallb (fun kv => existsb (String.eqb (fst kv)) parameters) params
  && forallb (fun r => existsb (fun kv => String.eqb (fst kv) r) params)
       required.

(** The argument passed for [name], or its default. *)
Definition arg (params : list (string * pyval)) (name : string)
  (default : pyval) : pyval :=
  match dict_get params name with
  | Some v => v
  | None => default
  end.

(** The entry appended to [processed_results] for one outcome. *)
Definition processed (result : exn + pyval) : pyval :=
  match result with
  | inl e => PyDict [("error", PyStr (str e))]
  | inr v => v
  end.

(** *** Predicates and runs used to state the properties *)


(** The operation is a dict whose type [batch_operations] does not know. *)
Definition unknown_type (operation : pyval) : bool :=
  match operation with
  | PyDict op =>
      let op_type := arg op "type" PyNone in
      negb (eq_str op_type "search") && negb (eq_str op_type "add")
      && negb (eq_str op_type "get_info")
  | _ => false
  end.

(** The answer makes the attempt fail: no answer, an error status, or a
    body that cannot be decoded. *)
Definition failed_answer (a : exn + (Z * (exn + pyval))) : bool :=
  match a with
  | inl _ => true
  | inr (status, body) => (400 <=? status)%Z || raised body
  end.

(** What the sleeps of [request] depend on: the sleep log, the settings of
    the pool and the answers of the service. *)
Definition retry_view (s : State) :=
  (slept (world s), config (pool s), http_source (world s)).

(** [d * 2^0; d * 2^1; ...; d * 2^(n-1)] *)
Definition backoff_delays (d : Q) (n : nat) : list Q :=
  map (fun i => (d * 2 ^ Z.of_nat i)%Q) (seq 0 n).

(** *** Sample inputs *)

Definition clock_seconds (n : nat) : Q := inject_Z (Z.of_nat n).

Definition clock_slow (n : nat) : Q := inject_Z (100 * Z.of_nat n).

(** A world where every request is answered [200] with an empty JSON object
    and Redis holds nothing. *)
Definition quiet_world : World :=
  {| time_source := clock_seconds; time_reads := 0;
     http_source := fun _ _ => inr (200%Z, inr (PyDict []));
     http_log := [];
     redis_source := fun _ _ => inr PyNone; redis_log := [];
     slept := [];
     json_dumps_sorted := fun _ => inr "{}"; json_dumps := fun _ => inr "{}";
     json_loads := fun _ => inr (PyDict []);
     md5_hexdigest := fun _ => "d41d8cd98f00b204e9800998ecf8427e";
     format := fun v => match v with PyStr s => s | _ => "?" end;
     hash := fun _ => inr 0%Z |}.

(** An initialized manager with its pool and a connected cache. *)
Definition manager_state (w : World) (c : ConnectionConfig) : State :=
  {| world := w; pending := [];
     pool := AsyncConnectionPool_init "http://localhost:8000/api/v1" c;
     redis_cache :=
       {| cache_settings :=
            {| enabled := true; ttl_seconds := 120; max_size := 10000;
               enable_query_cache := true; enable_embedding_cache := true |};
          redis := true |};
     self :=
       {| manager_base_url := "http://localhost:8000/api/v1";
          connection_config := c;
          cache_config :=
            {| enabled := true; ttl_seconds := 120; max_size := 10000;
               enable_query_cache := true; enable_embedding_cache := true |};
          connection_pool := true; cache := true;
          metrics :=
            {| requests_total := 0; requests_success := 0;
               requests_failed := 0; cache_hits := 0; cache_misses := 0;
               avg_response_time := 0 |} |} |}.

(** [ConnectionConfig()] with its defaults. *)
Definition default_config : ConnectionConfig :=
  {| max_connections := 100; connection_timeout := 30; read_timeout := 60;
     retry_attempts := 3; retry_delay := 1; circuit_breaker_threshold := 5;
     circuit_breaker_timeout := 60 |}.

Definition quiet_state : State := manager_state quiet_world default_config.

Definition with_http (h : nat -> http_request -> exn + (Z * (exn + pyval)))
  (w : World) : World :=
  {| time_source := time_source w; time_reads := time_reads w;
     http_source := h; http_log := http_log w;
     redis_source := redis_source w; redis_log := redis_log w;
     slept := slept w; json_dumps_sorted := json_dumps_sorted w;
     json_dumps := json_dumps w; json_loads := json_loads w;
     md5_hexdigest := md5_hexdigest w; format := format w;
     hash := hash w |}.

Definition with_clock (c : nat -> Q) (w : World) : World :=
  {| time_source := c; time_reads := time_reads w;
     http_source := http_source w; http_log := http_log w;
     redis_source := redis_source w; redis_log := redis_log w;
     slept := slept w; json_dumps_sorted := json_dumps_sorted w;
     json_dumps := json_dumps w; json_loads := json_loads w;
     md5_hexdigest := md5_hexdigest w; format := format w;
     hash := hash w |}.

Definition refused : exn := Exc "ClientConnectorError" "Cannot connect to host".


(** The service answers the sixth request only, and the clock advances by
    one hundred seconds at each reading. *)
Definition flaky_state : State :=
  manager_state
    (with_clock clock_slow
       (with_http (fun n _ => if Nat.eqb n 5
                              then inr (200%Z, inr (PyDict []))
                              else inl refused) quiet_world))
    default_config.

(** Two requests on [flaky_state], the event loop running the scheduled
    recordings after each: the first fails three times, the second fails
    twice and then succeeds. *)
Definition after_two_requests : State :=
  snd (run_pending
         (snd (get "/collections"
                 (snd (run_pending (snd (get "/collections" flaky_state))))))).

(** A third request, made more than [timeout] later; all its attempts
    fail. *)
Definition after_failed_trial : State :=
  snd (run_pending (snd (get "/collections" after_two_requests))).

(** The heartbeat is answered as ChromaDB answers it. *)
Definition chroma_state : State :=
  manager_state
    (with_http (fun _ _ =>
                  inr (200%Z,
                       inr (PyDict [("nanosecond heartbeat",
                                     PyInt 1700000000000000000)])))
       quiet_world)
    default_config.

(** The requests 1, 2 and 3 (the second to fourth) fail, the others are
    answered. *)
Definition second_fails_state : State :=
  manager_state
    (with_http (fun n _ => if (1 <=? n)%nat && (n <=? 3)%nat
                           then inl refused
                           else inr (200%Z, inr (PyDict [("ids", PyList [])])))
       quiet_world)
    default_config.

Definition search_op (collection : string) : pyval :=
  PyDict [("type", PyStr "search");
          ("params",
           PyDict [("collection_name", PyStr collection);
                   ("query_texts", PyList [PyStr "test query"]);
                   ("n_results", PyInt 5)])].

Definition get_info_op (collection : string) : pyval :=
  PyDict [("type", PyStr "get_info");
          ("params", PyDict [("collection_name", PyStr collection)])].


(** *** The rest of [class AsyncProductionRAGManager] *)

(** [AsyncProductionRAGManager.get_collections] *)
Definition get_collections : M State pyval :=
  let* m := gets self in
  let* cached :=
    (if enabled (cache_config m)
     then self_cache_get "collections" (PyStr "collections")
     else ret PyNone) in
  if enabled (cache_config m) && truthy cached
  then modify (on_metrics count_hit) ;;; ret cached
  else
    let* start_time := time_time in
    try_except
      (async_with_pool
         (let* response := get "/collections" in
          modify (on_metrics count_success) ;;;
          (if enabled (cache_config m)
           then self_cache_set "collections" (PyStr "collections") response
           else ret tt) ;;;
          modify (on_metrics count_miss) ;;;
          let* t := time_time in
          _update_metrics (t - start_time)%Q ;;;
          ret response))
      count_and_reraise.

(** [AsyncProductionRAGManager.create_collection]; [metadata or {}]. *)
Definition create_collection (name metadata : pyval) : M State pyval :=
  let* start_time := time_time in
  let* m := gets self in
  try_except
    (async_with_pool
       (let* response :=
          post "/collections"
            (PyDict [("name", name);
                     ("metadata",
                      if truthy metadata then metadata else PyDict [])]) in
        modify (on_metrics count_success) ;;;
        (if enabled (cache_config m)
         then self_cache_invalidate "collections:*"
         else ret tt) ;;;
        let* t := time_time in
        _update_metrics (t - start_time)%Q ;;;
        ret response))
    count_and_reraise.

(** The two rates of [get_metrics]: a quotient of counters, or the integer
    [0] while nothing was counted. *)
Definition cache_hit_rate (m : Metrics) : pyval :=
  if (0 <? cache_hits m + cache_misses m)%Z
  then PyFloat (inject_Z (cache_hits m)
                / inject_Z (cache_hits m + cache_misses m))%Q
  else PyInt 0.

Definition success_rate (m : Metrics) : pyval :=
  if (0 <? requests_total m)%Z
  then PyFloat (inject_Z (requests_success m) / inject_Z (requests_total m))%Q
  else PyInt 0.

(** [AsyncProductionRAGManager.get_metrics] *)
Definition get_metrics : M State pyval :=
  let* m := gets (fun s => metrics (self s)) in
  ret (PyDict
         [("requests_total", PyInt (requests_total m));
          ("requests_success", PyInt (requests_success m));
          ("requests_failed", PyInt (requests_failed m));
          ("cache_hits", PyInt (cache_hits m));
          ("cache_misses", PyInt (cache_misses m));
          ("avg_response_time", PyFloat (avg_response_time m));
          ("cache_hit_rate", cache_hit_rate m);
          ("success_rate", success_rate m)]).

(** [AsyncProductionRAGManager.clear_cache] *)
Definition clear_cache : M State unit :=
  let* m := gets self in
  if cache m then invalidate_pattern "*" else ret tt.

(** [AsyncRedisCache.__init__] *)
Definition AsyncRedisCache_init (config : CacheConfig) : AsyncRedisCache :=
  {| cache_settings := config; redis := false |}.

(** [AsyncRedisCache.connect].  [from_url] only builds the client; the URL is
    taken to be well formed, so that the first thing that can fail is
    [ping]. *)
Definition connect : M State unit :=
  let* c := gets redis_cache in
  if negb (enabled (cache_settings c)) then ret tt
  else
    try_except
      (modify (on_cache (set_redis true)) ;;;
       redis_call PING ;;;
       ret tt)
      (fun _ => modify (on_cache (set_redis false))).

(** [AsyncRedisCache.close] *)
Definition cache_close : M State unit :=
  let* c := gets redis_cache in
  if redis c then redis_call CLOSE ;;; ret tt else ret tt.

(** What becomes of a scheduled recording when the manager replaces its
    pool: the task still runs, on the breaker of the old pool. *)
Definition stale (l : list recording) : list recording :=
  flat_map (fun r => match r with
                     | RecordSuccess => []
                     | RecordFailure | RecordStale => [RecordStale]
                     end) l.

(** [self.connection_pool = AsyncConnectionPool(self.base_url,
    self.connection_config)] *)
Definition new_connection_pool (s : State) : State :=
  {| world := world s; pending := stale (pending s);
     pool := AsyncConnectionPool_init (manager_base_url (self s))
               (connection_config (self s));
     redis_cache := redis_cache s;
     self :=
       {| manager_base_url := manager_base_url (self s);
          connection_config := connection_config (self s);
          cache_config := cache_config (self s);
          connection_pool := true;
          cache := cache (self s);
          metrics := metrics (self s) |} |}.

(** [self.cache = AsyncRedisCache(self.cache_config)] *)
Definition new_cache (s : State) : State :=
  {| world := world s; pending := pending s; pool := pool s;
     redis_cache := AsyncRedisCache_init (cache_config (self s));
     self :=
       {| manager_base_url := manager_base_url (self s);
          connection_config := connection_config (self s);
          cache_config := cache_config (self s);
          connection_pool := connection_pool (self s);
          cache := true;
          metrics := metrics (self s) |} |}.

(** [AsyncProductionRAGManager.initialize] *)
Definition initialize : M State unit :=
  modify new_connection_pool ;;;
  modify new_cache ;;;
  connect ;;;
  health_check ;;;
  ret tt.

(** [AsyncProductionRAGManager.close] (the executor holds no state of the
    model). *)
Definition close : M State unit :=
  let* m := gets self in
  (if connection_pool m then pool_close else ret tt) ;;;
  (if cache m then cache_close else ret tt).

(** [response.get('results', [])] *)
Definition get_results (response : pyval) : M State pyval :=
  match response with
  | PyDict d => ret (arg d "results" (PyList []))
  | _ => raise (AttributeError "object has no attribute 'get'")
  end.

(** [AsyncProductionRAGManager.async_similarity_search] *)
Definition async_similarity_search (query collection_name n_results
  where_ where_document : pyval) : M State pyval :=
  let* w := gets world in
  match hash w query with
  | inl e => raise e
  | inr h =>
      let cache_key :=
        PyStr ("search:" +:+ format w (PyInt h) +:+ ":"
               +:+ format w collection_name +:+ ":" +:+ format w n_results) in
      let* m := gets self in
      let caching :=
        enabled (cache_config m) && enable_query_cache (cache_config m) in
      let* cached :=
        (if caching then self_cache_get "search" cache_key else ret PyNone) in
      if caching && truthy cached
      then modify (on_metrics count_hit) ;;; ret cached
      else
        let* start_time := time_time in
        let search_params :=
          PyDict ([("query_texts", PyList [query]); ("n_results", n_results)]
                  ++ (if truthy where_ then [("where", where_)] else [])
                  ++ (if truthy where_document
                      then [("where_document", where_document)] else [])) in
        try_except
          (async_with_pool
             (let* response :=
                post ("/collections/" +:+ format w collection_name +:+ "/query")
                  search_params in
              modify (on_metrics count_success) ;;;
              (if caching
               then self_cache_set "search" cache_key response
               else ret tt) ;;;
              modify (on_metrics count_miss) ;;;
              let* t := time_time in
              _update_metrics (t - start_time)%Q ;;;
              get_results response))
          count_and_reraise
  end.

(** *** More runs and predicates *)

(** The public coroutines and methods of the manager, [batch_operations]
    apart: its coroutines run interleaved, and it is found in module
    [Coroutine]. *)
Inductive facade_op :=
| OpInitialize
| OpClose
| OpHealthCheck
| OpGetCollections
| OpCreateCollection (name metadata : pyval)
| OpAddDocuments (collection_name documents metadatas ids : pyval)
| OpSimilaritySearch
    (collection_name query_texts n_results where_ where_document : pyval)
| OpGetCollectionInfo (collection_name : pyval)
| OpDeleteCollection (collection_name : pyval)
| OpGetMetrics
| OpClearCache
| OpAsyncSimilaritySearch
    (query collection_name n_results where_ where_document : pyval).

Definition run_facade_op (op : facade_op) : M State unit :=
  match op with
  | OpInitialize => initialize
  | OpClose => close
  | OpHealthCheck => health_check ;;; ret tt
  | OpGetCollections => get_collections ;;; ret tt
  | OpCreateCollection n m => create_collection n m ;;; ret tt
  | OpAddDocuments c d m i => add_documents c d m i ;;; ret tt
  | OpSimilaritySearch c q n w wd => similarity_search c q n w wd ;;; ret tt
  | OpGetCollectionInfo c => get_collection_info c ;;; ret tt
  | OpDeleteCollection c => delete_collection c ;;; ret tt
  | OpGetMetrics => get_metrics ;;; ret tt
  | OpClearCache => clear_cache
  | OpAsyncSimilaritySearch q c n w wd =>
      async_similarity_search q c n w wd ;;; ret tt
  end.

(** A sequence of them, each awaited to its end, returned or raised, before
    the next is started. *)
Fixpoint run_facade_ops (ops : list facade_op) (s : State) : State :=
  match ops with
  | [] => s
  | op :: rest => run_facade_ops rest (snd (run_facade_op op s))
  end.

(** The counter of finished requests is behind the counter of successes by
    [k] at least. *)
Definition behind (k : Z) (s : State) : Prop :=
  (requests_total (metrics (self s)) + k
   <= requests_success (metrics (self s)))%Z.

(** A session of public coroutines. *)
Definition sample_session : list facade_op :=
  [OpHealthCheck;
   OpSimilaritySearch (PyStr "docs") (PyList [PyStr "test query"]) (PyInt 5)
     PyNone PyNone;
   OpGetCollectionInfo (PyStr "docs");
   OpAsyncSimilaritySearch (PyStr "test query") (PyStr "docs") (PyInt 5)
     PyNone PyNone;
   OpGetMetrics].

(** The key begins as the keys that the manager writes begin. *)
Definition manager_key (key : string) : bool :=
  String.prefix "search:" key || String.prefix "collection_info:" key
  || String.prefix "collections:" key.

(** A write is under a key of the manager. *)
Definition manager_write (c : redis_command) : Prop :=
  match c with
  | SETEX key _ _ => manager_key key = true
  | _ => True
  end.

(** A look-up of the keys that begin with [collection:], or a deletion. *)
Definition collection_sweep (c : redis_command) : Prop :=
  match c with
  | KEYS pattern => String.prefix "collection:" pattern = true
  | DEL _ => True
  | _ => False
  end.

(** [n] failures recorded in a row: the scheduled recordings, run by the
    event loop. *)
Fixpoint record_failures (n : nat) : M State unit :=
  match n with
  | O => ret tt
  | S k => _record_failure ;;; record_failures k
  end.

(** The breaker of [quiet_state] after five recorded failures. *)
Definition tripped_state : State := snd (record_failures 5 quiet_state).

End Async.

(** * The coroutines of a batch, with their suspension points

    [batch_operations] does not await its coroutines one after the other:
    [asyncio.gather] runs them as tasks of the event loop, which go on in
    turns, each from one suspension to the next.  Module [Async] gives what a
    coroutine does when it is awaited alone; this module gives the same
    coroutines with the places where they are suspended, and the event loop
    that takes them there. *)

Module Coroutine.

Import Async.

(** A coroutine as the event loop sees it: it has ended, returned or raised
    ([Done]); or it runs code that is not suspended, which takes the state
    [s] to [step s] and goes on as [next s] ([Run]); or it is suspended at an
    [await], and goes on as [rest] when the loop resumes it ([Suspended]). *)
Inductive Co (A : Type) : Type :=
| Done (r : exn + A)
| Run (step : State -> State) (next : State -> Co A)
| Suspended (rest : Co A).

Arguments Done {A} r.
Arguments Run {A} step next.
Arguments Suspended {A} rest.

Definition co_ret {A} (a : A) : Co A := Done (inr a).

Definition co_raise {A} (e : exn) : Co A := Done (inl e).

(** Code that is not suspended: a computation of module [Async]. *)
Definition atomic {A} (c : M State A) : Co A :=
  Run (fun s => snd (c s)) (fun s => Done (fst (c s))).

(** An [await] that hands control to the event loop. *)
Definition suspend : Co unit := Suspended (Done (inr tt)).

Fixpoint co_bind {A B} (c : Co A) (k : A -> Co B) : Co B :=
  match c with
  | Done (inl e) => Done (inl e)
  | Done (inr a) => k a
  | Run step next => Run step (fun s => co_bind (next s) k)
  | Suspended rest => Suspended (co_bind rest k)
  end.

(** [try: c   except Exception as e: h e] *)
Fixpoint co_try_except {A} (c : Co A) (h : exn -> Co A) : Co A :=
  match c with
  | Done (inl e) => h e
  | Done (inr a) => Done (inr a)
  | Run step next => Run step (fun s => co_try_except (next s) h)
  | Suspended rest => Suspended (co_try_except rest h)
  end.

(** [try: c   finally: f], for an [f] that is not suspended. *)
Fixpoint co_try_finally {A} (c : Co A) (f : M State unit) : Co A :=
  match c with
  | Done r =>
      Run (fun s => snd (f s))
        (fun s => Done match fst (f s) with
                       | inr _ => r
                       | inl e => inl e
                       end)
  | Run step next => Run step (fun s => co_try_finally (next s) f)
  | Suspended rest => Suspended (co_try_finally rest f)
  end.

Notation "'let!' x ':=' c 'in' k" := (co_bind c (fun x => k))
  (at level 10, x pattern, c at level 100, k at level 200).

Notation "c ';;!' k" := (co_bind c (fun _ => k))
  (at level 100, k at level 200, right associativity).

(** *** The suspension points *)

(** [await asyncio.sleep(d)] *)
Definition asyncio_sleep (d : Q) : Co unit :=
  atomic (modify (on_world (fun w => set_slept (slept w ++ [d]) w))) ;;!
  suspend.

(** One HTTP exchange: the coroutine is suspended between the request and
    the answer. *)
Definition http_exchange (r : http_request) : Co (Z * (exn + pyval)) :=
  let! n := atomic (gets (fun s => length (http_log (world s)))) in
  atomic (modify (on_world (fun w => set_http_log (http_log w ++ [r]) w))) ;;!
  suspend ;;!
  atomic (fun s => (http_source (world s) n r, s)).

(** One Redis command, in the same way. *)
Definition redis_call (c : redis_command) : Co pyval :=
  let! n := atomic (gets (fun s => length (redis_log (world s)))) in
  atomic (modify (on_world (fun w => set_redis_log (redis_log w ++ [c]) w))) ;;!
  suspend ;;!
  atomic (fun s => (redis_source (world s) n c, s)).

(** *** [class AsyncConnectionPool] *)

(** The [try] block of the loop of [request]. *)
Definition request_try (r : http_request) : Co pyval :=
  atomic _ensure_session ;;!
  let! response := http_exchange r in
  let! w := atomic (gets world) in
  if (400 <=? fst response)%Z
  then co_raise (Exc "ClientResponseError"
                   ("HTTP " +:+ format w (PyInt (fst response))))
  else
    match snd response with
    | inl e => co_raise e
    | inr data => atomic record_success ;;! co_ret data
    end.

(** Its [except] block. *)
Definition request_except (attempt : nat) (e : exn) : Co unit :=
  atomic record_failure ;;!
  let! p := atomic (gets pool) in
  if (Z.of_nat attempt =? retry_attempts (config p) - 1)%Z
  then co_raise e
  else asyncio_sleep (retry_delay (config p) * 2 ^ Z.of_nat attempt)%Q.

(** [for attempt in range(self.config.retry_attempts)] from [attempt] on. *)
Fixpoint request_from (r : http_request) (remaining attempt : nat)
  : Co pyval :=
  match remaining with
  | O => co_ret PyNone
  | S remaining' =>
      let! outcome :=
        co_try_except
          (let! data := request_try r in co_ret (Some data))
          (fun e => request_except attempt e ;;! co_ret None) in
      match outcome with
      | Some data => co_ret data
      | None => request_from r remaining' (S attempt)
      end
  end.

(** [AsyncConnectionPool.request] *)
Definition request (method endpoint : string) (json : option pyval)
  : Co pyval :=
  let! p := atomic (gets pool) in
  let r := {| method := method; url := base_url p +:+ endpoint; json := json |} in
  atomic _check_state ;;!
  request_from r (Z.to_nat (retry_attempts (config p))) 0.

(** [AsyncConnectionPool.get] and [post] *)
Definition get (endpoint : string) : Co pyval := request "GET" endpoint None.

Definition post (endpoint : string) (json : pyval) : Co pyval :=
  request "POST" endpoint (Some json).

(** *** [class AsyncRedisCache] *)

(** [AsyncRedisCache.get] *)
Definition cache_get (prefix : string) (data : pyval) : Co pyval :=
  let! c := atomic (gets redis_cache) in
  if cache_off c then co_ret PyNone
  else
    co_try_except
      (let! key := atomic (_generate_key prefix data) in
       let! v := redis_call (GET key) in
       if truthy v
       then
         let! w := atomic (gets world) in
         match json_loads w v with
         | inl e => co_raise e
         | inr decoded => co_ret decoded
         end
       else co_ret PyNone)
      (fun _ => co_ret PyNone).

(** [AsyncRedisCache.set] *)
Definition cache_set (prefix : string) (data v : pyval) : Co unit :=
  let! c := atomic (gets redis_cache) in
  if cache_off c then co_ret tt
  else
    co_try_except
      (let! key := atomic (_generate_key prefix data) in
       let! w := atomic (gets world) in
       match json_dumps w v with
       | inl e => co_raise e
       | inr text =>
           redis_call (SETEX key (ttl_seconds (cache_settings c)) text) ;;!
           co_ret tt
       end)
      (fun _ => co_ret tt).

(** [AsyncRedisCache.invalidate_pattern] *)
Definition invalidate_pattern (pattern : string) : Co unit :=
  let! c := atomic (gets redis_cache) in
  if cache_off c then co_ret tt
  else
    co_try_except
      (let! keys := redis_call (KEYS pattern) in
       if truthy keys
       then
         match keys with
         | PyList _ | PyStr _ | PyDict _ => redis_call (DEL keys) ;;! co_ret tt
         | _ => co_raise (TypeError "argument after * must be an iterable")
         end
       else co_ret tt)
      (fun _ => co_ret tt).

(** *** [class AsyncProductionRAGManager] *)

(** [async with self.connection_pool as pool: body] *)
Definition async_with_pool {A} (body : Co A) : Co A :=
  let! m := atomic (gets self) in
  if connection_pool m
  then atomic _ensure_session ;;! co_try_finally body pool_close
  else co_raise (AttributeError "__aenter__").

Definition self_cache_get (prefix : string) (data : pyval) : Co pyval :=
  let! m := atomic (gets self) in
  if cache m then cache_get prefix data
  else co_raise (AttributeError "'NoneType' object has no attribute 'get'").

Definition self_cache_set (prefix : string) (data v : pyval) : Co unit :=
  let! m := atomic (gets self) in
  if cache m then cache_set prefix data v
  else co_raise (AttributeError "'NoneType' object has no attribute 'set'").

Definition self_cache_invalidate (pattern : string) : Co unit :=
  let! m := atomic (gets self) in
  if cache m then invalidate_pattern pattern
  else co_raise (AttributeError
                   "'NoneType' object has no attribute 'invalidate_pattern'").

(** The [except Exception] block shared by the operations. *)
Definition count_and_reraise {A} (e : exn) : Co A :=
  atomic (modify (on_metrics count_failed)) ;;! co_raise e.

(** [AsyncProductionRAGManager.similarity_search] *)
Definition similarity_search (collection_name query_texts n_results
  where_ where_document : pyval) : Co pyval :=
  let! start_time := atomic time_time in
  let search_params :=
    PyDict [("collection_name", collection_name);
            ("query_texts", query_texts); ("n_results", n_results);
            ("where", where_); ("where_document", where_document)] in
  let! m := atomic (gets self) in
  let! w := atomic (gets world) in
  let cache_key := "search:" +:+ format w collection_name in
  let! cached :=
    (if enable_query_cache (cache_config m)
     then self_cache_get cache_key search_params
     else co_ret PyNone) in
  if enable_query_cache (cache_config m) && truthy cached
  then atomic (modify (on_metrics count_hit)) ;;! co_ret cached
  else
    co_try_except
      (async_with_pool
         (let! response := post "/collections/query" search_params in
          atomic (modify (on_metrics count_success)) ;;!
          (if enable_query_cache (cache_config m)
           then self_cache_set cache_key search_params response
           else co_ret tt) ;;!
          atomic (modify (on_metrics count_miss)) ;;!
          let! t := atomic time_time in
          atomic (_update_metrics (t - start_time)%Q) ;;!
          co_ret response))
      count_and_reraise.

(** [AsyncProductionRAGManager.add_documents] *)
Definition add_documents (collection_name documents metadatas ids : pyval)
  : Co pyval :=
  let! start_time := atomic time_time in
  let! ids :=
    (match ids with
     | PyNone =>
         let! n := atomic (py_len documents) in
         let! l := atomic (generate_ids n 0) in
         co_ret (PyList l)
     | _ => co_ret ids
     end) in
  let! metadatas :=
    (if truthy metadatas then co_ret metadatas
     else
       let! n := atomic (py_len documents) in
       co_ret (PyList (repeat (PyDict []) n))) in
  let batch_data :=
    PyDict [("collection_name", collection_name); ("documents", documents);
            ("metadatas", metadatas); ("ids", ids)] in
  let! m := atomic (gets self) in
  let! w := atomic (gets world) in
  co_try_except
    (async_with_pool
       (let! response := post "/collections/add" batch_data in
        atomic (modify (on_metrics count_success)) ;;!
        (if enabled (cache_config m)
         then self_cache_invalidate
                ("collection:" +:+ format w collection_name +:+ ":*")
         else co_ret tt) ;;!
        let! t := atomic time_time in
        atomic (_update_metrics (t - start_time)%Q) ;;!
        co_ret response))
    count_and_reraise.

(** [AsyncProductionRAGManager.get_collection_info] *)
Definition get_collection_info (collection_name : pyval) : Co pyval :=
  let! m := atomic (gets self) in
  let! w := atomic (gets world) in
  let! cached :=
    (if enabled (cache_config m)
     then self_cache_get "collection_info" collection_name
     else co_ret PyNone) in
  if enabled (cache_config m) && truthy cached
  then atomic (modify (on_metrics count_hit)) ;;! co_ret cached
  else
    let! start_time := atomic time_time in
    co_try_except
      (async_with_pool
         (let! response := get ("/collections/" +:+ format w collection_name) in
          atomic (modify (on_metrics count_success)) ;;!
          (if enabled (cache_config m)
           then self_cache_set "collection_info" collection_name response
           else co_ret tt) ;;!
          atomic (modify (on_metrics count_miss)) ;;!
          let! t := atomic time_time in
          atomic (_update_metrics (t - start_time)%Q) ;;!
          co_ret response))
      count_and_reraise.

(** **** [batch_operations] *)

(** [method( **operation['params'])]: the call that creates the coroutine.
    A missing ['params'] is a [KeyError], a value that is no mapping or does
    not fit the signature a [TypeError]; both are raised by the call, before
    any coroutine runs.  Creating a coroutine has no effect on the state. *)
Definition call_with_params (operation : list (string * pyval))
  (parameters required : list string)
  (method : list (string * pyval) -> Co pyval)
  : exn + option (Co pyval) :=
  match dict_get operation "params" with
  | None => inl (KeyError "'params'")
  | Some (PyDict params) =>
      if binds parameters required params
      then inr (Some (method params))
      else inl (TypeError "unexpected or missing keyword argument")
  | Some _ => inl (TypeError "argument after ** must be a mapping")
  end.

(** One round of the [for operation in operations] loop: the coroutine
    created for the operation, or [None] for an unknown type ([continue]). *)
Definition create_task_for (operation : pyval) : exn + option (Co pyval) :=
  match operation with
  | PyDict op =>
      let op_type := arg op "type" PyNone in
      if eq_str op_type "search"
      then
        call_with_params op
          ["collection_name"; "query_texts"; "n_results"; "where";
           "where_document"]
          ["collection_name"; "query_texts"]
          (fun a =>
             similarity_search (arg a "collection_name" PyNone)
               (arg a "query_texts" PyNone) (arg a "n_results" (PyInt 10))
               (arg a "where" PyNone) (arg a "where_document" PyNone))
      else if eq_str op_type "add"
      then
        call_with_params op
          ["collection_name"; "documents"; "metadatas"; "ids"]
          ["collection_name"; "documents"]
          (fun a =>
             add_documents (arg a "collection_name" PyNone)
               (arg a "documents" PyNone) (arg a "metadatas" PyNone)
               (arg a "ids" PyNone))
      else if eq_str op_type "get_info"
      then
        call_with_params op ["collection_name"] ["collection_name"]
          (fun a => get_collection_info (arg a "collection_name" PyNone))
      else inr None
  | _ => inl (AttributeError "object has no attribute 'get'")
  end.

(** The loop that fills [tasks]; an exception ends it. *)
Fixpoint create_tasks (operations : list pyval) : exn + list (Co pyval) :=
  match operations with
  | [] => inr []
  | operation :: rest =>
      match create_task_for operation with
      | inl e => inl e
      | inr task =>
          match create_tasks rest with
          | inl e => inl e
          | inr tasks =>
              inr (match task with Some t => t :: tasks | None => tasks end)
          end
      end
  end.

(** *** The event loop *)

(** The coroutine runs until it ends or is suspended. *)
Fixpoint advance {A} (c : Co A) (s : State) : Co A * State :=
  match c with
  | Done r => (Done r, s)
  | Run step next => advance (next s) (step s)
  | Suspended rest => (Suspended rest, s)
  end.

(** The loop resumes a task: a suspended one goes on behind its [await], and
    one that has ended stays as it is. *)
Definition resume {A} (c : Co A) (s : State) : Co A * State :=
  match c with
  | Suspended rest => advance rest s
  | _ => advance c s
  end.

(** A coroutine awaited alone, as the coroutines of module [Async] are: when
    it is suspended the loop runs the recordings scheduled so far and has
    nothing else to resume. *)
Fixpoint alone {A} (c : Co A) (s : State) : (exn + A) * State :=
  match c with
  | Done r => (r, s)
  | Run step next => alone (next s) (step s)
  | Suspended rest => (run_pending ;;; alone rest) s
  end.

(** The first turn of the tasks of [gather], in the order of their
    creation. *)
Fixpoint start_all (tasks : list (Co pyval)) (s : State)
  : list (Co pyval) * State :=
  match tasks with
  | [] => ([], s)
  | t :: rest =>
      let first := advance t s in
      let others := start_all rest (snd first) in
      (fst first :: fst others, snd others)
  end.

(** A turn of the loop: it resumes the task [i], whose answer has arrived
    or whose sleep has ended, or it runs the recordings scheduled so far.
    Which turn comes when is decided by the arrival of the answers, not by
    the program. *)
Inductive turn := Resume (i : nat) | Recordings.

Definition take_turn (t : turn) (tasks : list (Co pyval)) (s : State)
  : list (Co pyval) * State :=
  match t with
  | Resume i =>
      match tasks !! i with
      | Some c => let r := resume c s in (<[i := fst r]> tasks, snd r)
      | None => (tasks, s)
      end
  | Recordings => (tasks, snd (run_pending s))
  end.

Fixpoint take_turns (schedule : list turn) (tasks : list (Co pyval))
  (s : State) : list (Co pyval) * State :=
  match schedule with
  | [] => (tasks, s)
  | t :: rest =>
      let r := take_turn t tasks s in
      take_turns rest (fst r) (snd r)
  end.

(** The tasks that have not ended go on to their end, one after the other,
    each as a coroutine that is alone. *)
Fixpoint finish_all (tasks : list (Co pyval)) (s : State)
  : list (exn + pyval) * State :=
  match tasks with
  | [] => ([], s)
  | c :: rest =>
      let r := alone c s in
      let rs := finish_all rest (snd r) in
      (fst r :: fst rs, snd rs)
  end.

(** [await asyncio.gather( *tasks, return_exceptions=True)]: one outcome per
    task, in the order of the tasks, an exception being kept as a value.
    The caller is suspended, so the recordings scheduled before run first;
    then every task has its first turn, the loop takes the turns of
    [schedule], and what is left of the tasks after them runs to its end.
    The recordings scheduled last have run when the caller goes on.  Without
    tasks the caller is not suspended. *)
Definition gather (schedule : list turn) (tasks : list (Co pyval))
  : M State (list (exn + pyval)) :=
  match tasks with
  | [] => ret []
  | _ =>
      run_pending ;;;
      let* results :=
        (fun s =>
           let started := start_all tasks s in
           let turned := take_turns schedule (fst started) (snd started) in
           let finished := finish_all (fst turned) (snd turned) in
           (inr (fst finished), snd finished)) in
      run_pending ;;;
      ret results
  end.

(** [AsyncProductionRAGManager.batch_operations], under the schedule
    [schedule] of the event loop. *)
Definition batch_operations (schedule : list turn) (operations : list pyval)
  : M State (list pyval) :=
  match create_tasks operations with
  | inl e => raise e
  | inr tasks =>
      let* results := gather schedule tasks in
      ret (map processed results)
  end.

(** *** Predicates and runs used to state the properties *)

(** Awaited alone, the coroutine [c] is the computation [m]. *)
Definition agrees {A} (c : Co A) (m : M State A) : Prop :=
  forall s, alone c s = m s.



(** Every block of code of the coroutine that is started where [inv] holds
    ends where [inv] holds, wherever the blocks before it have led. *)
Fixpoint blocks_maintain {A} (inv : State -> Prop) (c : Co A) : Prop :=
  match c with
  | Done _ => True
  | Run step next =>
      forall s, inv s -> inv (step s) /\ blocks_maintain inv (next s)
  | Suspended rest => blocks_maintain inv rest
  end.

(** *** Sample inputs *)


(** The service answers every request but those for [endpoint], which fail
    to connect. *)
Definition refusing (endpoint : string) : State :=
  manager_state
    (with_http (fun _ r =>
                  if String.eqb (url r)
                       ("http://localhost:8000/api/v1" +:+ endpoint)
                  then inl refused
                  else inr (200%Z, inr (PyDict [("ids", PyList [])])))
       quiet_world)
    default_config.

(** [rounds] rounds in each of which the loop resumes every one of [n]
    tasks and then runs the recordings. *)
Definition round_robin (n rounds : nat) : list turn :=
  flat_map (fun _ => map Resume (seq 0 n) ++ [Recordings]) (seq 0 rounds).



End Coroutine.

(** * The delay formula of the specification *)

Module Spec.


End Spec.

(** * Reasoning about computations *)

Module MFacts.

Section View.

Context {S X : Type} (view : S -> X).

Local Abbreviation keeps := (keeps view).

Lemma keeps_ret {A} (a : A) : keeps (ret a).
Proof. intros s. reflexivity. Qed.

Lemma keeps_raise {A} (e : exn) : keeps (@raise S A e).
Proof. intros s. reflexivity. Qed.

Lemma keeps_gets {A} (f : S -> A) : keeps (gets f).
Proof. intros s. reflexivity. Qed.

Lemma keeps_modify (f : S -> S) :
  (forall s, view (f s) = view s) -> keeps (modify f).
Proof. intros H s. apply H. Qed.

Lemma keeps_bind {A B} (c : M S A) (k : A -> M S B) :
  keeps c -> (forall a, keeps (k a)) -> keeps (bind c k).
Proof.
  intros Hc Hk s. unfold bind. specialize (Hc s).
  destruct (c s) as [[e | a] s']; cbn in *; [exact Hc |].
  rewrite Hk. exact Hc.
Qed.

Lemma keeps_try_except {A} (c : M S A) (h : exn -> M S A) :
  keeps c -> (forall e, keeps (h e)) -> keeps (try_except c h).
Proof.
  intros Hc Hh s. unfold try_except. specialize (Hc s).
  destruct (c s) as [[e | a] s']; cbn in *; [| exact Hc].
  rewrite Hh. exact Hc.
Qed.

Lemma keeps_try_finally {A} (c : M S A) (f : M S unit) :
  keeps c -> keeps f -> keeps (try_finally c f).
Proof.
  intros Hc Hf s. unfold try_finally. specialize (Hc s).
  destruct (c s) as [r s']. specialize (Hf s').
  destruct (f s') as [[e | u] s'']; cbn in *; congruence.
Qed.

Lemma keeps_if {A} (b : bool) (c d : M S A) :
  keeps c -> keeps d -> keeps (if b then c else d).
Proof. destruct b; auto. Qed.

End View.

Section Invariant.

Context {S : Type} (inv : S -> Prop).

Local Abbreviation maintains := (maintains inv).

Lemma maintains_ret {A} (a : A) : maintains (ret a).
Proof. intros s H. exact H. Qed.

Lemma maintains_raise {A} (e : exn) : maintains (@raise S A e).
Proof. intros s H. exact H. Qed.

Lemma maintains_gets {A} (f : S -> A) : maintains (gets f).
Proof. intros s H. exact H. Qed.

Lemma maintains_modify (f : S -> S) :
  (forall s, inv s -> inv (f s)) -> maintains (modify f).
Proof. intros H s Hs. apply H. exact Hs. Qed.

Lemma maintains_bind {A B} (c : M S A) (k : A -> M S B) :
  maintains c -> (forall a, maintains (k a)) -> maintains (bind c k).
Proof.
  intros Hc Hk s Hs. unfold bind. specialize (Hc s Hs).
  destruct (c s) as [[e | a] s']; cbn in *; [exact Hc |].
  apply Hk. exact Hc.
Qed.

Lemma maintains_try_except {A} (c : M S A) (h : exn -> M S A) :
  maintains c -> (forall e, maintains (h e)) -> maintains (try_except c h).
Proof.
  intros Hc Hh s Hs. unfold try_except. specialize (Hc s Hs).
  destruct (c s) as [[e | a] s']; cbn in *; [| exact Hc].
  apply Hh. exact Hc.
Qed.

Lemma maintains_try_finally {A} (c : M S A) (f : M S unit) :
  maintains c -> maintains f -> maintains (try_finally c f).
Proof.
  intros Hc Hf s Hs. unfold try_finally. specialize (Hc s Hs).
  destruct (c s) as [r s']. specialize (Hf s' Hc).
  destruct (f s') as [[e | u] s'']; cbn in *; assumption.
Qed.

Lemma maintains_if {A} (b : bool) (c d : M S A) :
  maintains c -> maintains d -> maintains (if b then c else d).
Proof. destruct b; auto. Qed.

End Invariant.

Section Inversion.

Context {S : Type}.

Lemma bind_returns {A B} (c : M S A) (k : A -> M S B) (s : S) (b : B) :
  fst (bind c k s) = inr b ->
  exists a, fst (c s) = inr a /\ fst (k a (snd (c s))) = inr b.
Proof.
  unfold bind. destruct (c s) as [[e | a] s1]; cbn; [discriminate |].
  intros H. exists a. auto.
Qed.

Lemma try_finally_returns {A} (c : M S A) (f : M S unit) (s : S) (a : A) :
  fst (try_finally c f s) = inr a -> fst (c s) = inr a.
Proof.
  unfold try_finally. destruct (c s) as [r s1].
  destruct (f s1) as [[e | u] s2]; cbn; [discriminate | auto].
Qed.

Lemma try_except_fst {A} (c : M S A) (h : exn -> M S A) (s : S) :
  fst (try_except c h s) =
  match fst (c s) with
  | inr a => inr a
  | inl e => fst (h e (snd (c s)))
  end.
Proof. unfold try_except. destruct (c s) as [[e | a] s1]; reflexivity. Qed.

Lemma try_except_total {A} (c : M S A) (h : exn -> M S A) (s : S) :
  (forall e s', raised (fst (h e s')) = false) ->
  raised (fst (try_except c h s)) = false.
Proof.
  intros Hh. unfold try_except. destruct (c s) as [[e | a] s1];
    [apply Hh | reflexivity].
Qed.

End Inversion.

Create HintDb frame.

#[export] Hint Resolve keeps_ret keeps_raise keeps_gets : frame.

(** Frame conditions are proved along the structure of the computation. *)
Ltac frame_step :=
  match goal with
  | |- keeps _ (match ?x with _ => _ end) => destruct x
  | |- keeps _ (bind _ _) => apply keeps_bind; [| intros ?]
  | |- keeps _ (try_except _ _) => apply keeps_try_except; [| intros ?]
  | |- keeps _ (try_finally _ _) => apply keeps_try_finally
  | |- keeps _ (modify _) => apply keeps_modify; intros ?; reflexivity
  | |- keeps _ _ => solve [auto with frame]
  end.

Ltac frame := repeat frame_step.

End MFacts.

(** * Properties of the synchronous manager *)

Module SyncFacts.

Import Sync MFacts.

(** ** The circuit breaker *)

Lemma breaker_inv_init threshold timeout :
  breaker_inv (CircuitBreaker_init threshold timeout).
Proof. split; cbn; [lia | congruence]. Qed.

Lemma on_failure_eq (s : State) :
  _on_failure s =
  (inr tt,
   on_self (set_circuit_breaker
     {| failure_threshold := failure_threshold (circuit_breaker (self s));
        recovery_timeout := recovery_timeout (circuit_breaker (self s));
        _state :=
          if (failure_threshold (circuit_breaker (self s))
              <=? _failure_count (circuit_breaker (self s)) + 1)%Z
          then OPEN else _state (circuit_breaker (self s));
        _failure_count := (_failure_count (circuit_breaker (self s)) + 1)%Z;
        _last_failure_time :=
          Some (time_source (world s) (time_reads (world s))) |})
     (clock_read 1 s)).
Proof.
  reflexivity.
Qed.

Lemma on_success_eq (s : State) :
  _on_success s =
  (inr tt,
   on_self (set_circuit_breaker
     {| failure_threshold := failure_threshold (circuit_breaker (self s));
        recovery_timeout := recovery_timeout (circuit_breaker (self s));
        _state := CLOSED; _failure_count := 0;
        _last_failure_time := _last_failure_time (circuit_breaker (self s)) |})
     s).
Proof. reflexivity. Qed.

Lemma on_failure_inv (s : State) :
  breaker_inv (circuit_breaker (self s)) ->
  breaker_inv (circuit_breaker (self (snd (_on_failure s)))).
Proof.
  intros [Hc Hs]. rewrite on_failure_eq. cbn. split; cbn; [lia |].
  destruct (Z.leb_spec (failure_threshold (circuit_breaker (self s)))
              (_failure_count (circuit_breaker (self s)) + 1)) as [Hle | Hlt].
  - intros _. split; [lia | congruence].
  - intros Hn. destruct (Hs Hn) as [Hge _]. lia.
Qed.

Lemma on_success_inv (s : State) :
  breaker_inv (circuit_breaker (self (snd (_on_success s)))).
Proof. rewrite on_success_eq. split; cbn; [lia | congruence]. Qed.

Lemma can_execute_inv (s : State) :
  breaker_inv (circuit_breaker (self s)) ->
  breaker_inv (circuit_breaker (self (snd (_can_execute s)))).
Proof.
  intros Hinv. unfold _can_execute, bind, get_breaker, gets. cbn.
  destruct (_state (circuit_breaker (self s))) eqn:Hst; cbn; try exact Hinv.
  destruct (_last_failure_time (circuit_breaker (self s))) eqn:Hl; cbn;
    try exact Hinv.
  destruct (Qle_bool _ _); cbn; try exact Hinv.
  destruct Hinv as [Hc Hs]. split; cbn; [exact Hc |].
  intros _. rewrite Hl. destruct Hs as [Hge _]; [congruence |].
  split; [exact Hge | congruence].
Qed.

(** Reading the clock [n] times and then [m] times is reading it [n + m]
    times; reading it zero times changes nothing. *)
Lemma clock_read_0 (s : State) : clock_read 0 s = s.
Proof.
  destruct s as [[] m]. unfold clock_read, on_world, set_time_reads. cbn.
  rewrite Nat.add_0_r. reflexivity.
Qed.

Lemma clock_read_add (n m : nat) (s : State) :
  clock_read m (clock_read n s) = clock_read (n + m) s.
Proof.
  destruct s as [[] x]. unfold clock_read, on_world, set_time_reads. cbn.
  rewrite Nat.add_assoc. reflexivity.
Qed.

Lemma clock_read_on_self f (n : nat) (s : State) :
  clock_read n (on_self f s) = on_self f (clock_read n s).
Proof. reflexivity. Qed.

Lemma set_breaker_twice b b' (s : State) :
  on_self (set_circuit_breaker b') (on_self (set_circuit_breaker b) s)
  = on_self (set_circuit_breaker b') s.
Proof. reflexivity. Qed.

Lemma set_breaker_same (s : State) :
  on_self (set_circuit_breaker (circuit_breaker (self s))) s = s.
Proof. destruct s as [w []]. reflexivity. Qed.

(** The state after [n] failures recorded in a row: only the breaker and the
    number of clock readings changed; the counter grew by [n], the last
    failure time is the last reading taken, and the breaker is OPEN as soon
    as the counter reaches the threshold. *)
Lemma record_failures_spec (n : nat) (s : State) :
  exists b',
    record_failures n s =
      (inr tt, on_self (set_circuit_breaker b') (clock_read n s)) /\
    failure_threshold b' = failure_threshold (circuit_breaker (self s)) /\
    recovery_timeout b' = recovery_timeout (circuit_breaker (self s)) /\
    _failure_count b' = (_failure_count (circuit_breaker (self s)) + Z.of_nat n)%Z /\
    ((0 < n)%nat ->
     _last_failure_time b' =
       Some (time_source (world s) (time_reads (world s) + n - 1))) /\
    ((0 < n)%nat ->
     (failure_threshold b' <= _failure_count b')%Z -> _state b' = OPEN).
Proof.
  revert s. induction n as [| n IH]; intros s.
  - exists (circuit_breaker (self s)). cbn.
    rewrite clock_read_0, set_breaker_same.
    repeat split; try lia; try reflexivity.
  - cbn [record_failures]. unfold bind at 1. rewrite on_failure_eq.
    match goal with
    | |- context [on_self (set_circuit_breaker ?b) (clock_read 1 s)] =>
        set (b1 := b); set (s1 := on_self (set_circuit_breaker b1) (clock_read 1 s))
    end.
    destruct (IH s1) as (b' & Hrun & Hthr & Htime & Hcount & Hlast & Hopen).
    exists b'. rewrite Hrun.
    assert (Hw : time_source (world s1) = time_source (world s)) by reflexivity.
    assert (Hr : time_reads (world s1) = (time_reads (world s) + 1)%nat)
      by reflexivity.
    split.
    { unfold s1. rewrite clock_read_on_self, set_breaker_twice, clock_read_add.
      reflexivity. }
    split; [exact Hthr |]. split; [exact Htime |].
    split; [rewrite Hcount; cbn; lia |].
    split.
    + intros _. destruct n as [| n].
      * apply (f_equal snd) in Hrun. cbn [record_failures ret snd] in Hrun.
        rewrite clock_read_0 in Hrun.
        apply (f_equal (fun x => _last_failure_time (circuit_breaker (self x))))
          in Hrun.
        cbn in Hrun. rewrite <- Hrun. do 2 f_equal. lia.
      * rewrite Hlast by lia. rewrite Hw, Hr. do 2 f_equal. lia.
    + intros _ Hge. destruct n as [| n].
      * apply (f_equal snd) in Hrun. cbn [record_failures ret snd] in Hrun.
        rewrite clock_read_0 in Hrun.
        assert (Hb : b' = b1).
        { apply (f_equal (fun x => circuit_breaker (self x))) in Hrun.
          cbn in Hrun. congruence. }
        subst b'. cbn in Hge |- *.
        destruct (Z.leb_spec (failure_threshold (circuit_breaker (self s)))
                    (_failure_count (circuit_breaker (self s)) + 1)); [reflexivity | lia].
      * apply Hopen; [lia | exact Hge].
Qed.

(** A call made to an OPEN breaker before [recovery_timeout] has elapsed is
    refused, whatever the wrapped operation: nothing but one reading of the
    clock happened. *)
Lemma call_refused {A} (func : M State A) (s : State) (t : Q) :
  _state (circuit_breaker (self s)) = OPEN ->
  _last_failure_time (circuit_breaker (self s)) = Some t ->
  (time_source (world s) (time_reads (world s)) - t
   < recovery_timeout (circuit_breaker (self s)))%Q ->
  call func s = (inl (Exception "Circuit breaker is open"), clock_read 1 s).
Proof.
  intros Hst Hl Hlt.
  unfold call, bind, _can_execute, get_breaker, gets, time_time. cbn.
  rewrite Hst. cbn. rewrite Hl.
  destruct (Qle_bool _ _) eqn:Hle.
  - apply Qle_bool_iff in Hle. lra.
  - cbn. rewrite Hst. reflexivity.
Qed.

Lemma run_calls_refused {A} (fs : list (M State A)) (s : State) (t : Q) :
  _state (circuit_breaker (self s)) = OPEN ->
  _last_failure_time (circuit_breaker (self s)) = Some t ->
  (forall k, (k < length fs)%nat ->
     (time_source (world s) (time_reads (world s) + k) - t
      < recovery_timeout (circuit_breaker (self s)))%Q) ->
  run_calls fs s =
    (map (fun _ => inl (Exception "Circuit breaker is open")) fs,
     clock_read (length fs) s).
Proof.
  revert s. induction fs as [| f fs IH]; intros s Hst Hl Hlt.
  - cbn. rewrite clock_read_0. reflexivity.
  - cbn [run_calls map length].
    rewrite (call_refused f s t Hst Hl).
    + cbn [fst snd]. rewrite IH.
      * cbn [fst snd]. rewrite clock_read_add. reflexivity.
      * exact Hst.
      * exact Hl.
      * intros k Hk. cbn.
        replace (time_reads (world s) + 1 + k)%nat
          with (time_reads (world s) + S k)%nat by lia.
        apply Hlt. cbn. lia.
    + specialize (Hlt 0%nat). rewrite Nat.add_0_r in Hlt. apply Hlt. cbn. lia.
Qed.

(** C1.  Take any breaker with a threshold [N >= 1] (and a counter that is not
    negative, as it is in every breaker that was built by the constructor).
    After [N] failures recorded in a row the breaker is OPEN, and every call
    then made at a clock reading less than [recovery_timeout] after the last
    failure is refused with [Exception("Circuit breaker is open")]: the
    outcome does not depend on the wrapped operation, and the state is the
    one before the calls but for the clock readings, so the wrapped
    operation was not run and no external call was made. *)
Theorem open_breaker_refuses_calls (A : Type) (s : State)
  (fs : list (M State A)) :
  let b := circuit_breaker (self s) in
  let n := Z.to_nat (failure_threshold b) in
  let r := time_reads (world s) in
  let s1 := snd (record_failures n s) in
  (1 <= failure_threshold b)%Z ->
  (0 <= _failure_count b)%Z ->
  (forall k, (k < length fs)%nat ->
     (time_source (world s) (r + n + k) - time_source (world s) (r + n - 1)
      < recovery_timeout b)%Q) ->
  _state (circuit_breaker (self s1)) = OPEN /\
  run_calls fs s1 =
    (map (fun _ => inl (Exception "Circuit breaker is open")) fs,
     clock_read (length fs) s1).
Proof.
  intros b n r s1 Hthr Hcount Hlt.
  destruct (record_failures_spec n s)
    as (b' & Hrun & Hthr' & Htime & Hcnt & Hlast & Hopen).
  assert (Hn : (0 < n)%nat) by (unfold n; lia).
  assert (Hs1 : s1 = on_self (set_circuit_breaker b') (clock_read n s))
    by (unfold s1; rewrite Hrun; reflexivity).
  assert (Hst : _state (circuit_breaker (self s1)) = OPEN).
  { rewrite Hs1. cbn. apply Hopen; [exact Hn |].
    rewrite Hthr', Hcnt. fold b. unfold n. lia. }
  split; [exact Hst |].
  apply run_calls_refused
    with (t := time_source (world s) (time_reads (world s) + n - 1)).
  - exact Hst.
  - rewrite Hs1. cbn. apply Hlast. exact Hn.
  - intros k Hk. rewrite Hs1. cbn. rewrite Htime. apply Hlt. exact Hk.
Qed.

(** The theorem at the manager with threshold 2 and timeout 60 s, the clock
    advancing one second per reading: two calls made 1 s and 2 s after the
    second failure are refused. *)
Lemma open_breaker_refuses_calls_witness :
  _state (circuit_breaker (self (snd (record_failures 2 quiet_state)))) = OPEN /\
  run_calls [ret 7%nat; extern (Heartbeat 0) ;;; ret 8%nat]
    (snd (record_failures 2 quiet_state)) =
    ([inl (Exception "Circuit breaker is open");
      inl (Exception "Circuit breaker is open")],
     clock_read 2 (snd (record_failures 2 quiet_state))).
Proof.
  apply (open_breaker_refuses_calls nat quiet_state
           [ret 7%nat; extern (Heartbeat 0) ;;; ret 8%nat]).
  - cbn. lia.
  - cbn. lia.
  - intros k Hk. cbn in Hk.
    destruct k as [| [| k]]; [vm_compute; reflexivity | vm_compute; reflexivity | lia].
Defined.

(** In HALF_OPEN the admission check admits and changes nothing. *)
Lemma can_execute_half_open (s : State) :
  _state (circuit_breaker (self s)) = HALF_OPEN ->
  _can_execute s = (inr true, s).
Proof.
  intros Hst. unfold _can_execute, bind, get_breaker, gets. cbn.
  rewrite Hst. reflexivity.
Qed.

(** In OPEN, once [recovery_timeout] has elapsed since the last failure, the
    admission check admits and moves the breaker to HALF_OPEN. *)
Lemma can_execute_open_elapsed (s : State) (t : Q) :
  _state (circuit_breaker (self s)) = OPEN ->
  _last_failure_time (circuit_breaker (self s)) = Some t ->
  (recovery_timeout (circuit_breaker (self s))
   <= time_source (world s) (time_reads (world s)) - t)%Q ->
  _can_execute s =
    (inr true,
     on_self (set_circuit_breaker (with_state HALF_OPEN (circuit_breaker (self s))))
       (clock_read 1 s)).
Proof.
  intros Hst Hl Hle. unfold _can_execute, bind, get_breaker, gets, time_time.
  cbn. rewrite Hst. cbn. rewrite Hl.
  apply Qle_bool_iff in Hle. rewrite Hle. reflexivity.
Qed.

(** The synchronous breaker, on the recording methods themselves: for a breaker in
    HALF_OPEN that satisfies the invariant, a recorded success closes it and
    zeroes the counter, and a recorded failure opens it again. *)
Lemma half_open_outcome_recorded (s : State) :
  breaker_inv (circuit_breaker (self s)) ->
  _state (circuit_breaker (self s)) = HALF_OPEN ->
  (_state (circuit_breaker (self (snd (_on_success s)))) = CLOSED /\
   _failure_count (circuit_breaker (self (snd (_on_success s)))) = 0%Z) /\
  _state (circuit_breaker (self (snd (_on_failure s)))) = OPEN.
Proof.
  intros [Hc Hs] Hst. split.
  - rewrite on_success_eq. cbn. split; reflexivity.
  - rewrite on_failure_eq. cbn.
    destruct Hs as [Hge _]; [congruence |].
    destruct (Z.leb_spec (failure_threshold (circuit_breaker (self s)))
                (_failure_count (circuit_breaker (self s)) + 1));
      [reflexivity | lia].
Qed.

(** The synchronous breaker, through [call]: when the wrapped operation leaves the
    breaker alone, a call issued in HALF_OPEN ends in CLOSED with counter 0
    if the operation returns, and in OPEN if it raises. *)
Lemma half_open_call_outcome {A} (func : M State A) (s : State) :
  breaker_inv (circuit_breaker (self s)) ->
  _state (circuit_breaker (self s)) = HALF_OPEN ->
  circuit_breaker (self (snd (func s))) = circuit_breaker (self s) ->
  let b' := circuit_breaker (self (snd (call func s))) in
  match fst (func s) with
  | inr a =>
      fst (call func s) = inr a /\ _state b' = CLOSED /\ _failure_count b' = 0%Z
  | inl e => fst (call func s) = inl e /\ _state b' = OPEN
  end.
Proof.
  intros Hinv Hst Hframe. unfold call, bind, try_except.
  rewrite (can_execute_half_open s Hst). cbn [negb].
  destruct (func s) as [[e | a] s'] eqn:Hf; cbn [fst snd] in *.
  - rewrite on_failure_eq. cbn. split; [reflexivity |].
    rewrite Hframe. destruct Hinv as [Hc Hs].
    destruct Hs as [Hge _]; [congruence |].
    destruct (Z.leb_spec (failure_threshold (circuit_breaker (self s)))
                (_failure_count (circuit_breaker (self s)) + 1));
      [reflexivity | lia].
  - rewrite on_success_eq. cbn. repeat split.
Qed.

(** ** The retry loop *)

Lemma time_time_keeps_retry : keeps retry_view time_time.
Proof. intros s. reflexivity. Qed.

Lemma extern_keeps_retry c : keeps retry_view (extern c).
Proof. intros s. reflexivity. Qed.

Lemma fresh_keeps_retry : keeps retry_view fresh.
Proof. intros s. reflexivity. Qed.

Lemma put_breaker_keeps_retry b : keeps retry_view (put_breaker b).
Proof. intros s. reflexivity. Qed.

Lemma put_connections_keeps_retry l : keeps retry_view (put_connections l).
Proof. intros s. reflexivity. Qed.

#[local] Hint Resolve time_time_keeps_retry extern_keeps_retry
  fresh_keeps_retry put_breaker_keeps_retry put_connections_keeps_retry : frame.

Lemma can_execute_keeps_retry : keeps retry_view _can_execute.
Proof. unfold _can_execute, get_breaker. frame. Qed.

Lemma on_success_keeps_retry : keeps retry_view _on_success.
Proof. intros s. reflexivity. Qed.

Lemma on_failure_keeps_retry : keeps retry_view _on_failure.
Proof. intros s. reflexivity. Qed.

#[local] Hint Resolve can_execute_keeps_retry on_success_keeps_retry
  on_failure_keeps_retry : frame.

Lemma call_keeps_retry {A} (func : M State A) :
  keeps retry_view func -> keeps retry_view (call func).
Proof. intros Hf. unfold call, get_breaker. frame. Qed.

Lemma p95_keeps_retry : keeps retry_view p95_response_time.
Proof.
  intros s. unfold p95_response_time.
  destruct (response_times (_metrics (self s))); reflexivity.
Qed.

#[local] Hint Resolve call_keeps_retry p95_keeps_retry : frame.

Lemma send_metrics_keeps_retry : keeps retry_view _send_metrics.
Proof. unfold _send_metrics. frame. Qed.

#[local] Hint Resolve send_metrics_keeps_retry : frame.

Lemma record_success_keeps_retry t : keeps retry_view (_record_success t).
Proof. unfold _record_success, get_self. frame. Qed.

Lemma record_failure_keeps_retry : keeps retry_view _record_failure.
Proof. unfold _record_failure, get_self. frame. Qed.

#[local] Hint Resolve record_success_keeps_retry record_failure_keeps_retry
  : frame.

Lemma send_metrics_returns (s : State) : fst (_send_metrics s) = inr tt.
Proof.
  unfold _send_metrics, try_except.
  match goal with |- context [match ?c s with _ => _ end] => destruct (c s) as [[e | []] s'] end;
    reflexivity.
Qed.

Lemma record_failure_returns (s : State) : fst (_record_failure s) = inr tt.
Proof.
  unfold _record_failure, bind, time_time, modify, get_self, gets. cbn.
  destruct (enable_monitoring _); [apply send_metrics_returns | reflexivity].
Qed.

Lemma record_success_returns t (s : State) : fst (_record_success t s) = inr tt.
Proof.
  unfold _record_success, bind, time_time, modify, get_self, gets. cbn.
  destruct (enable_monitoring _); [apply send_metrics_returns | reflexivity].
Qed.

(** A sleep of non-negative length is logged and returns. *)
Lemma time_sleep_eq (d : Q) (s : State) :
  (0 <= d)%Q ->
  time_sleep d s = (inr tt, on_world (fun w => set_slept (slept w ++ [d]) w) s).
Proof.
  intros Hd. unfold time_sleep. apply Qle_bool_iff in Hd. rewrite Hd.
  reflexivity.
Qed.

Lemma attempt_try_keeps_retry {A} (func : M State A) :
  keeps retry_view func -> keeps retry_view (attempt_try func).
Proof. intros Hf. unfold attempt_try. frame. Qed.

(** The [try] block never returns an exception as a value, and the exception
    it raises is the one [call] raised. *)
Lemma attempt_try_outcome {A} (func : M State A) (s : State) :
  match fst (attempt_try func s) with
  | inr (inl result) => fst (call func (clock_read 1 s)) = inr result
  | inr (inr _) => False
  | inl e => fst (call func (clock_read 1 s)) = inl e
  end.
Proof.
  unfold attempt_try, bind, time_time at 1. cbn [fst snd].
  destruct (call func (clock_read 1 s)) as [[e | result] s1]; cbn [fst];
    [reflexivity |].
  unfold time_time. cbn [fst snd].
  pose proof (record_success_returns
    (time_source (world s1) (time_reads (world s1)) -
     time_source (world s) (time_reads (world s)))%Q (clock_read 1 s1)) as H.
  destruct (_record_success _ _) as [[e | []] s2]; cbn in H |- *;
    [discriminate | reflexivity].
Qed.

(** One iteration of the retry loop, when the backoff factor is not negative:
    either the attempt returned and nothing was slept, or it failed with the
    exception [call] raised, and exactly [b ^ attempt] was slept if another
    attempt follows, nothing otherwise. *)
Lemma attempt_once_cases {A} (func : M State A) (attempt : nat) (s : State) :
  keeps retry_view func ->
  (0 <= retry_backoff_factor (self s))%Q ->
  let r := attempt_once func attempt s in
  let b := retry_backoff_factor (self s) in
  (exists result,
     fst r = inr (inl result) /\
     fst (call func (clock_read 1 s)) = inr result /\
     retry_view (snd r) = retry_view s) \/
  (exists e,
     fst r = inr (inr e) /\
     fst (call func (clock_read 1 s)) = inl e /\
     retry_view (snd r) =
       (slept (world s) ++
        (if (Z.of_nat attempt <? retry_attempts (self s) - 1)%Z
         then [(b ^ Z.of_nat attempt)%Q] else []),
        retry_attempts (self s), b)).
Proof.
  intros Hf Hb r b. subst r.
  unfold attempt_once.
  unfold try_except.
  pose proof (attempt_try_keeps_retry func Hf s) as Hk.
  pose proof (attempt_try_outcome func s) as Ho.
  destruct (attempt_try func s) as [[e | [result | e]] s1]; cbn [fst snd] in *.
  - right. exists e. unfold attempt_except, bind, get_self, gets.
    pose proof (record_failure_returns s1) as Hr.
    pose proof (record_failure_keeps_retry s1) as Hk2.
    destruct (_record_failure s1) as [[e' | []] s2]; cbn [fst snd] in *;
      [discriminate |].
    assert (Hv : retry_view s2 = retry_view s) by congruence.
    unfold retry_view in Hv. injection Hv as Hsl Hra Hbf.
    rewrite Hra, Hbf.
    destruct (Z.of_nat attempt <? retry_attempts (self s) - 1)%Z.
    + rewrite time_sleep_eq by (apply Qpower_0_le; exact Hb).
      cbn. unfold retry_view. cbn. rewrite Hsl, Hra, Hbf. auto.
    + cbn. unfold retry_view. rewrite Hsl, Hra, Hbf, app_nil_r. auto.
  - left. exists result. auto.
  - destruct Ho.
Qed.

Lemma retry_from_S {A} (func : M State A) (n i : nat) (last : option exn) :
  retry_from func (S n) i last =
  (let* r := attempt_once func i in
   match r with
   | inl result => ret result
   | inr e => retry_from func n (S i) (Some e)
   end).
Proof. reflexivity. Qed.

(** ** The connection pool *)

Lemma claim_available_spec h p idle (conns : list Connection) (s : State) :
  exists n found l,
    claim_available h p idle conns s = (inr (found, l), clock_read n s) /\
    length l = length conns /\
    (n <= 2 * length conns)%nat.
Proof.
  revert s. induction conns as [| c rest IH]; intros s.
  - exists 0%nat, None, []. cbn. rewrite clock_read_0. auto.
  - cbn [claim_available].
    destruct (String.eqb (host c) h && (port c =? p)%Z && negb (in_use c)).
    + unfold bind, time_time. cbn [fst snd].
      destruct (Qlt_bool _ idle).
      * exists 2%nat, (Some (client c)), (touch true
            (time_source (world (clock_read 1 s))
               (time_reads (world (clock_read 1 s)))) c :: rest).
        cbn [fst snd]. rewrite clock_read_add. cbn. split; [reflexivity |].
        split; lia.
      * destruct (IH (clock_read 1 s)) as (n & found & l & Hrun & Hlen & Hn).
        rewrite Hrun. exists (1 + n)%nat, found, (c :: l).
        cbn [fst snd ret]. rewrite clock_read_add. cbn. split; [reflexivity |].
        split; lia.
    + unfold bind. destruct (IH s) as (n & found & l & Hrun & Hlen & Hn).
      rewrite Hrun. exists n, found, (c :: l). cbn. split; [reflexivity |].
      split; lia.
Qed.

Lemma clock_read_pool_inv limit n (s : State) :
  pool_inv limit s -> pool_inv limit (clock_read n s).
Proof. intros H. exact H. Qed.

Lemma put_connections_pool_inv limit l (s : State) :
  max_connections (connection_pool (self s)) = limit ->
  (Z.of_nat (length l) <= limit)%Z ->
  pool_inv limit (snd (put_connections l s)).
Proof. intros Hm Hl. split; cbn; assumption. Qed.

Lemma get_connection_pool_inv limit h p :
  maintains (pool_inv limit) (get_connection h p).
Proof.
  intros s [Hm Hl]. unfold get_connection, bind, get_pool, gets. cbn [fst snd].
  destruct (claim_available_spec h p
              (max_idle_time (connection_pool (self s)))
              (_connections (connection_pool (self s))) s)
    as (n & found & l & Hrun & Hlen & _).
  rewrite Hrun. cbn [fst snd]. destruct found as [c |].
  - cbn. split; cbn; [exact Hm | rewrite Hlen; exact Hl].
  - destruct (Z.ltb_spec
                (Z.of_nat (length (_connections (connection_pool (self s)))))
                (max_connections (connection_pool (self s)))) as [Hlt | Hge].
    + unfold extern. cbn [fst snd].
      destruct (ext_source _ _ _) as [e | v]; cbn.
      * split; cbn; assumption.
      * split; cbn; [exact Hm |]. rewrite length_app. cbn. lia.
    + cbn. split; assumption.
Qed.

Lemma release_first_length c now (l : list Connection) :
  length (release_first c now l) = length l.
Proof.
  induction l as [| x rest IH]; [reflexivity |]. cbn.
  destruct (Nat.eqb (client x) c); cbn; [reflexivity | rewrite IH; reflexivity].
Qed.

Lemma release_connection_pool_inv limit c :
  maintains (pool_inv limit) (release_connection c).
Proof.
  intros s [Hm Hl]. unfold release_connection, bind, get_pool, gets.
  cbn [fst snd]. destruct (existsb _ _); [| split; assumption].
  cbn. split; cbn; [exact Hm | rewrite release_first_length; exact Hl].
Qed.

Lemma list_remove_length x (l l' : list Connection) :
  list_remove x l = Some l' -> S (length l') = length l.
Proof.
  revert l'. induction l as [| y rest IH]; intros l' H; [discriminate |].
  cbn in H. destruct (conn_eqb y x).
  - injection H as <-. reflexivity.
  - destruct (list_remove x rest) as [r |]; [| discriminate].
    injection H as <-. cbn. rewrite (IH r); reflexivity.
Qed.

Lemma health_check_each_pool_inv limit (snapshot : list Connection) :
  maintains (pool_inv limit) (health_check_each snapshot).
Proof.
  induction snapshot as [| conn rest IH]; [apply MFacts.maintains_ret |].
  cbn [health_check_each]. apply MFacts.maintains_bind; [| intros _; exact IH].
  apply MFacts.maintains_try_except.
  - destruct (negb (in_use conn)); [| apply MFacts.maintains_ret].
    apply MFacts.maintains_bind; [| intros; apply MFacts.maintains_ret].
    intros s H. exact H.
  - intros _ s [Hm Hl]. unfold bind, get_pool, gets. cbn [fst snd].
    destruct (list_remove conn _) as [l |] eqn:Hrm; [| split; assumption].
    apply list_remove_length in Hrm.
    split; cbn; [exact Hm | lia].
Qed.

Lemma run_pool_op_pool_inv limit op : maintains (pool_inv limit) (run_pool_op op).
Proof.
  destruct op as [h p | c |]; cbn [run_pool_op].
  - apply MFacts.maintains_bind;
      [apply get_connection_pool_inv | intros; apply MFacts.maintains_ret].
  - apply release_connection_pool_inv.
  - unfold _health_check_connections. apply MFacts.maintains_bind.
    + apply MFacts.maintains_gets.
    + intros pool. apply health_check_each_pool_inv.
Qed.

Lemma run_pool_ops_pool_inv limit ops (s : State) :
  pool_inv limit s -> pool_inv limit (run_pool_ops ops s).
Proof.
  revert s. induction ops as [| op rest IH]; intros s H; [exact H |].
  cbn. apply IH. apply run_pool_op_pool_inv. exact H.
Qed.

(** No entry is claimed when every entry of the right host and port that is
    free has been idle for [idle] or more at every later clock reading. *)
Lemma claim_available_none h p idle (conns : list Connection) (s : State) :
  (forall c, In c conns ->
     host c = h -> port c = p -> in_use c = false ->
     forall k, (time_reads (world s) <= k)%nat ->
       (idle <= time_source (world s) k - last_used c)%Q) ->
  exists n,
    claim_available h p idle conns s = (inr (None, conns), clock_read n s).
Proof.
  revert s. induction conns as [| c rest IH]; intros s Hexp.
  - exists 0%nat. cbn. rewrite clock_read_0. reflexivity.
  - cbn [claim_available].
    destruct (String.eqb (host c) h && (port c =? p)%Z && negb (in_use c))
      eqn:Hmatch.
    + apply andb_true_iff in Hmatch as [Hmatch Hfree].
      apply andb_true_iff in Hmatch as [Hh Hp].
      apply String.eqb_eq in Hh. apply Z.eqb_eq in Hp.
      apply negb_true_iff in Hfree.
      unfold bind, time_time. cbn [fst snd].
      assert (Hold : Qlt_bool
                (time_source (world s) (time_reads (world s)) - last_used c)
                idle = false).
      { unfold Qlt_bool. apply negb_false_iff. apply Qle_bool_iff.
        apply (Hexp c); auto. left. reflexivity. }
      rewrite Hold.
      destruct (IH (clock_read 1 s)) as (n & Hrun).
      { intros c' Hin Hh' Hp' Hf' k Hk. apply (Hexp c'); auto.
        - right. exact Hin.
        - cbn in Hk. lia. }
      rewrite Hrun. exists (1 + n)%nat. cbn [fst snd ret].
      rewrite clock_read_add. reflexivity.
    + unfold bind. destruct (IH s) as (n & Hrun).
      { intros c' Hin. apply Hexp. right. exact Hin. }
      rewrite Hrun. exists n. reflexivity.
Qed.

(** At capacity with nothing to claim, [get_connection] raises
    [Exception("Connection pool exhausted")]: only the clock was read, so no
    client was created and the pool is as it was. *)
Lemma get_connection_exhausted h p (s : State) :
  (max_connections (connection_pool (self s))
   <= Z.of_nat (length (_connections (connection_pool (self s)))))%Z ->
  (forall c, In c (_connections (connection_pool (self s))) ->
     host c = h -> port c = p -> in_use c = false ->
     forall k, (time_reads (world s) <= k)%nat ->
       (max_idle_time (connection_pool (self s))
        <= time_source (world s) k - last_used c)%Q) ->
  exists n,
    get_connection h p s =
      (inl (Exception "Connection pool exhausted"), clock_read n s).
Proof.
  intros Hfull Hexp. unfold get_connection, bind, get_pool, gets.
  cbn [fst snd].
  destruct (claim_available_none h p _ _ s Hexp) as (n & Hrun).
  rewrite Hrun. cbn [fst snd].
  destruct (Z.ltb_spec
              (Z.of_nat (length (_connections (connection_pool (self s)))))
              (max_connections (connection_pool (self s)))); [lia |].
  exists n. reflexivity.
Qed.

(** C3.  Start from a pool that holds no connection and has a limit
    [max_connections >= 0], and run any sequence of acquisitions, releases
    and health-check rounds.  In the state reached, the number of connections
    marked in use is at most [max_connections]; and if the pool is then at
    capacity while every free entry of the requested host and port is idle
    for [max_idle_time] or more, [get_connection] raises
    [Exception("Connection pool exhausted")] and changes nothing but the
    number of clock readings: no connection is created. *)
Theorem pool_in_use_bounded (s : State) (ops : list pool_op) :
  let limit := max_connections (connection_pool (self s)) in
  let s' := run_pool_ops ops s in
  (0 <= limit)%Z ->
  _connections (connection_pool (self s)) = [] ->
  (Z.of_nat (active_connections (connection_pool (self s'))) <= limit)%Z /\
  forall h p,
    (limit <= Z.of_nat (length (_connections (connection_pool (self s')))))%Z ->
    (forall c, In c (_connections (connection_pool (self s'))) ->
       host c = h -> port c = p -> in_use c = false ->
       forall k, (time_reads (world s') <= k)%nat ->
         (max_idle_time (connection_pool (self s'))
          <= time_source (world s') k - last_used c)%Q) ->
    exists n,
      get_connection h p s' =
        (inl (Exception "Connection pool exhausted"), clock_read n s').
Proof.
  intros limit s' Hlimit Hempty.
  assert (Hinv : pool_inv limit s').
  { apply run_pool_ops_pool_inv. split; [reflexivity |].
    rewrite Hempty. cbn. exact Hlimit. }
  destruct Hinv as [Hm Hl]. split.
  - unfold active_connections.
    pose proof (filter_length_le in_use
                  (_connections (connection_pool (self s')))). lia.
  - intros h p Hfull Hexp. apply get_connection_exhausted.
    + rewrite Hm. exact Hfull.
    + exact Hexp.
Qed.

(** The theorem at the pool of two connections after three acquisitions:
    both entries are in use, and a fourth acquisition is refused. *)
Lemma pool_in_use_bounded_witness :
  (Z.of_nat (active_connections
     (connection_pool (self (run_pool_ops fill_pool quiet_state)))) <= 2)%Z /\
  exists n,
    get_connection "localhost" 8000 (run_pool_ops fill_pool quiet_state) =
      (inl (Exception "Connection pool exhausted"),
       clock_read n (run_pool_ops fill_pool quiet_state)).
Proof.
  assert (H0 : (0 <= max_connections (connection_pool (self quiet_state)))%Z)
    by (cbn; lia).
  assert (H1 : _connections (connection_pool (self quiet_state)) = [])
    by reflexivity.
  destruct (pool_in_use_bounded quiet_state fill_pool H0 H1) as [Hb He].
  split; [exact Hb |].
  apply (He "localhost" 8000%Z).
  - vm_compute. discriminate.
  - intros c Hin _ _ Hfree. exfalso.
    cbn in Hin. destruct Hin as [<- | [<- | []]]; discriminate Hfree.
Defined.

(** ** The retry loop and the breaker together *)

(** C2, on the synchronous executor.  The breaker of the manager with
    threshold 2 is OPEN after two failures.  A call through
    [_retry_with_backoff], three attempts allowed, is then refused three
    times: the refusal is caught like any failure, recorded as a failed
    request at each attempt, followed by the backoff sleeps of 1 s and 2 s,
    and raised only after the last attempt.  The wrapped operation is never
    run and no external call is made. *)
Theorem refusal_is_retried_with_backoff (A : Type) (func : M State A) :
  let s := snd (record_failures 2 quiet_state) in
  let r := _retry_with_backoff func s in
  _state (circuit_breaker (self s)) = OPEN /\
  fst r = inl (Exception "Circuit breaker is open") /\
  slept (world (snd r)) = [1%Q; 2%Q] /\
  failed_requests (_metrics (self (snd r))) = 3%Z /\
  ext_log (world (snd r)) = [].
Proof. cbv zeta. vm_compute. repeat split. Qed.

Lemma can_execute_outcome (s : State) :
  match fst (_can_execute s) with
  | inl e =>
      e = TypeError "unsupported operand type(s) for -: 'float' and 'NoneType'"
  | inr true => True
  | inr false => _state (circuit_breaker (self (snd (_can_execute s)))) = OPEN
  end.
Proof.
  unfold _can_execute, bind, get_breaker, gets, time_time. cbn [fst snd].
  destruct (_state (circuit_breaker (self s))) eqn:Hst; cbn; auto.
  destruct (_last_failure_time (circuit_breaker (self s))) as [t |]; cbn; auto.
  destruct (Qle_bool _ _); cbn; auto.
Qed.

Lemma guarded_raises {A} (func : M State A) (s : State) (e : exn) :
  fst (try_except (let* result := func in _on_success ;;; ret result)
         (fun e => _on_failure ;;; raise e) s) = inl e ->
  fst (func s) = inl e.
Proof.
  unfold try_except, bind. destruct (func s) as [[e' | a] s1].
  - rewrite on_failure_eq. cbn. auto.
  - rewrite on_success_eq. cbn. discriminate.
Qed.

(** The exception a call through the breaker raises is the breaker's own
    refusal, the [TypeError] of an admission check without a failure time, or
    the very exception the wrapped operation raised. *)
Lemma call_raises_unchanged {A} (func : M State A) (s : State) (e : exn) :
  fst (call func s) = inl e ->
  e = Exception "Circuit breaker is open" \/
  e = TypeError "unsupported operand type(s) for -: 'float' and 'NoneType'" \/
  exists s', fst (func s') = inl e.
Proof.
  unfold call, bind. pose proof (can_execute_outcome s) as Hc.
  destruct (_can_execute s) as [[e0 | [|]] s1]; cbn [fst snd negb] in *.
  - intros [= <-]. right. left. exact Hc.
  - intros H. right. right. exists s1. apply guarded_raises. exact H.
  - unfold get_breaker, gets. cbn. rewrite Hc. cbn. intros [= <-]. left.
    reflexivity.
Qed.

(** ** The facade *)




(** ** The health check *)

Lemma release_connection_returns c (s : State) :
  fst (release_connection c s) = inr tt.
Proof.
  unfold release_connection, bind, get_pool, gets. cbn [fst snd].
  destruct (existsb _ _); reflexivity.
Qed.

(** What the [try] block returns is a dict whose status is healthy. *)
Lemma health_check_try_healthy (s : State) (v : pyval) :
  fst (health_check_try s) = inr v -> status_of v = Some (PyStr "healthy").
Proof.
  unfold health_check_try, with_connection. intros H.
  apply bind_returns in H as (m & _ & H).
  apply bind_returns in H as (c & _ & H).
  apply try_finally_returns in H.
  repeat (apply bind_returns in H; destruct H as (? & _ & H)).
  cbn in H. injection H as <-. reflexivity.
Qed.

(** The health check returns the healthy dict of its [try] block, and when
    the block raises [e], the unhealthy dict that carries [str(e)]. *)
Lemma sync_health_check_result (s : State) :
  match fst (health_check_try s) with
  | inl e =>
      fst (health_check s) =
        inr (unhealthy e (circuit_breaker (self (snd (health_check_try s)))))
  | inr v =>
      fst (health_check s) = inr v /\ status_of v = Some (PyStr "healthy")
  end.
Proof.
  pose proof (health_check_try_healthy s) as Hh.
  unfold health_check. rewrite try_except_fst.
  destruct (health_check_try s) as [[e | v] s1]; cbn [fst snd] in *.
  - reflexivity.
  - split; [reflexivity | apply Hh; reflexivity].
Qed.

(** When a connection is acquired and the heartbeat raises [e], the health
    check returns the unhealthy dict for [e]. *)
Lemma sync_heartbeat_raises (s s1 : State) (c : nat) (e : exn) :
  get_connection (chroma_host (self s)) (chroma_port (self s)) s
    = (inr c, s1) ->
  ext_source (world s1) (length (ext_log (world s1))) (Heartbeat c) = inl e ->
  exists b, fst (health_check s) = inr (unhealthy e b).
Proof.
  intros Hget Hbeat. unfold health_check. rewrite try_except_fst.
  unfold health_check_try, with_connection, bind at 1, get_self, gets.
  cbn [fst snd]. unfold bind at 1. rewrite Hget. unfold try_finally.
  unfold bind at 1, time_time. cbn [fst snd].
  unfold bind at 1, extern. cbn [fst snd world clock_read on_world
    set_time_reads ext_source ext_log]. rewrite Hbeat.
  match goal with |- context [release_connection c ?x] =>
    pose proof (release_connection_returns c x) as Hr;
    destruct (release_connection c x) as [[e' | []] s3] end;
    cbn in Hr; [discriminate |].
  cbn. eexists. reflexivity.
Qed.

End SyncFacts.

(** * Properties of the asynchronous manager *)

Module AsyncFacts.

Import Async MFacts.

(** ** The circuit breaker *)

Lemma record_failure_task_eq (s : State) :
  _record_failure s =
  (inr tt,
   on_pool (set_breaker
     {| threshold := threshold (_circuit_breaker (pool s));
        timeout := timeout (_circuit_breaker (pool s));
        state :=
          if (threshold (_circuit_breaker (pool s))
              <=? failure_count (_circuit_breaker (pool s)) + 1)%Z
          then OPEN else state (_circuit_breaker (pool s));
        failure_count := (failure_count (_circuit_breaker (pool s)) + 1)%Z;
        last_failure_time := time_source (world s) (time_reads (world s)) |})
     (clock_read 1 s)).
Proof. reflexivity. Qed.

Lemma record_success_task_eq (s : State) :
  _record_success s =
  (inr tt,
   on_pool (set_breaker
     {| threshold := threshold (_circuit_breaker (pool s));
        timeout := timeout (_circuit_breaker (pool s));
        state :=
          match state (_circuit_breaker (pool s)) with
          | HALF_OPEN => CLOSED
          | st => st
          end;
        failure_count := 0;
        last_failure_time := last_failure_time (_circuit_breaker (pool s)) |})
     s).
Proof. reflexivity. Qed.

(** In HALF_OPEN a recorded success closes the breaker and zeroes the
    counter. *)
Lemma half_open_success_closes (s : State) :
  state (_circuit_breaker (pool s)) = HALF_OPEN ->
  state (_circuit_breaker (pool (snd (_record_success s)))) = CLOSED /\
  failure_count (_circuit_breaker (pool (snd (_record_success s)))) = 0%Z.
Proof. intros H. rewrite record_success_task_eq. cbn. rewrite H. auto. Qed.

(** In HALF_OPEN a recorded failure opens the breaker only if it brings the
    counter to the threshold; below it the breaker stays in HALF_OPEN. *)
Lemma half_open_failure (s : State) :
  state (_circuit_breaker (pool s)) = HALF_OPEN ->
  state (_circuit_breaker (pool (snd (_record_failure s)))) =
  if (threshold (_circuit_breaker (pool s))
      <=? failure_count (_circuit_breaker (pool s)) + 1)%Z
  then OPEN else HALF_OPEN.
Proof. intros H. rewrite record_failure_task_eq. cbn. rewrite H. reflexivity. Qed.

(** A success recorded while the breaker is OPEN zeroes the counter and
    leaves the breaker OPEN. *)
Lemma open_success_keeps_open (s : State) :
  state (_circuit_breaker (pool s)) = OPEN ->
  state (_circuit_breaker (pool (snd (_record_success s)))) = OPEN /\
  failure_count (_circuit_breaker (pool (snd (_record_success s)))) = 0%Z.
Proof. intros H. rewrite record_success_task_eq. cbn. rewrite H. auto. Qed.

(** C4, on the asynchronous breaker with the default settings (threshold 5,
    three attempts).  Two requests bring the breaker to OPEN with its counter
    back at 0: the fifth failure opens it, and the success of the same
    request zeroes the counter without closing it.  The next request, made
    after the timeout, is admitted in HALF_OPEN; its three attempts fail,
    the request raises, and once the three failures are recorded the breaker
    is still in HALF_OPEN, with counter 3: it was not moved to OPEN. *)
Theorem failed_trial_leaves_half_open :
  state (_circuit_breaker (pool after_two_requests)) = OPEN /\
  failure_count (_circuit_breaker (pool after_two_requests)) = 0%Z /\
  state (_circuit_breaker (pool (snd (_check_state after_two_requests))))
    = HALF_OPEN /\
  fst (get "/collections" after_two_requests) = inl refused /\
  pending after_failed_trial = [] /\
  state (_circuit_breaker (pool after_failed_trial)) = HALF_OPEN /\
  failure_count (_circuit_breaker (pool after_failed_trial)) = 3%Z.
Proof. vm_compute. repeat split. Qed.

(** The admission check lets a call through, and changes nothing, when the
    breaker is not OPEN: in CLOSED and in HALF_OPEN alike. *)
Lemma check_state_not_open (s : State) :
  state (_circuit_breaker (pool s)) <> OPEN ->
  _check_state s = (inr tt, s).
Proof.
  intros H. unfold _check_state, bind, get_breaker, gets. cbn.
  destruct (state (_circuit_breaker (pool s)));
    [reflexivity | congruence | reflexivity].
Qed.

(** In OPEN, once more than [timeout] has elapsed since the last failure,
    the check moves the breaker to HALF_OPEN and lets the call through. *)
Lemma check_state_elapsed (s : State) :
  state (_circuit_breaker (pool s)) = OPEN ->
  (timeout (_circuit_breaker (pool s))
   < time_source (world s) (time_reads (world s))
     - last_failure_time (_circuit_breaker (pool s)))%Q ->
  _check_state s =
    (inr tt,
     on_pool (set_breaker (with_state HALF_OPEN (_circuit_breaker (pool s))))
       (clock_read 1 s)).
Proof.
  intros Hst Hlt. unfold _check_state, bind, get_breaker, gets, time_time.
  cbn. rewrite Hst. cbn. unfold Qlt_bool.
  destruct (Qle_bool _ _) eqn:Hle; [| reflexivity].
  apply Qle_bool_iff in Hle. lra.
Qed.

(** In OPEN, until then, the check raises. *)
Lemma check_state_refused (s : State) :
  state (_circuit_breaker (pool s)) = OPEN ->
  (time_source (world s) (time_reads (world s))
   - last_failure_time (_circuit_breaker (pool s))
   <= timeout (_circuit_breaker (pool s)))%Q ->
  _check_state s = (inl (Exception "Circuit breaker is OPEN"), clock_read 1 s).
Proof.
  intros Hst Hle. unfold _check_state, bind, get_breaker, gets, time_time.
  cbn. rewrite Hst. cbn. unfold Qlt_bool.
  apply Qle_bool_iff in Hle. rewrite Hle. reflexivity.
Qed.

(** A request made while the breaker refuses raises at once: no request is
    sent, nothing is slept, no attempt is made. *)
Lemma request_refused method endpoint json (s : State) :
  state (_circuit_breaker (pool s)) = OPEN ->
  (time_source (world s) (time_reads (world s))
   - last_failure_time (_circuit_breaker (pool s))
   <= timeout (_circuit_breaker (pool s)))%Q ->
  request method endpoint json s =
    (inl (Exception "Circuit breaker is OPEN"), clock_read 1 s).
Proof.
  intros Hst Hle. unfold request, bind, gets. cbn [fst snd].
  rewrite (check_state_refused s Hst Hle). reflexivity.
Qed.

(** ** The retry loop of [request] *)

Lemma async_time_time_keeps_retry : keeps retry_view time_time.
Proof. intros s. reflexivity. Qed.

Lemma async_put_breaker_keeps_retry b : keeps retry_view (put_breaker b).
Proof. intros s. reflexivity. Qed.

#[local] Hint Resolve async_time_time_keeps_retry async_put_breaker_keeps_retry : frame.

Lemma run_recordings_keeps_retry l : keeps retry_view (run_recordings l).
Proof.
  induction l as [| r rest IH]; cbn [run_recordings]; [frame |].
  apply keeps_bind; [| intros _; exact IH].
  destruct r; intros s; reflexivity.
Qed.

#[local] Hint Resolve run_recordings_keeps_retry : frame.

Lemma run_pending_keeps_retry : keeps retry_view run_pending.
Proof. unfold run_pending. frame. Qed.

Lemma ensure_session_keeps_retry : keeps retry_view _ensure_session.
Proof. unfold _ensure_session. frame. Qed.

Lemma async_record_failure_keeps_retry : keeps retry_view record_failure.
Proof. intros s. reflexivity. Qed.

Lemma async_record_success_keeps_retry : keeps retry_view record_success.
Proof. intros s. reflexivity. Qed.

#[local] Hint Resolve run_pending_keeps_retry ensure_session_keeps_retry
  async_record_failure_keeps_retry async_record_success_keeps_retry : frame.

Lemma http_exchange_keeps_retry r : keeps retry_view (http_exchange r).
Proof.
  unfold http_exchange. apply keeps_bind; [frame | intros n].
  apply keeps_bind; [intros s; reflexivity | intros _].
  apply keeps_bind; [frame | intros _]. intros s. reflexivity.
Qed.

#[local] Hint Resolve http_exchange_keeps_retry : frame.

Lemma request_try_keeps_retry r : keeps retry_view (request_try r).
Proof. unfold request_try. frame. Qed.

(** The event loop's turn always comes to an end. *)
Lemma run_pending_returns (s : State) : exists s', run_pending s = (inr tt, s').
Proof.
  unfold run_pending, bind, gets, modify. cbn [fst snd].
  generalize (set_pending [] s). generalize (pending s).
  intros l. induction l as [| x rest IH]; intros s0.
  - exists s0. reflexivity.
  - cbn [run_recordings]. unfold bind.
    destruct x; cbn [run_recording].
    + rewrite record_success_task_eq. apply IH.
    + rewrite record_failure_task_eq. apply IH.
    + unfold _record_stale, bind, time_time. cbn [fst snd]. apply IH.
Qed.

(** The answer to an exchange is the oracle's, at the number of requests
    sent before. *)
Lemma http_exchange_answer r (s : State) :
  fst (http_exchange r s) =
  http_source (world s) (length (http_log (world s))) r.
Proof.
  unfold http_exchange, bind, gets, modify. cbn [fst snd].
  match goal with |- context [run_pending ?x] => set (s1 := x) end.
  pose proof (run_pending_keeps_retry s1) as Hk.
  destruct (run_pending_returns s1) as (s2 & Hrun).
  rewrite Hrun in *. cbn [fst snd] in *.
  unfold retry_view in Hk. injection Hk as _ _ Hsrc. rewrite Hsrc.
  reflexivity.
Qed.

(** When the service makes every attempt fail, the [try] block raises. *)
Lemma request_try_fails r (s : State) :
  (forall n r', failed_answer (http_source (world s) n r') = true) ->
  raised (fst (request_try r s)) = true.
Proof.
  intros Hfail. unfold request_try, bind.
  assert (He : exists s1, _ensure_session s = (inr tt, s1) /\ world s1 = world s).
  { unfold _ensure_session, bind, gets, modify. cbn [fst snd].
    destruct (session (pool s)); eexists; split; reflexivity. }
  destruct He as (s1 & He & Hw). rewrite He.
  pose proof (http_exchange_answer r s1) as Ha. rewrite Hw in Ha.
  specialize (Hfail (length (http_log (world s))) r). rewrite <- Ha in Hfail.
  destruct (http_exchange r s1) as [[e | [status body]] s2];
    cbn [fst snd] in *; [reflexivity |].
  unfold gets. cbn [fst snd]. cbn in Hfail.
  destruct (400 <=? status)%Z; cbn in Hfail |- *; [reflexivity |].
  destruct body as [e | data]; cbn in Hfail; [reflexivity | discriminate Hfail].
Qed.

(** The [except] block after attempt [attempt]: after the last attempt it
    raises the exception it caught; otherwise it returns after a sleep of
    [retry_delay * 2 ^ attempt]. *)
Lemma request_except_cases attempt e (s : State) :
  let c := config (pool s) in
  if (Z.of_nat attempt =? retry_attempts c - 1)%Z
  then
    fst (request_except attempt e s) = inl e /\
    retry_view (snd (request_except attempt e s)) = retry_view s
  else
    fst (request_except attempt e s) = inr tt /\
    retry_view (snd (request_except attempt e s)) =
      (slept (world s) ++ [(retry_delay c * 2 ^ Z.of_nat attempt)%Q],
       c, http_source (world s)).
Proof.
  intros c. unfold request_except, bind, record_failure, modify, gets.
  cbn [fst snd pool set_pending]. fold c.
  destruct (Z.of_nat attempt =? retry_attempts c - 1)%Z.
  - split; reflexivity.
  - unfold asyncio_sleep, bind, modify. cbn [fst snd].
    match goal with |- context [run_pending ?x] => set (s1 := x) end.
    pose proof (run_pending_keeps_retry s1) as Hk.
    destruct (run_pending_returns s1) as (s2 & Hrun).
    rewrite Hrun in *. cbn [fst snd] in *. split; [reflexivity |].
    rewrite Hk. reflexivity.
Qed.

Lemma request_from_S r (n attempt : nat) :
  request_from r (S n) attempt =
  (let* outcome :=
     try_except
       (let* data := request_try r in ret (Some data))
       (fun e => request_except attempt e ;;; ret None) in
   match outcome with
   | Some data => ret data
   | None => request_from r n (S attempt)
   end).
Proof. reflexivity. Qed.

(** The loop from attempt [i] on, when every attempt fails: it raises, after
    sleeping [d * 2^i], ..., [d * 2^(R-2)]. *)
Lemma request_from_all_fail r :
  forall (n i : nat) (s : State),
    (forall k r', failed_answer (http_source (world s) k r') = true) ->
    Z.of_nat (i + S n) = retry_attempts (config (pool s)) ->
    raised (fst (request_from r (S n) i s)) = true /\
    retry_view (snd (request_from r (S n) i s)) =
      (slept (world s) ++
       map (fun k => (retry_delay (config (pool s)) * 2 ^ Z.of_nat k)%Q)
         (seq i n),
       config (pool s), http_source (world s)).
Proof.
  intros n. induction n as [| n IH]; intros i s Hfail HR.
  - rewrite request_from_S. unfold bind, try_except.
    pose proof (request_try_fails r s Hfail) as Hr.
    pose proof (request_try_keeps_retry r s) as Hk.
    destruct (request_try r s) as [[e | data] s1]; cbn [fst snd] in *;
      [| discriminate].
    pose proof (request_except_cases i e s1) as Hc. cbv zeta in Hc.
    unfold retry_view in Hk. injection Hk as Hsl Hcfg Hsrc.
    rewrite Hcfg in Hc.
    destruct (Z.eqb_spec (Z.of_nat i) (retry_attempts (config (pool s)) - 1));
      [| lia].
    destruct Hc as [Hc1 Hc2].
    destruct (request_except i e s1) as [[e' | []] s2]; cbn [fst snd] in *;
      [| discriminate].
    split; [reflexivity |]. rewrite Hc2. unfold retry_view.
    rewrite Hsl, Hcfg, Hsrc. cbn. rewrite app_nil_r. reflexivity.
  - rewrite request_from_S. unfold bind, try_except.
    pose proof (request_try_fails r s Hfail) as Hr.
    pose proof (request_try_keeps_retry r s) as Hk.
    destruct (request_try r s) as [[e | data] s1]; cbn [fst snd] in *;
      [| discriminate].
    pose proof (request_except_cases i e s1) as Hc. cbv zeta in Hc.
    unfold retry_view in Hk. injection Hk as Hsl Hcfg Hsrc.
    rewrite Hcfg in Hc.
    destruct (Z.eqb_spec (Z.of_nat i) (retry_attempts (config (pool s)) - 1));
      [lia |].
    destruct Hc as [Hc1 Hc2].
    destruct (request_except i e s1) as [[e' | []] s2]; cbn [fst snd] in *;
      [discriminate |].
    unfold retry_view in Hc2. injection Hc2 as Hsl2 Hcfg2 Hsrc2.
    specialize (IH (S i) s2). rewrite Hsl2, Hcfg2, Hsrc2, Hsl, Hsrc in IH.
    destruct IH as [IH1 IH2]; [exact Hfail | lia |].
    cbn [ret fst snd].
    split; [exact IH1 |]. rewrite IH2. rewrite <- app_assoc. reflexivity.
Qed.

(** The asynchronous executor has [retry_attempts] [R] and
    [retry_delay] [d]; the factor is the constant 2.  When the breaker admits
    the request and every attempt fails, [request] raises after having slept
    exactly [d * 2^0], [d * 2^1], ..., [d * 2^(R-2)]. *)
Lemma async_backoff_delays method endpoint json (s : State) :
  state (_circuit_breaker (pool s)) <> OPEN ->
  (forall k r, failed_answer (http_source (world s) k r) = true) ->
  (1 <= retry_attempts (config (pool s)))%Z ->
  raised (fst (request method endpoint json s)) = true /\
  slept (world (snd (request method endpoint json s))) =
    slept (world s) ++
    backoff_delays (retry_delay (config (pool s)))
      (Z.to_nat (retry_attempts (config (pool s))) - 1).
Proof.
  intros Hst Hfail HR. unfold request, bind, gets. cbn [fst snd].
  rewrite (check_state_not_open s Hst).
  destruct (Z.to_nat (retry_attempts (config (pool s)))) as [| n] eqn:Hn;
    [lia |].
  match goal with |- context [request_from ?r (S n) 0 s] => set (req := r) end.
  destruct (request_from_all_fail req n 0 s Hfail) as [H1 H2]; [lia |].
  set (res := request_from req (S n) 0 s) in *.
  split; [exact H1 |].
  replace (S n - 1)%nat with n by lia.
  apply (f_equal (fun x => fst (fst x))) in H2. exact H2.
Qed.

(** ** The cache *)

Lemma run_pending_keeps_redis :
  keeps (fun s => redis_source (world s)) run_pending.
Proof.
  unfold run_pending. apply keeps_bind; [frame | intros l].
  apply keeps_bind; [intros s; reflexivity | intros _].
  induction l as [| r rest IH]; cbn [run_recordings]; [frame |].
  apply keeps_bind; [| intros _; exact IH].
  destruct r; intros s; reflexivity.
Qed.

(** The answer to a Redis command is the oracle's. *)
Lemma redis_call_answer c (s : State) :
  fst (redis_call c s) =
  redis_source (world s) (length (redis_log (world s))) c.
Proof.
  unfold redis_call, bind, gets, modify. cbn [fst snd].
  match goal with |- context [run_pending ?x] => set (s1 := x) end.
  pose proof (run_pending_keeps_redis s1) as Hk.
  destruct (run_pending_returns s1) as (s2 & Hrun).
  rewrite Hrun in *. cbn [fst snd] in *. rewrite Hk. reflexivity.
Qed.

Lemma generate_key_state prefix data (s : State) :
  snd (_generate_key prefix data s) = s.
Proof.
  unfold _generate_key, bind, gets. cbn [fst snd].
  destruct (json_dumps_sorted (world s) data); reflexivity.
Qed.

Lemma cache_get_total prefix data (s : State) :
  raised (fst (cache_get prefix data s)) = false.
Proof.
  unfold cache_get, bind, gets. cbn [fst snd].
  destruct (cache_off (redis_cache s)); [reflexivity |].
  apply try_except_total. reflexivity.
Qed.

Lemma cache_set_total prefix data v (s : State) :
  raised (fst (cache_set prefix data v s)) = false.
Proof.
  unfold cache_set, bind, gets. cbn [fst snd].
  destruct (cache_off (redis_cache s)); [reflexivity |].
  apply try_except_total. reflexivity.
Qed.

Lemma invalidate_pattern_total pattern (s : State) :
  raised (fst (invalidate_pattern pattern s)) = false.
Proof.
  unfold invalidate_pattern, bind, gets. cbn [fst snd].
  destruct (cache_off (redis_cache s)); [reflexivity |].
  apply try_except_total. reflexivity.
Qed.

(** Without a Redis client, nothing is sent and nothing changes. *)
Lemma cache_unreachable prefix data v pattern (s : State) :
  redis (redis_cache s) = false ->
  cache_get prefix data s = (inr PyNone, s) /\
  cache_set prefix data v s = (inr tt, s) /\
  invalidate_pattern pattern s = (inr tt, s).
Proof.
  intros H. unfold cache_get, cache_set, invalidate_pattern, bind, gets,
    cache_off. cbn [fst snd]. rewrite H, orb_true_r. auto.
Qed.

(** When Redis answers every command with an error, [get] is a miss and
    [set] and [invalidate_pattern] return. *)
Lemma cache_backend_errors prefix data v pattern (s : State) :
  (forall n c, raised (redis_source (world s) n c) = true) ->
  fst (cache_get prefix data s) = inr PyNone /\
  fst (cache_set prefix data v s) = inr tt /\
  fst (invalidate_pattern pattern s) = inr tt.
Proof.
  intros Hfail. repeat split.
  - unfold cache_get, bind, gets. cbn [fst snd].
    destruct (cache_off (redis_cache s)); [reflexivity |].
    rewrite try_except_fst. unfold bind.
    pose proof (generate_key_state prefix data s) as Hs.
    destruct (_generate_key prefix data s) as [[e | key] s1];
      cbn [fst snd] in *; [reflexivity |]. subst s1.
    pose proof (redis_call_answer (GET key) s) as Ha.
    specialize (Hfail (length (redis_log (world s))) (GET key)).
    rewrite <- Ha in Hfail.
    destruct (redis_call (GET key) s) as [[e | x] s2]; cbn [fst snd] in *;
      [reflexivity | discriminate].
  - unfold cache_set, bind, gets. cbn [fst snd].
    destruct (cache_off (redis_cache s)); [reflexivity |].
    rewrite try_except_fst. unfold bind.
    pose proof (generate_key_state prefix data s) as Hs.
    destruct (_generate_key prefix data s) as [[e | key] s1];
      cbn [fst snd] in *; [reflexivity |]. subst s1.
    destruct (json_dumps (world s) v) as [e | text]; [reflexivity |].
    unfold bind.
    match goal with |- context [redis_call ?c s] => set (cmd := c) end.
    pose proof (redis_call_answer cmd s) as Ha.
    specialize (Hfail (length (redis_log (world s))) cmd).
    rewrite <- Ha in Hfail.
    destruct (redis_call cmd s) as [[e | x] s2]; cbn [fst snd] in *;
      [reflexivity | discriminate].
  - unfold invalidate_pattern, bind, gets. cbn [fst snd].
    destruct (cache_off (redis_cache s)); [reflexivity |].
    rewrite try_except_fst. unfold bind.
    pose proof (redis_call_answer (KEYS pattern) s) as Ha.
    specialize (Hfail (length (redis_log (world s))) (KEYS pattern)).
    rewrite <- Ha in Hfail.
    destruct (redis_call (KEYS pattern) s) as [[e | x] s2];
      cbn [fst snd] in *; [reflexivity | discriminate].
Qed.

(** C9.  Whatever the state and whatever Redis, the serializers and the
    hash function do, [get], [set] and [invalidate_pattern] of the cache
    return and never raise.  When the cache has no Redis client (the
    connection failed), [get] returns the miss [None], [set] and
    [invalidate_pattern] return, and the state is unchanged: no command is
    sent.  When Redis answers every command with an error, [get] returns the
    miss and [set] and [invalidate_pattern] return. *)
Theorem cache_failures_never_raise (prefix pattern : string) (data v : pyval)
  (s : State) :
  (raised (fst (cache_get prefix data s)) = false /\
   raised (fst (cache_set prefix data v s)) = false /\
   raised (fst (invalidate_pattern pattern s)) = false) /\
  (redis (redis_cache s) = false ->
   cache_get prefix data s = (inr PyNone, s) /\
   cache_set prefix data v s = (inr tt, s) /\
   invalidate_pattern pattern s = (inr tt, s)) /\
  ((forall n c, raised (redis_source (world s) n c) = true) ->
   fst (cache_get prefix data s) = inr PyNone /\
   fst (cache_set prefix data v s) = inr tt /\
   fst (invalidate_pattern pattern s) = inr tt).
Proof.
  split; [| split].
  - auto using cache_get_total, cache_set_total, invalidate_pattern_total.
  - apply cache_unreachable.
  - apply cache_backend_errors.
Qed.

(** ** The health check *)

Lemma ensure_session_eq (s : State) :
  _ensure_session s = (inr tt, on_pool (set_session SessionOpen) s).
Proof.
  unfold _ensure_session, bind, gets, modify. cbn [fst snd].
  destruct s as [w pd [u c se b] rc m]. cbn. destruct se; reflexivity.
Qed.

Lemma pool_close_returns (s : State) : fst (pool_close s) = inr tt.
Proof.
  unfold pool_close, bind, gets, modify. cbn [fst snd].
  destruct (session (pool s)); reflexivity.
Qed.

(** A request that the breaker admits and whose first attempt is answered
    with a status below 400 and a decodable body returns that body. *)
Lemma request_answered method endpoint json (s : State) status data :
  state (_circuit_breaker (pool s)) <> OPEN ->
  (1 <= retry_attempts (config (pool s)))%Z ->
  http_source (world s) (length (http_log (world s)))
    {| Async.method := method; url := base_url (pool s) +:+ endpoint;
       Async.json := json |} = inr (status, inr data) ->
  (status < 400)%Z ->
  fst (request method endpoint json s) = inr data.
Proof.
  intros Hst HR Hans Hok. unfold request, bind, gets. cbn [fst snd].
  rewrite (check_state_not_open s Hst).
  destruct (Z.to_nat (retry_attempts (config (pool s)))) as [| n] eqn:Hn;
    [lia |].
  rewrite request_from_S. unfold bind, try_except, request_try, bind.
  rewrite ensure_session_eq.
  match goal with |- context [http_exchange ?r ?x] =>
    pose proof (http_exchange_answer r x) as Ha end.
  cbn [world on_pool] in Ha. rewrite Hans in Ha.
  match goal with |- context [http_exchange ?r ?x] =>
    destruct (http_exchange r x) as [[e | [st body]] s2] end;
    cbn [fst snd] in *; [discriminate |].
  injection Ha as -> ->. unfold gets. cbn [fst snd].
  destruct (Z.leb_spec 400 status); [lia |]. reflexivity.
Qed.

(** The health check returns what its [try] block returns, and [False] when
    the block raises. *)
Lemma async_health_check_result (s : State) :
  fst (health_check s) =
  match fst (health_check_try s) with
  | inl _ => inr false
  | inr b => inr b
  end.
Proof.
  unfold health_check. rewrite try_except_fst.
  destruct (fst (health_check_try s)); reflexivity.
Qed.

Lemma async_health_check_total (s : State) :
  raised (fst (health_check s)) = false.
Proof. unfold health_check. apply try_except_total. reflexivity. Qed.

(** When the heartbeat is answered at the first attempt with a JSON object,
    the health check returns whether its ['status'] is ['ok']. *)
Lemma async_health_check_answered (s : State) status d :
  connection_pool (self s) = true ->
  state (_circuit_breaker (pool s)) <> OPEN ->
  (1 <= retry_attempts (config (pool s)))%Z ->
  http_source (world s) (length (http_log (world s)))
    {| method := "GET"; url := base_url (pool s) +:+ "/heartbeat";
       json := None |} = inr (status, inr (PyDict d)) ->
  (status < 400)%Z ->
  fst (health_check s) =
    inr (match dict_get d "status" with
         | Some v => eq_str v "ok"
         | None => false
         end).
Proof.
  intros Hpool Hst HR Hans Hok.
  unfold health_check. rewrite try_except_fst.
  unfold health_check_try, async_with_pool, bind at 1, gets.
  cbn [fst snd]. rewrite Hpool.
  unfold bind at 1. rewrite ensure_session_eq.
  set (s1 := on_pool (set_session SessionOpen) s).
  unfold try_finally.
  pose proof (request_answered "GET" "/heartbeat" None s1 status (PyDict d))
    as Hr.
  unfold bind at 1. unfold get.
  destruct (request "GET" "/heartbeat" None s1) as [[e | data] s2];
    cbn [fst snd] in *.
  - discriminate Hr; assumption.
  - assert (Hd : data = PyDict d).
    { assert (H : @inr exn pyval data = inr (PyDict d)) by (apply Hr; assumption).
      congruence. }
    subst data. pose proof (pool_close_returns s2) as Hc.
    destruct (dict_get d "status") as [v |]; cbn [ret fst snd];
      destruct (pool_close s2) as [[e | []] s3]; cbn in Hc |- *;
      try discriminate; reflexivity.
Qed.

End AsyncFacts.

(** * Properties that concern both managers *)

Module BothFacts.

Import MFacts.

(** C7.  Neither breaker counts the calls it admits in HALF_OPEN.  Once the
    timeout has elapsed since the last failure, the admission check of an
    OPEN breaker moves it to HALF_OPEN and admits the call; and every
    admission check made in HALF_OPEN admits the call and leaves the state as
    it is, so that calls are admitted until a recorded outcome moves the
    breaker to CLOSED or OPEN.  (The synchronous check compares the elapsed
    time with [>=], the asynchronous one with [>].) *)
Theorem half_open_admits_every_call (s : Sync.State) (a : Async.State) :
  (forall t,
     Sync._state (Sync.circuit_breaker (Sync.self s)) = Sync.OPEN ->
     Sync._last_failure_time (Sync.circuit_breaker (Sync.self s)) = Some t ->
     (Sync.recovery_timeout (Sync.circuit_breaker (Sync.self s))
      <= Sync.time_source (Sync.world s) (Sync.time_reads (Sync.world s)) - t)%Q ->
     Sync._can_execute s =
       (inr true,
        Sync.on_self
          (Sync.set_circuit_breaker
             (Sync.with_state Sync.HALF_OPEN
                (Sync.circuit_breaker (Sync.self s))))
          (Sync.clock_read 1 s))) /\
  (Sync._state (Sync.circuit_breaker (Sync.self s)) = Sync.HALF_OPEN ->
   Sync._can_execute s = (inr true, s)) /\
  (Async.state (Async._circuit_breaker (Async.pool a)) = Async.OPEN ->
   (Async.timeout (Async._circuit_breaker (Async.pool a))
    < Async.time_source (Async.world a) (Async.time_reads (Async.world a))
      - Async.last_failure_time (Async._circuit_breaker (Async.pool a)))%Q ->
   Async._check_state a =
     (inr tt,
      Async.on_pool
        (Async.set_breaker
           (Async.with_state Async.HALF_OPEN
              (Async._circuit_breaker (Async.pool a))))
        (Async.clock_read 1 a))) /\
  (Async.state (Async._circuit_breaker (Async.pool a)) = Async.HALF_OPEN ->
   Async._check_state a = (inr tt, a)).
Proof.
  split; [| split; [| split]].
  - intros t. apply SyncFacts.can_execute_open_elapsed.
  - apply SyncFacts.can_execute_half_open.
  - apply AsyncFacts.check_state_elapsed.
  - intros H. apply AsyncFacts.check_state_not_open. congruence.
Qed.

(** Two failures open the breaker of the manager with threshold 2; one
    hundred seconds later the admission check moves it to HALF_OPEN and
    admits a call.  No outcome is recorded, and the next two admission
    checks admit two more calls, the breaker still in HALF_OPEN. *)
Lemma half_open_admits_a_second_call :
  Sync._state (Sync.circuit_breaker
     (Sync.self (snd (Sync.record_failures 2 Sync.slow_state)))) = Sync.OPEN /\
  fst (Sync._can_execute (snd (Sync.record_failures 2 Sync.slow_state)))
    = inr true /\
  Sync._state (Sync.circuit_breaker (Sync.self Sync.half_open_state))
    = Sync.HALF_OPEN /\
  Sync._can_execute Sync.half_open_state = (inr true, Sync.half_open_state) /\
  Sync._can_execute (snd (Sync._can_execute Sync.half_open_state))
    = (inr true, Sync.half_open_state).
Proof. vm_compute. repeat split. Qed.

(** C10.  Neither health check raises, and both absorb every exception of
    their [try] block: the synchronous one then returns a dict whose
    ['status'] is ['unhealthy'] and whose ['error'] is [str(e)], the
    asynchronous one returns [False].  When its block returns, the
    synchronous check returns a dict whose ['status'] is ['healthy'].  The
    asynchronous check does not report a heartbeat that was answered as
    healthy: it returns whether the ['status'] of the answer is ['ok'].  A
    ChromaDB service that is up answers the heartbeat with a number of
    nanoseconds and no ['status']: the asynchronous check then returns
    [False], where the synchronous check of the same service returns the
    healthy dict. *)
Theorem answered_heartbeat_reported_unhealthy (s : Sync.State)
  (a : Async.State) :
  raised (fst (Sync.health_check s)) = false /\
  raised (fst (Async.health_check a)) = false /\
  match fst (Sync.health_check_try s) with
  | inl e =>
      exists d,
        fst (Sync.health_check s) = inr (PyDict d) /\
        dict_get d "status" = Some (PyStr "unhealthy") /\
        dict_get d "error" = Some (PyStr (str e))
  | inr v =>
      fst (Sync.health_check s) = inr v /\
      Sync.status_of v = Some (PyStr "healthy")
  end /\
  (forall e,
     fst (Async.health_check_try a) = inl e ->
     fst (Async.health_check a) = inr false) /\
  (forall status d,
     Async.connection_pool (Async.self a) = true ->
     Async.state (Async._circuit_breaker (Async.pool a)) <> Async.OPEN ->
     (1 <= Async.retry_attempts (Async.config (Async.pool a)))%Z ->
     Async.http_source (Async.world a)
       (length (Async.http_log (Async.world a)))
       {| Async.method := "GET";
          Async.url := Async.base_url (Async.pool a) +:+ "/heartbeat";
          Async.json := None |} = inr (status, inr (PyDict d)) ->
     (status < 400)%Z ->
     fst (Async.health_check a) =
       inr (match dict_get d "status" with
            | Some v => eq_str v "ok"
            | None => false
            end)) /\
  fst (Async.get "/heartbeat" Async.chroma_state)
    = inr (PyDict [("nanosecond heartbeat", PyInt 1700000000000000000)]) /\
  fst (Async.health_check Async.chroma_state) = inr false /\
  exists v,
    fst (Sync.health_check Sync.chroma_state) = inr v /\
    Sync.status_of v = Some (PyStr "healthy").
Proof.
  split; [| split; [| split; [| split; [| split; [| split; [| split]]]]]].
  - unfold Sync.health_check. apply try_except_total. reflexivity.
  - apply AsyncFacts.async_health_check_total.
  - pose proof (SyncFacts.sync_health_check_result s) as H.
    destruct (fst (Sync.health_check_try s)) as [e | v]; [| exact H].
    eexists. split; [exact H |]. split; reflexivity.
  - intros e He. rewrite AsyncFacts.async_health_check_result, He.
    reflexivity.
  - intros status d. apply AsyncFacts.async_health_check_answered.
  - vm_compute. reflexivity.
  - vm_compute. reflexivity.
  - eexists. split; vm_compute; reflexivity.
Qed.

End BothFacts.

(** * More reasoning about computations *)

Module MoreFacts.

Import MFacts.

Section Leads.

Context {S : Type}.

Lemma leads_weaken {A} (P P' Q Q' : S -> Prop) (c : M S A) :
  leads P' c Q' -> (forall s, P s -> P' s) -> (forall s, Q' s -> Q s) ->
  leads P c Q.
Proof. intros H HP HQ s Hs. apply HQ, H, HP, Hs. Qed.

Lemma leads_ret {A} (P Q : S -> Prop) (a : A) :
  (forall s, P s -> Q s) -> leads P (ret a) Q.
Proof. intros H s Hs. apply H, Hs. Qed.

Lemma leads_raise {A} (P Q : S -> Prop) (e : exn) :
  (forall s, P s -> Q s) -> leads P (@raise S A e) Q.
Proof. intros H s Hs. apply H, Hs. Qed.

Lemma leads_modify (P Q : S -> Prop) (f : S -> S) :
  (forall s, P s -> Q (f s)) -> leads P (modify f) Q.
Proof. intros H s Hs. apply H, Hs. Qed.

Lemma leads_bind {A B} (P R Q : S -> Prop) (c : M S A) (k : A -> M S B) :
  leads P c R -> (forall s, R s -> Q s) -> (forall a, leads R (k a) Q) ->
  leads P (bind c k) Q.
Proof.
  intros Hc HRQ Hk s Hs. unfold bind. specialize (Hc s Hs).
  destruct (c s) as [[e | a] s']; cbn in *; [apply HRQ, Hc | apply Hk, Hc].
Qed.

Lemma leads_try_except {A} (P R Q : S -> Prop) (c : M S A)
  (h : exn -> M S A) :
  leads P c R -> (forall s, R s -> Q s) -> (forall e, leads R (h e) Q) ->
  leads P (try_except c h) Q.
Proof.
  intros Hc HRQ Hh s Hs. unfold try_except. specialize (Hc s Hs).
  destruct (c s) as [[e | a] s']; cbn in *; [apply Hh, Hc | apply HRQ, Hc].
Qed.

Lemma leads_try_finally {A} (P R Q : S -> Prop) (c : M S A) (f : M S unit) :
  leads P c R -> leads R f Q -> leads P (try_finally c f) Q.
Proof.
  intros Hc Hf s Hs. unfold try_finally. specialize (Hc s Hs).
  destruct (c s) as [r s']. specialize (Hf s' Hc).
  destruct (f s') as [[e | u] s'']; cbn in *; assumption.
Qed.

Lemma maintains_leads {A} (inv : S -> Prop) (c : M S A) :
  maintains inv c -> leads inv c inv.
Proof. intros H. exact H. Qed.

(** A property of a view is maintained by what keeps the view. *)
Lemma keeps_maintains {A X} (view : S -> X) (P : X -> Prop) (c : M S A) :
  keeps view c -> maintains (fun s => P (view s)) c.
Proof. intros H s Hs. rewrite H. exact Hs. Qed.

(** A computation that never changes the state maintains everything. *)
Lemma pure_maintains {A} (inv : S -> Prop) (c : M S A) :
  (forall s, snd (c s) = s) -> maintains inv c.
Proof. intros H s Hs. rewrite H. exact Hs. Qed.

End Leads.

(** Invariants are proved along the structure of the computation. *)
Ltac maint_step :=
  match goal with
  | |- maintains _ (match ?x with _ => _ end) => destruct x
  | |- maintains _ (bind _ _) => apply maintains_bind; [| intros ?]
  | |- maintains _ (try_except _ _) => apply maintains_try_except; [| intros ?]
  | |- maintains _ (try_finally _ _) => apply maintains_try_finally
  | |- maintains _ (ret _) => apply maintains_ret
  | |- maintains _ (raise _) => apply maintains_raise
  | |- maintains _ (gets _) => apply maintains_gets
  | |- maintains _ _ => solve [auto]
  end.

Ltac maint := repeat maint_step.

(** The same for frame conditions, trying computation where no lemma is at
    hand. *)
Ltac keep_step :=
  match goal with
  | |- keeps _ (match ?x with _ => _ end) => destruct x
  | |- keeps _ (bind _ _) => apply keeps_bind; [| intros ?]
  | |- keeps _ (try_except _ _) => apply keeps_try_except; [| intros ?]
  | |- keeps _ (try_finally _ _) => apply keeps_try_finally
  | |- keeps _ _ => solve [auto with frame | intros ?; reflexivity]
  end.

Ltac keep := repeat keep_step.

End MoreFacts.

(** * More properties of the synchronous manager *)

Module SyncExtra.

Import Sync MFacts MoreFacts SyncFacts.

(** ** From the parts to the public operations *)

Section Facade.

(** An invariant that the parts maintain is maintained by every public
    operation, hence along every sequence of them. *)
Context (inv : State -> Prop).
Context (time_ok : maintains inv time_time).
Context (sleep_ok : forall d, maintains inv (time_sleep d)).
Context (extern_ok : forall c, maintains inv (extern c)).
Context (admit_ok : maintains inv _can_execute).
Context (success_ok : maintains inv _on_success).
Context (failure_ok : maintains inv _on_failure).
Context (record_success_ok : forall t, maintains inv (_record_success t)).
Context (record_failure_ok : maintains inv _record_failure).
Context (probe_ok : maintains inv health_check_try).
Context (create_ok : forall l, maintains inv (_create_store l)).
Context (info_ok : forall l, maintains inv (_get_info l)).
Context (delete_ok : forall l, maintains inv (_delete l)).
Context (stores_ok :
  forall f, maintains inv
    (modify (on_self (fun m => set_vector_stores (f (_vector_stores m)) m)))).
Context (drop_ok : maintains inv (put_connections [])).

Lemma call_maintains {A} (func : M State A) :
  maintains inv func -> maintains inv (call func).
Proof using admit_ok success_ok failure_ok.
  intros Hf. unfold call, get_breaker. maint.
Qed.

Lemma attempt_once_maintains {A} (func : M State A) (attempt : nat) :
  maintains inv func -> maintains inv (attempt_once func attempt).
Proof using time_ok sleep_ok admit_ok success_ok failure_ok
  record_success_ok record_failure_ok.
  intros Hf. pose proof (call_maintains func Hf).
  unfold attempt_once, attempt_try, attempt_except, get_self. maint.
Qed.

Lemma retry_from_maintains {A} (func : M State A) (n i : nat) last :
  maintains inv func -> maintains inv (retry_from func n i last).
Proof using time_ok sleep_ok admit_ok success_ok failure_ok
  record_success_ok record_failure_ok.
  intros Hf. revert i last. induction n as [| n IH]; intros i last.
  - cbn. maint.
  - rewrite retry_from_S. pose proof (attempt_once_maintains func i Hf). maint.
Qed.

Lemma retry_with_backoff_maintains {A} (func : M State A) :
  maintains inv func -> maintains inv (_retry_with_backoff func).
Proof using time_ok sleep_ok admit_ok success_ok failure_ok
  record_success_ok record_failure_ok.
  intros Hf. unfold _retry_with_backoff, get_self.
  apply maintains_bind; [maint | intros m].
  apply retry_from_maintains. exact Hf.
Qed.

Lemma get_vector_store_maintains l : maintains inv (get_vector_store l).
Proof using time_ok sleep_ok admit_ok success_ok failure_ok
  record_success_ok record_failure_ok create_ok stores_ok.
  unfold get_vector_store, get_self.
  apply maintains_bind; [maint | intros m].
  destruct (_vector_stores m !! l); [maint |].
  apply maintains_try_except; [| intros; maint].
  apply maintains_bind; [apply retry_with_backoff_maintains, create_ok |].
  intros st. apply maintains_bind; [| intros; maint].
  apply (stores_ok (fun v => <[l:=st]> v)).
Qed.

Lemma run_facade_op_maintains op : maintains inv (run_facade_op op).
Proof using All.
  destruct op as [| l | d l i | q l k f | l | l | |]; cbn [run_facade_op].
  - unfold health_check, get_breaker. maint.
  - pose proof (get_vector_store_maintains l). maint.
  - unfold add_documents.
    assert (maintains inv (_add_docs d l i)).
    { unfold _add_docs. pose proof (get_vector_store_maintains l). maint. }
    pose proof (retry_with_backoff_maintains _ H). maint.
  - unfold similarity_search.
    assert (maintains inv (_search q l k f)).
    { unfold _search. pose proof (get_vector_store_maintains l). maint. }
    pose proof (retry_with_backoff_maintains _ H). maint.
  - unfold get_collection_info.
    pose proof (retry_with_backoff_maintains _ (info_ok l)). maint.
  - unfold delete_collection.
    pose proof (retry_with_backoff_maintains _ (delete_ok l)).
    pose proof (stores_ok (fun v => delete l v)). maint.
  - unfold get_performance_metrics, get_self.
    assert (maintains inv p95_response_time).
    { apply pure_maintains. intros s. unfold p95_response_time.
      destruct (response_times _); reflexivity. }
    maint.
  - unfold cleanup. pose proof (stores_ok (fun _ => ∅)). maint.
Qed.

Lemma run_facade_ops_maintains ops (s : State) :
  inv s -> inv (run_facade_ops ops s).
Proof using All.
  revert s. induction ops as [| op rest IH]; intros s H; [exact H |].
  cbn. apply IH. apply run_facade_op_maintains. exact H.
Qed.

End Facade.

(** ** Invariants of the manager object *)

Section OnSelf.

(** A property of the manager object alone: the clock, the sleeps, the
    remote calls and the percentile leave the object as it is. *)
Context (P : ProductionRAGManager -> Prop).

Local Abbreviation inv := (fun s : State => P (self s)).

Lemma time_time_self : maintains inv time_time.
Proof. intros s H. exact H. Qed.

Lemma time_sleep_self d : maintains inv (time_sleep d).
Proof. unfold time_sleep. destruct (Qle_bool 0 d); intros s H; exact H. Qed.

Lemma extern_self c : maintains inv (extern c).
Proof. intros s H. exact H. Qed.

Lemma fresh_self : maintains inv fresh.
Proof. intros s H. exact H. Qed.

Lemma p95_unchanged (s : State) : snd (p95_response_time s) = s.
Proof.
  unfold p95_response_time. destruct (response_times _); reflexivity.
Qed.

Lemma p95_self : maintains inv p95_response_time.
Proof. apply pure_maintains, p95_unchanged. Qed.

Lemma send_metrics_self : maintains inv _send_metrics.
Proof.
  pose proof p95_self. pose proof extern_self. unfold _send_metrics. maint.
Qed.

Section Pool.

Context (pool_free : forall p m, P m -> P (set_connection_pool p m)).

Lemma put_connections_self l : maintains inv (put_connections l).
Proof using pool_free. intros s H. apply pool_free, H. Qed.

Lemma claim_available_self h p idle conns :
  maintains inv (claim_available h p idle conns).
Proof.
  pose proof time_time_self.
  induction conns as [| c rest IH]; cbn [claim_available]; maint.
Qed.

Lemma get_connection_self h p : maintains inv (get_connection h p).
Proof using pool_free.
  pose proof time_time_self. pose proof extern_self. pose proof fresh_self.
  pose proof put_connections_self. pose proof claim_available_self.
  unfold get_connection, get_pool. maint.
Qed.

Lemma release_connection_self c : maintains inv (release_connection c).
Proof using pool_free.
  pose proof time_time_self. pose proof put_connections_self.
  unfold release_connection, get_pool. maint.
Qed.

Lemma with_connection_self {A} (body : nat -> M State A) :
  (forall c, maintains inv (body c)) -> maintains inv (with_connection body).
Proof using pool_free.
  intros Hb. pose proof get_connection_self. pose proof release_connection_self.
  unfold with_connection, get_self. maint.
Qed.

Lemma health_check_try_self : maintains inv health_check_try.
Proof using pool_free.
  pose proof time_time_self. pose proof extern_self. pose proof p95_self.
  unfold health_check_try. apply with_connection_self. intros c.
  unfold py_len, get_self. maint.
Qed.

Lemma create_store_self l : maintains inv (_create_store l).
Proof using pool_free.
  pose proof extern_self. pose proof fresh_self.
  unfold _create_store. apply with_connection_self. intros c. maint.
Qed.

Lemma getattr_unchanged obj name (s : State) : snd (getattr obj name s) = s.
Proof.
  unfold getattr. destruct obj; try reflexivity.
  destruct (dict_get d name); reflexivity.
Qed.

Lemma get_info_self l : maintains inv (_get_info l).
Proof using pool_free.
  pose proof extern_self.
  assert (forall obj name, maintains inv (getattr obj name))
    by (intros; apply pure_maintains, getattr_unchanged).
  unfold _get_info. apply with_connection_self. intros c. maint.
Qed.

Lemma delete_self l : maintains inv (_delete l).
Proof using pool_free.
  pose proof extern_self.
  unfold _delete. apply with_connection_self. intros c. maint.
Qed.

End Pool.

Section Breaker.

Context (breaker_free : forall b m, P m -> P (set_circuit_breaker b m)).

Lemma put_breaker_self b : maintains inv (put_breaker b).
Proof using breaker_free. intros s H. apply breaker_free, H. Qed.

Lemma can_execute_self : maintains inv _can_execute.
Proof using breaker_free.
  pose proof time_time_self. pose proof put_breaker_self.
  unfold _can_execute, get_breaker. maint.
Qed.

Lemma on_success_self : maintains inv _on_success.
Proof using breaker_free.
  pose proof put_breaker_self. unfold _on_success, get_breaker. maint.
Qed.

Lemma on_failure_self : maintains inv _on_failure.
Proof using breaker_free.
  pose proof time_time_self. pose proof put_breaker_self.
  unfold _on_failure, get_breaker. maint.
Qed.

End Breaker.

Section Metrics.

Context (metrics_free : forall x m, P m -> P (set_metrics x m)).

Lemma record_success_self t : maintains inv (_record_success t).
Proof using metrics_free.
  pose proof time_time_self. pose proof send_metrics_self.
  unfold _record_success, get_self.
  apply maintains_bind; [assumption | intros now].
  apply maintains_bind; [| intros; maint].
  intros s H'. apply metrics_free, H'.
Qed.

Lemma record_failure_self : maintains inv _record_failure.
Proof using metrics_free.
  pose proof time_time_self. pose proof send_metrics_self.
  unfold _record_failure, get_self.
  apply maintains_bind; [assumption | intros now].
  apply maintains_bind; [| intros; maint].
  intros s H'. apply metrics_free, H'.
Qed.

End Metrics.

Section Stores.

Context (stores_free : forall v m, P m -> P (set_vector_stores v m)).

Lemma stores_self f :
  maintains inv
    (modify (on_self (fun m => set_vector_stores (f (_vector_stores m)) m))).
Proof using stores_free. intros s H. apply stores_free, H. Qed.

End Stores.

End OnSelf.

(** ** The breaker of a manager in use *)

Lemma breaker_inv_facade (s : State) (ops : list facade_op) :
  breaker_inv (circuit_breaker (self s)) ->
  breaker_inv (circuit_breaker (self (run_facade_ops ops s))).
Proof.
  set (P := fun m => breaker_inv (circuit_breaker m)).
  assert (Hpool : forall p m, P m -> P (set_connection_pool p m))
    by (intros p m H; exact H).
  assert (Hmetrics : forall x m, P m -> P (set_metrics x m))
    by (intros x m H; exact H).
  assert (Hstores : forall v m, P m -> P (set_vector_stores v m))
    by (intros v m H; exact H).
  apply (run_facade_ops_maintains (fun s => P (self s))).
  - apply time_time_self.
  - apply time_sleep_self.
  - apply extern_self.
  - intros s0. apply can_execute_inv.
  - intros s0 _. apply on_success_inv.
  - intros s0. apply on_failure_inv.
  - intros t. apply record_success_self, Hmetrics.
  - apply record_failure_self, Hmetrics.
  - apply health_check_try_self, Hpool.
  - intros l. apply create_store_self, Hpool.
  - intros l. apply get_info_self, Hpool.
  - intros l. apply delete_self, Hpool.
  - intros f. apply stores_self, Hstores.
  - apply put_connections_self, Hpool.
Qed.

(** X1. A manager built by [__init__] and used through its public
    operations only never has an open or half-open breaker without a
    recorded failure time and a failure count at the threshold; so the
    subtraction [time.time() - self._last_failure_time] of the admission
    check never meets the initial [None], and [_can_execute] never raises. *)
Theorem admission_check_never_raises (w : World) (h : string) (p mc thr : Z)
  (timeout : Q) (attempts : Z) (factor : Q) (mon : bool)
  (ops : list facade_op) :
  let s := {| world := w;
              self := ProductionRAGManager_init h p mc thr timeout attempts
                        factor mon |} in
  let s' := run_facade_ops ops s in
  breaker_inv (circuit_breaker (self s')) /\
  raised (fst (_can_execute s')) = false.
Proof.
  intros s s'.
  assert (Hinv : breaker_inv (circuit_breaker (self s'))).
  { apply (breaker_inv_facade s ops). apply breaker_inv_init. }
  split; [exact Hinv |].
  destruct Hinv as [_ Hopen].
  unfold _can_execute, bind, get_breaker, gets, time_time. cbn.
  destruct (_state (circuit_breaker (self s'))) eqn:Hst; try reflexivity.
  destruct (_last_failure_time (circuit_breaker (self s'))) as [t |] eqn:Ht.
  - destruct (Qle_bool _ _); reflexivity.
  - exfalso. apply Hopen; [discriminate | reflexivity].
Qed.

(** ** The request counters *)

Lemma last_1000_length (l : list Q) :
  (1000 < length l)%nat -> length (last_1000 l) = 1000%nat.
Proof. intros H. unfold last_1000. rewrite length_skipn. lia. Qed.

Lemma record_success_metrics_ok t :
  maintains (fun s => metrics_ok (_metrics (self s))) (_record_success t).
Proof.
  pose proof (time_time_self (fun m => metrics_ok (_metrics m))).
  pose proof (send_metrics_self (fun m => metrics_ok (_metrics m))).
  unfold _record_success, get_self.
  apply maintains_bind; [assumption | intros now].
  apply maintains_bind; [| intros; maint].
  intros s (Htotal & Hs & Hf & Hlen). unfold metrics_ok.
  cbn -[Nat.ltb last_1000].
  split; [lia |]. split; [lia |]. split; [lia |].
  match goal with
  | |- context [Nat.ltb ?a ?b] => destruct (Nat.ltb_spec a b) as [Hcmp | Hcmp]
  end.
  - rewrite last_1000_length; [lia | exact Hcmp].
  - exact Hcmp.
Qed.

Lemma record_failure_metrics_ok :
  maintains (fun s => metrics_ok (_metrics (self s))) _record_failure.
Proof.
  pose proof (time_time_self (fun m => metrics_ok (_metrics m))).
  pose proof (send_metrics_self (fun m => metrics_ok (_metrics m))).
  unfold _record_failure, get_self.
  apply maintains_bind; [assumption | intros now].
  apply maintains_bind; [| intros; maint].
  intros s (Htotal & Hs & Hf & Hlen). unfold metrics_ok. cbn.
  split; [lia |]. split; [lia |]. split; [lia | exact Hlen].
Qed.

Lemma metrics_ok_facade (s : State) (ops : list facade_op) :
  metrics_ok (_metrics (self s)) ->
  metrics_ok (_metrics (self (run_facade_ops ops s))).
Proof.
  set (P := fun m => metrics_ok (_metrics m)).
  assert (Hpool : forall p m, P m -> P (set_connection_pool p m))
    by (intros p m H; exact H).
  assert (Hbreaker : forall b m, P m -> P (set_circuit_breaker b m))
    by (intros b m H; exact H).
  assert (Hstores : forall v m, P m -> P (set_vector_stores v m))
    by (intros v m H; exact H).
  apply (run_facade_ops_maintains (fun s => P (self s))).
  - apply time_time_self.
  - apply time_sleep_self.
  - apply extern_self.
  - apply can_execute_self, Hbreaker.
  - apply on_success_self, Hbreaker.
  - apply on_failure_self, Hbreaker.
  - apply record_success_metrics_ok.
  - apply record_failure_metrics_ok.
  - apply health_check_try_self, Hpool.
  - intros l. apply create_store_self, Hpool.
  - intros l. apply get_info_self, Hpool.
  - intros l. apply delete_self, Hpool.
  - intros f. apply stores_self, Hstores.
  - apply put_connections_self, Hpool.
Qed.

Lemma success_rate_bounds (x : ConnectionMetrics) :
  metrics_ok x -> (0 <= success_rate x <= 1)%Q.
Proof.
  intros (Htotal & Hs & Hf & _). unfold success_rate.
  destruct (total_requests x =? 0)%Z eqn:Hz; [split; discriminate |].
  apply Z.eqb_neq in Hz.
  assert (Hpos : (0 < inject_Z (total_requests x))%Q).
  { rewrite <- (Zlt_Qlt 0). lia. }
  split.
  - apply Qle_shift_div_l; [exact Hpos |].
    rewrite Qmult_0_l. rewrite <- (Zle_Qle 0). exact Hs.
  - apply Qle_shift_div_r; [exact Hpos |].
    rewrite Qmult_1_l. rewrite <- Zle_Qle. lia.
Qed.

(** X2. The counters of a manager built by [__init__] add up after any
    sequence of public operations: every request counted is a success or a
    failure, no more than 1000 response times are kept, and the success
    rate lies between 0 and 1. *)
Theorem request_counters_add_up (w : World) (h : string) (p mc thr : Z)
  (timeout : Q) (attempts : Z) (factor : Q) (mon : bool)
  (ops : list facade_op) :
  let s := {| world := w;
              self := ProductionRAGManager_init h p mc thr timeout attempts
                        factor mon |} in
  let x := _metrics (self (run_facade_ops ops s)) in
  total_requests x = (successful_requests x + failed_requests x)%Z /\
  (0 <= successful_requests x)%Z /\ (0 <= failed_requests x)%Z /\
  (length (response_times x) <= 1000)%nat /\
  (0 <= success_rate x <= 1)%Q.
Proof.
  intros s x.
  assert (Hok : metrics_ok x).
  { apply (metrics_ok_facade s ops). cbn. repeat split; cbn; lia. }
  pose proof (success_rate_bounds x Hok) as Hrate.
  destruct Hok as (H1 & H2 & H3 & H4). auto.
Qed.

(** ** The cache of vector stores *)

Lemma retry_keeps_stores {A} (func : M State A) (v : gmap string nat) :
  maintains (fun s => _vector_stores (self s) = v) func ->
  maintains (fun s => _vector_stores (self s) = v) (_retry_with_backoff func).
Proof.
  set (P := fun m => _vector_stores m = v).
  assert (Hbreaker : forall b m, P m -> P (set_circuit_breaker b m))
    by (intros b m H; exact H).
  assert (Hmetrics : forall x m, P m -> P (set_metrics x m))
    by (intros x m H; exact H).
  apply (retry_with_backoff_maintains (fun s => P (self s))).
  - apply time_time_self.
  - apply time_sleep_self.
  - apply can_execute_self, Hbreaker.
  - apply on_success_self, Hbreaker.
  - apply on_failure_self, Hbreaker.
  - intros t. apply record_success_self, Hmetrics.
  - apply record_failure_self, Hmetrics.
Qed.

Lemma create_store_keeps_stores l (v : gmap string nat) :
  maintains (fun s => _vector_stores (self s) = v) (_create_store l).
Proof.
  apply (create_store_self (fun m => _vector_stores m = v)).
  intros p m H. exact H.
Qed.

Lemma delete_keeps_stores l (v : gmap string nat) :
  maintains (fun s => _vector_stores (self s) = v) (_delete l).
Proof.
  apply (delete_self (fun m => _vector_stores m = v)).
  intros p m H. exact H.
Qed.

Lemma get_vector_store_hit l st (s : State) :
  _vector_stores (self s) !! l = Some st ->
  get_vector_store l s = (inr (Some st), s).
Proof.
  intros H. unfold get_vector_store, bind, get_self, gets. cbn.
  rewrite H. reflexivity.
Qed.

(** X3. [get_vector_store] never raises.  A store it returns is cached
    under its label: the next call with that label returns the same store
    and leaves the whole state as it is (no connection taken, no remote
    call, no clock reading), and the stores cached under other labels are
    untouched.  When it returns [None] the cache is as before. *)
Theorem vector_store_is_cached (l : string) (s : State) :
  let s' := snd (get_vector_store l s) in
  match fst (get_vector_store l s) with
  | inr (Some st) =>
      get_vector_store l s' = (inr (Some st), s') /\
      forall l', l' <> l ->
        _vector_stores (self s') !! l' = _vector_stores (self s) !! l'
  | inr None =>
      _vector_stores (self s) !! l = None /\
      _vector_stores (self s') = _vector_stores (self s)
  | inl _ => False
  end.
Proof.
  cbn zeta.
  destruct (_vector_stores (self s) !! l) as [st |] eqn:Hl.
  - rewrite (get_vector_store_hit l st s Hl). cbn.
    split; [apply get_vector_store_hit, Hl | reflexivity].
  - pose proof (retry_keeps_stores (_create_store l) (_vector_stores (self s))
                  (create_store_keeps_stores l _) s eq_refl) as Hkeep.
    unfold get_vector_store.
    set (c := _retry_with_backoff (_create_store l)) in *. clearbody c.
    unfold bind, get_self, gets, try_except, modify, ret.
    cbn. rewrite Hl.
    destruct (c s) as [[e | st] s1]; cbn in *.
    + split; [reflexivity | exact Hkeep].
    + split.
      * rewrite Hkeep. rewrite lookup_insert_eq. reflexivity.
      * intros l' Hne. rewrite Hkeep.
        rewrite lookup_insert_ne by congruence. reflexivity.
Qed.

(** X4. [delete_collection] never raises.  When it returns [True] the
    label is gone from the cache of vector stores and every other label is
    kept, so the next [get_vector_store] for it builds a new store; when it
    returns [False] the cache still holds what it held. *)
Theorem delete_collection_drops_the_cached_store (l : string) (s : State) :
  let s' := snd (delete_collection l s) in
  match fst (delete_collection l s) with
  | inr true =>
      _vector_stores (self s') = delete l (_vector_stores (self s)) /\
      _vector_stores (self s') !! l = None
  | inr false => _vector_stores (self s') = _vector_stores (self s)
  | inl _ => False
  end.
Proof.
  cbn zeta.
  pose proof (retry_keeps_stores (_delete l) (_vector_stores (self s))
                (delete_keeps_stores l _) s eq_refl) as Hkeep.
  unfold delete_collection.
  set (c := _retry_with_backoff (_delete l)) in *. clearbody c.
  unfold bind, try_except, modify, ret.
  destruct (c s) as [[e | u] s1]; cbn in *.
  - exact Hkeep.
  - rewrite Hkeep. split; [reflexivity | apply lookup_delete_eq].
Qed.

(** ** No attempts allowed *)

Lemma retry_without_attempts {A} (func : M State A) (s : State) :
  (retry_attempts (self s) <= 0)%Z ->
  _retry_with_backoff func s =
    (inl (TypeError "exceptions must derive from BaseException"), s).
Proof.
  intros H. unfold _retry_with_backoff, bind, get_self, gets. cbn.
  rewrite Z2Nat.nonpos by exact H. reflexivity.
Qed.

(** X5. With [retry_attempts] zero or negative the loop of
    [_retry_with_backoff] has no iteration: the function is never called and
    [raise last_exception] raises a [TypeError] for the initial [None].
    The public operations absorb it: [add_documents] and
    [delete_collection] return [False], [similarity_search] returns the
    empty list and [get_vector_store] of a label not cached returns [None],
    all without a remote call, a clock reading or any other change of
    state. *)
Theorem no_attempts_no_calls (s : State) (documents : list pyval)
  (l query : string) (ids : option (list string)) (k : Z) (filter : pyval) :
  (retry_attempts (self s) <= 0)%Z ->
  (forall (func : M State pyval),
     _retry_with_backoff func s =
       (inl (TypeError "exceptions must derive from BaseException"), s)) /\
  add_documents documents l ids s = (inr false, s) /\
  similarity_search query l k filter s = (inr (PyList []), s) /\
  delete_collection l s = (inr false, s) /\
  (_vector_stores (self s) !! l = None ->
   get_vector_store l s = (inr None, s)).
Proof.
  intros H. split; [intros func; apply retry_without_attempts, H |].
  split; [| split; [| split]].
  - unfold add_documents, try_except, bind.
    rewrite retry_without_attempts by exact H. reflexivity.
  - unfold similarity_search, try_except.
    rewrite retry_without_attempts by exact H. reflexivity.
  - unfold delete_collection, try_except, bind.
    rewrite retry_without_attempts by exact H. reflexivity.
  - intros Hl. unfold get_vector_store.
    set (c := _retry_with_backoff (_create_store l)).
    assert (Hc : c s = (inl (TypeError "exceptions must derive from BaseException"), s))
      by (apply retry_without_attempts, H).
    clearbody c. unfold bind, get_self, gets, try_except. cbn.
    rewrite Hl, Hc. reflexivity.
Qed.

Lemma no_attempts_no_calls_witness :
  add_documents [PyStr "text"] "docs" None no_retry_state
    = (inr false, no_retry_state) /\
  similarity_search "query" "docs" 4 PyNone no_retry_state
    = (inr (PyList []), no_retry_state) /\
  delete_collection "docs" no_retry_state = (inr false, no_retry_state).
Proof.
  pose proof (no_attempts_no_calls no_retry_state [PyStr "text"] "docs"
                "query" None 4 PyNone) as H.
  destruct H as (_ & Hadd & Hsearch & Hdel & _); [cbn; lia |].
  split; [exact Hadd | split; [exact Hsearch | exact Hdel]].
Defined.

(** ** Connections are given back *)

Lemma held_frame {A} holder (c : M State A) :
  keeps lease_view c -> maintains (held holder) c.
Proof.
  intros Hk s H. specialize (Hk s). unfold lease_view in Hk.
  injection Hk as Hp Hn. unfold held, pool_ok in *. rewrite Hp, Hn. exact H.
Qed.

Lemma time_time_lease : keeps lease_view time_time.
Proof. intros s. reflexivity. Qed.

Lemma time_sleep_lease d : keeps lease_view (time_sleep d).
Proof. unfold time_sleep. destruct (Qle_bool 0 d); intros s; reflexivity. Qed.

Lemma extern_lease c : keeps lease_view (extern c).
Proof. intros s. reflexivity. Qed.

Lemma p95_lease : keeps lease_view p95_response_time.
Proof. intros s. rewrite p95_unchanged. reflexivity. Qed.

Lemma getattr_lease obj name : keeps lease_view (getattr obj name).
Proof. intros s. rewrite getattr_unchanged. reflexivity. Qed.

#[local] Hint Resolve time_time_lease time_sleep_lease extern_lease p95_lease
  : frame.

Lemma can_execute_lease : keeps lease_view _can_execute.
Proof. unfold _can_execute, get_breaker, put_breaker. keep. Qed.

Lemma on_success_lease : keeps lease_view _on_success.
Proof. unfold _on_success, get_breaker, put_breaker. keep. Qed.

Lemma on_failure_lease : keeps lease_view _on_failure.
Proof. unfold _on_failure, get_breaker, put_breaker. keep. Qed.

Lemma send_metrics_lease : keeps lease_view _send_metrics.
Proof. unfold _send_metrics. keep. Qed.

#[local] Hint Resolve send_metrics_lease : frame.

Lemma record_success_lease t : keeps lease_view (_record_success t).
Proof. unfold _record_success, get_self. keep. Qed.

Lemma record_failure_lease : keeps lease_view _record_failure.
Proof. unfold _record_failure, get_self. keep. Qed.

Lemma fresh_held holder : maintains (held holder) fresh.
Proof.
  intros s [[Hdup Hlt] Hfree]. split; [split |]; cbn; try assumption.
  eapply Forall_impl; [exact Hlt |]. cbn. intros x Hx. lia.
Qed.

(** The search of [get_connection] marks at most the entry it returns, and
    returns the client of a free entry for the host and port asked. *)
Lemma claim_available_lease h p idle (conns : list Connection) (s : State) :
  exists n found l,
    claim_available h p idle conns s = (inr (found, l), clock_read n s) /\
    map client l = map client conns /\
    match found with
    | None => l = conns
    | Some c =>
        (exists x, In x conns /\ client x = c /\ host x = h /\ port x = p /\
                   in_use x = false) /\
        (Forall (fun x => in_use x = true -> Some (client x) = None) conns ->
         Forall (fun x => in_use x = true -> Some (client x) = Some c) l)
    end.
Proof.
  revert s. induction conns as [| c rest IH]; intros s.
  - exists 0%nat, None, []. cbn. rewrite clock_read_0. auto.
  - cbn [claim_available].
    destruct (String.eqb (host c) h && (port c =? p)%Z && negb (in_use c))
      eqn:Hmatch.
    + unfold bind, time_time. cbn [fst snd].
      destruct (Qlt_bool _ idle).
      * exists 2%nat, (Some (client c)), (touch true
            (time_source (world (clock_read 1 s))
               (time_reads (world (clock_read 1 s)))) c :: rest).
        cbn [fst snd]. rewrite clock_read_add. cbn. split; [reflexivity |].
        split; [reflexivity |]. split.
        -- exists c. apply andb_prop in Hmatch as [Hhp Hfree].
           apply andb_prop in Hhp as [Hh Hp].
           apply String.eqb_eq in Hh. apply Z.eqb_eq in Hp.
           apply negb_true_iff in Hfree. auto.
        -- intros Hall. inversion Hall as [| ? ? Hc Hrest]; subst.
           constructor; [reflexivity |].
           eapply Forall_impl; [exact Hrest |]. cbn. intros x Hx Hin.
           specialize (Hx Hin). discriminate.
      * destruct (IH (clock_read 1 s)) as (n & found & l & Hrun & Hmap & Hf).
        rewrite Hrun. exists (1 + n)%nat, found, (c :: l).
        cbn [fst snd ret]. rewrite clock_read_add. cbn. split; [reflexivity |].
        split; [rewrite Hmap; reflexivity |].
        destruct found as [c' |]; [| rewrite Hf; reflexivity].
        destruct Hf as [(x & Hin & Hx) Hall]. split; [exists x; auto |].
        intros H. inversion H as [| ? ? Hc Hrest]; subst.
        constructor; [| apply Hall, Hrest].
        intros Hin'. specialize (Hc Hin'). discriminate.
    + unfold bind. destruct (IH s) as (n & found & l & Hrun & Hmap & Hf).
      rewrite Hrun. exists n, found, (c :: l). cbn. split; [reflexivity |].
      split; [rewrite Hmap; reflexivity |].
      destruct found as [c' |]; [| rewrite Hf; reflexivity].
      destruct Hf as [(x & Hin & Hx) Hall]. split; [exists x; auto |].
      intros H. inversion H as [| ? ? Hc Hrest]; subst.
      constructor; [| apply Hall, Hrest].
      intros Hin'. specialize (Hc Hin'). discriminate.
Qed.

Lemma Forall_client (P : nat -> Prop) (l l' : list Connection) :
  map client l = map client l' ->
  Forall (fun x => P (client x)) l' -> Forall (fun x => P (client x)) l.
Proof.
  intros Hmap H. apply List.Forall_map. rewrite Hmap.
  apply List.Forall_map. exact H.
Qed.

Lemma get_connection_lease h p (s : State) :
  held None s ->
  match fst (get_connection h p s) with
  | inr c => held (Some c) (snd (get_connection h p s))
  | inl _ => held None (snd (get_connection h p s))
  end.
Proof.
  intros [[Hdup Hlt] Hfree].
  unfold get_connection, bind, get_pool, gets. cbn [fst snd].
  destruct (claim_available_lease h p
              (max_idle_time (connection_pool (self s)))
              (_connections (connection_pool (self s))) s)
    as (n & found & l & Hrun & Hmap & Hfound).
  rewrite Hrun. cbn [fst snd]. destruct found as [c |].
  - destruct Hfound as [_ Hall]. cbn.
    split; [split |]; cbn.
    + rewrite Hmap. exact Hdup.
    + apply (Forall_client (fun i => i < next_obj (world s))%nat _ _ Hmap Hlt).
    + apply Hall, Hfree.
  - subst l.
    destruct (Z.ltb_spec
                (Z.of_nat (length (_connections (connection_pool (self s)))))
                (max_connections (connection_pool (self s)))) as [Hlt' | Hge].
    + unfold extern. cbn [fst snd].
      destruct (ext_source _ _ _) as [e | v]; cbn.
      * split; [split |]; cbn; assumption.
      * split; [split |]; cbn.
        -- rewrite map_app. cbn. apply NoDup_ListNoDup.
           apply NoDup_app. split; [apply NoDup_ListNoDup, Hdup |].
           split; [| apply NoDup_singleton].
           intros i Hi Hi'. apply list_elem_of_singleton in Hi'. subst i.
           apply list_elem_of_In, in_map_iff in Hi as (x & Hx & Hin).
           rewrite List.Forall_forall in Hlt. specialize (Hlt x Hin). lia.
        -- apply Forall_app. split.
           ++ eapply Forall_impl; [exact Hlt |]. cbn. intros x Hx. lia.
           ++ constructor; [cbn; lia | constructor].
        -- apply Forall_app. split.
           ++ eapply Forall_impl; [exact Hfree |]. cbn. intros x Hx Hin.
              specialize (Hx Hin). discriminate.
           ++ constructor; [reflexivity | constructor].
    + cbn. split; [split |]; assumption.
Qed.

Lemma release_first_clients c now (l : list Connection) :
  map client (release_first c now l) = map client l.
Proof.
  induction l as [| x rest IH]; [reflexivity |]. cbn.
  destruct (Nat.eqb (client x) c); cbn; [reflexivity | rewrite IH; reflexivity].
Qed.

Lemma release_first_frees c now (l : list Connection) :
  List.NoDup (map client l) ->
  Forall (fun x => in_use x = true -> Some (client x) = Some c) l ->
  Forall (fun x => in_use x = true -> Some (client x) = None)
    (release_first c now l).
Proof.
  induction l as [| x rest IH]; intros Hdup Hall; [constructor |].
  cbn in Hdup. inversion Hdup as [| ? ? Hnotin Hdup']; subst.
  inversion Hall as [| ? ? Hx Hrest]; subst. cbn.
  destruct (Nat.eqb_spec (client x) c) as [Heq | Hne].
  - constructor; [cbn; discriminate |].
    rewrite List.Forall_forall in Hrest. apply List.Forall_forall.
    intros y Hy Hin. exfalso. apply Hnotin.
    specialize (Hrest y Hy Hin). injection Hrest as Hc.
    rewrite Heq, <- Hc. apply in_map, Hy.
  - constructor; [| apply IH; assumption].
    intros Hin. specialize (Hx Hin). congruence.
Qed.

Lemma release_connection_frees c (s : State) :
  held (Some c) s -> held None (snd (release_connection c s)).
Proof.
  intros [[Hdup Hlt] Hheld].
  unfold release_connection, bind, get_pool, gets. cbn [fst snd].
  destruct (existsb _ _) eqn:Hex.
  - cbn. split; [split |]; cbn.
    + rewrite release_first_clients. exact Hdup.
    + apply (Forall_client (fun i => i < next_obj (world s))%nat _ _
               (release_first_clients _ _ _) Hlt).
    + apply release_first_frees; assumption.
  - cbn. split; [split; assumption |].
    rewrite List.Forall_forall in Hheld. apply List.Forall_forall.
    intros x Hx Hin. specialize (Hheld x Hx Hin). injection Hheld as Hc.
    assert (Hsome : existsb (fun y => Nat.eqb (client y) c)
                      (_connections (connection_pool (self s))) = true).
    { apply existsb_exists. exists x. split; [exact Hx |].
      apply Nat.eqb_eq, Hc. }
    congruence.
Qed.

Lemma with_connection_held {A} (body : nat -> M State A) :
  (forall c, maintains (held (Some c)) (body c)) ->
  maintains (held None) (with_connection body).
Proof.
  intros Hbody s Hs. unfold with_connection, bind, get_self, gets.
  cbn [fst snd].
  pose proof (get_connection_lease (chroma_host (self s))
                (chroma_port (self s)) s Hs) as Hget.
  destruct (get_connection _ _ s) as [[e | c] s1]; cbn in *; [exact Hget |].
  apply (leads_try_finally (held (Some c)) (held (Some c)) (held None));
    [apply Hbody | intros s2; apply release_connection_frees | exact Hget].
Qed.

Lemma held_facade (s : State) (ops : list facade_op) :
  held None s -> held None (run_facade_ops ops s).
Proof.
  apply (run_facade_ops_maintains (held None)).
  - apply held_frame, time_time_lease.
  - intros d. apply held_frame, time_sleep_lease.
  - intros c. apply held_frame, extern_lease.
  - apply held_frame, can_execute_lease.
  - apply held_frame, on_success_lease.
  - apply held_frame, on_failure_lease.
  - intros t. apply held_frame, record_success_lease.
  - apply held_frame, record_failure_lease.
  - unfold health_check_try. apply with_connection_held. intros c.
    apply held_frame. unfold py_len, get_self. keep.
  - intros l. unfold _create_store. apply with_connection_held. intros c.
    apply maintains_bind; [apply held_frame, extern_lease |].
    intros _. apply fresh_held.
  - intros l. unfold _get_info. apply with_connection_held. intros c.
    apply held_frame. pose proof getattr_lease. keep.
  - intros l. unfold _delete. apply with_connection_held. intros c.
    apply held_frame. keep.
  - intros f. apply held_frame. intros s0. reflexivity.
  - intros s0 [[_ Hlt] _]. split; [split |]; cbn; constructor.
Qed.

Lemma held_none_active (s : State) :
  held None s -> active_connections (connection_pool (self s)) = 0%nat.
Proof.
  intros [_ Hfree]. unfold active_connections.
  induction (_connections (connection_pool (self s))) as [| x rest IH];
    [reflexivity |].
  inversion Hfree as [| ? ? Hx Hrest]; subst. cbn.
  destruct (in_use x) eqn:Hin; [specialize (Hx eq_refl); discriminate |].
  apply IH, Hrest.
Qed.

(** X6. No public operation keeps a connection: when the clients of the
    pool are distinct objects and no connection is in use, then after any
    sequence of public operations, returned or failed, no connection of the
    pool is in use, and the clients are still distinct. *)
Theorem connections_are_given_back (s : State) (ops : list facade_op) :
  held None s ->
  let s' := run_facade_ops ops s in
  active_connections (connection_pool (self s')) = 0%nat /\
  List.NoDup (map client (_connections (connection_pool (self s')))).
Proof.
  intros H s'. pose proof (held_facade s ops H) as H'. split.
  - apply held_none_active, H'.
  - destruct H' as [[Hdup _] _]. exact Hdup.
Qed.

Lemma connections_are_given_back_witness :
  length (_connections (connection_pool
            (self (run_facade_ops sample_session quiet_state)))) = 1%nat /\
  active_connections
    (connection_pool (self (run_facade_ops sample_session quiet_state)))
    = 0%nat /\
  List.NoDup
    (map client
       (_connections (connection_pool
          (self (run_facade_ops sample_session quiet_state))))).
Proof.
  split; [vm_compute; reflexivity |].
  apply (connections_are_given_back quiet_state sample_session).
  split; [split |]; cbn; constructor.
Defined.

(** ** The pool under the public operations *)

Lemma with_connection_maintains {A} (inv : State -> Prop)
  (body : nat -> M State A) :
  (forall h p, maintains inv (get_connection h p)) ->
  (forall c, maintains inv (release_connection c)) ->
  (forall c, maintains inv (body c)) ->
  maintains inv (with_connection body).
Proof. intros Hg Hr Hb. unfold with_connection, get_self. maint. Qed.

Lemma pool_inv_facade limit (s : State) (ops : list facade_op) :
  (0 <= limit)%Z -> pool_inv limit s -> pool_inv limit (run_facade_ops ops s).
Proof.
  intros Hlimit.
  set (P := fun m =>
    max_connections (connection_pool m) = limit /\
    (Z.of_nat (length (_connections (connection_pool m))) <= limit)%Z).
  assert (Hbreaker : forall b m, P m -> P (set_circuit_breaker b m))
    by (intros b m H; exact H).
  assert (Hmetrics : forall x m, P m -> P (set_metrics x m))
    by (intros x m H; exact H).
  assert (Hstores : forall v m, P m -> P (set_vector_stores v m))
    by (intros v m H; exact H).
  pose proof (time_time_self P) as Htime.
  pose proof (extern_self P) as Hext.
  pose proof (p95_self P) as Hp95.
  pose proof (fresh_self P) as Hfresh.
  assert (Hwith : forall A (body : nat -> M State A),
            (forall c, maintains (fun s => P (self s)) (body c)) ->
            maintains (fun s => P (self s)) (with_connection body)).
  { intros A body Hb. apply with_connection_maintains; [| | exact Hb].
    - intros h p. apply (get_connection_pool_inv limit).
    - intros c. apply (release_connection_pool_inv limit). }
  apply (run_facade_ops_maintains (fun s => P (self s))).
  - exact Htime.
  - apply time_sleep_self.
  - exact Hext.
  - apply can_execute_self, Hbreaker.
  - apply on_success_self, Hbreaker.
  - apply on_failure_self, Hbreaker.
  - intros t. apply record_success_self, Hmetrics.
  - apply record_failure_self, Hmetrics.
  - unfold health_check_try. apply Hwith. intros c.
    unfold py_len, get_self. maint.
  - intros l. unfold _create_store. apply Hwith. intros c. maint.
  - intros l. unfold _get_info. apply Hwith. intros c.
    assert (forall obj name, maintains (fun s => P (self s)) (getattr obj name))
      by (intros; apply pure_maintains, getattr_unchanged).
    maint.
  - intros l. unfold _delete. apply Hwith. intros c. maint.
  - intros f. apply stores_self, Hstores.
  - intros s0 [Hm _]. split; cbn; [exact Hm | exact Hlimit].
Qed.

(** X7. The pool of a manager built by [__init__] with
    [max_connections >= 0] never holds more than [max_connections]
    connections, whatever public operations run and however they end, and
    the limit itself is never changed. *)
Theorem facade_respects_the_pool_limit (w : World) (h : string)
  (p mc thr : Z) (timeout : Q) (attempts : Z) (factor : Q) (mon : bool)
  (ops : list facade_op) :
  (0 <= mc)%Z ->
  let s := {| world := w;
              self := ProductionRAGManager_init h p mc thr timeout attempts
                        factor mon |} in
  let pool := connection_pool (self (run_facade_ops ops s)) in
  max_connections pool = mc /\
  (Z.of_nat (length (_connections pool)) <= mc)%Z.
Proof.
  intros Hmc s pool. apply (pool_inv_facade mc s ops Hmc).
  split; cbn; [reflexivity | exact Hmc].
Qed.

Lemma facade_respects_the_pool_limit_witness :
  let pool := connection_pool (self (run_facade_ops sample_session quiet_state)) in
  max_connections pool = 2%Z /\
  (Z.of_nat (length (_connections pool)) <= 2)%Z.
Proof.
  apply (facade_respects_the_pool_limit quiet_world "localhost" 8000 2 2 60 3 2
           false sample_session).
  lia.
Defined.

(** ** Reuse of a free connection *)

Lemma claim_available_first h p idle (pre post : list Connection)
  (x : Connection) (s : State) :
  Forall (fun y => free_for h p y = false) pre ->
  free_for h p x = true ->
  (time_source (world s) (time_reads (world s)) - last_used x < idle)%Q ->
  claim_available h p idle (pre ++ x :: post) s =
    (inr (Some (client x),
          pre ++ touch true (time_source (world s) (S (time_reads (world s)))) x
              :: post),
     clock_read 2 s).
Proof.
  intros Hpre Hx Hfresh. induction pre as [| y pre IH].
  - cbn [app claim_available]. unfold free_for in Hx. rewrite Hx.
    unfold bind, time_time. cbn [fst snd].
    assert (Hlt : Qlt_bool
              (time_source (world s) (time_reads (world s)) - last_used x) idle
              = true).
    { unfold Qlt_bool. apply negb_true_iff.
      destruct (Qle_bool idle _) eqn:Hle; [| reflexivity].
      apply Qle_bool_iff in Hle. exfalso.
      apply (Qlt_not_le _ _ Hfresh), Hle. }
    rewrite Hlt. cbn [fst snd ret]. rewrite clock_read_add. cbn.
    rewrite Nat.add_1_r. reflexivity.
  - inversion Hpre as [| ? ? Hy Hrest]; subst.
    cbn [app claim_available]. unfold free_for in Hy. rewrite Hy.
    unfold bind. rewrite (IH Hrest). reflexivity.
Qed.

(** X8. [get_connection] takes the first connection of the pool that is
    free for the host and port asked, when that one has been idle for less
    than [max_idle_time]: it returns its client, marks the entry in use and
    stamps it, reads the clock twice, and does nothing else; in particular
    no new client is created and the pool keeps its size. *)
Theorem first_free_connection_is_reused (h : string) (p : Z) (s : State)
  (pre post : list Connection) (x : Connection) :
  _connections (connection_pool (self s)) = pre ++ x :: post ->
  Forall (fun y => free_for h p y = false) pre ->
  free_for h p x = true ->
  (time_source (world s) (time_reads (world s)) - last_used x
   < max_idle_time (connection_pool (self s)))%Q ->
  let s' := snd (get_connection h p s) in
  fst (get_connection h p s) = inr (client x) /\
  _connections (connection_pool (self s')) =
    pre ++ touch true (time_source (world s) (S (time_reads (world s)))) x
        :: post /\
  ext_log (world s') = ext_log (world s) /\
  next_obj (world s') = next_obj (world s) /\
  time_reads (world s') = (time_reads (world s) + 2)%nat.
Proof.
  intros Hconns Hpre Hx Hfresh.
  unfold get_connection, bind, get_pool, gets. cbn [fst snd].
  rewrite Hconns.
  rewrite (claim_available_first h p _ pre post x s Hpre Hx Hfresh).
  cbn. auto.
Qed.

Lemma first_free_connection_is_reused_witness :
  fst (get_connection "localhost" 8000 used_state) = inr 0%nat /\
  length (_connections (connection_pool
            (self (snd (get_connection "localhost" 8000 used_state))))) = 1%nat /\
  ext_log (world (snd (get_connection "localhost" 8000 used_state)))
    = ext_log (world used_state).
Proof.
  pose proof (first_free_connection_is_reused "localhost" 8000 used_state []
                []
                {| client := 0; host := "localhost"; port := 8000;
                   in_use := false; created := 0; last_used := 4 |}) as H.
  destruct H as (Hc & Hl & He & _).
  - vm_compute. reflexivity.
  - constructor.
  - vm_compute. reflexivity.
  - vm_compute. reflexivity.
  - split; [exact Hc |]. split; [rewrite Hl; reflexivity | exact He].
Defined.

(** ** The health-check round of the pool *)

Lemma list_remove_in_use x (l l' : list Connection) :
  in_use x = false ->
  list_remove x l = Some l' ->
  List.filter in_use l' = List.filter in_use l /\ sublist l' l.
Proof.
  intros Hx. revert l'. induction l as [| y rest IH]; intros l' H;
    [discriminate |].
  cbn in H. destruct (conn_eqb y x) eqn:Heq.
  - injection H as <-. split; [| apply sublist_cons, reflexivity].
    cbn. unfold conn_eqb in Heq.
    repeat (apply andb_prop in Heq as [Heq ?]).
    match goal with
    | H : Bool.eqb (in_use y) (in_use x) = true |- _ =>
        apply Bool.eqb_prop in H; rewrite H, Hx
    end.
    reflexivity.
  - destruct (list_remove x rest) as [rest' |]; [| discriminate].
    injection H as <-. destruct (IH rest' eq_refl) as [Hf Hs].
    split; [cbn; rewrite Hf; reflexivity | apply sublist_skip, Hs].
Qed.

Lemma health_check_each_in_use (kept left : list Connection)
  (snapshot : list Connection) :
  maintains
    (fun s =>
       List.filter in_use (_connections (connection_pool (self s))) = kept /\
       sublist (_connections (connection_pool (self s))) left)
    (health_check_each snapshot).
Proof.
  induction snapshot as [| conn rest IH]; cbn [health_check_each];
    [apply maintains_ret |].
  apply maintains_bind; [| intros _; exact IH].
  destruct (in_use conn) eqn:Hin; cbn [negb].
  - intros s H. exact H.
  - apply maintains_try_except.
    { apply maintains_bind; [intros s H; exact H | intros; apply maintains_ret]. }
    intros e s [Hf Hs]. unfold bind, get_pool, gets. cbn [fst snd].
    destruct (list_remove conn _) as [l |] eqn:Hrm; [| split; assumption].
    destruct (list_remove_in_use conn _ l Hin Hrm) as [Hf' Hs'].
    cbn. split; [rewrite Hf'; exact Hf | etransitivity; eassumption].
Qed.

(** X9. A round of the pool's background health check never removes a
    connection that is in use and never adds or reorders one: the
    connections in use are the same before and after, and what is left of
    the pool is a sublist of what was there. *)
Theorem health_round_spares_connections_in_use (s : State) :
  let s' := snd (_health_check_connections s) in
  List.filter in_use (_connections (connection_pool (self s')))
    = List.filter in_use (_connections (connection_pool (self s))) /\
  sublist (_connections (connection_pool (self s')))
    (_connections (connection_pool (self s))).
Proof.
  cbn zeta. unfold _health_check_connections, bind, get_pool, gets.
  cbn [fst snd]. apply health_check_each_in_use. split; reflexivity.
Qed.

(** ** What one run of the retry loop records *)

Lemma maintains_keeps {A X} (view : State -> X) (c : M State A) :
  (forall x, maintains (fun s => view s = x) c) -> keeps view c.
Proof. intros H s. apply (H (view s) s eq_refl). Qed.

Lemma keeps_maintains_eq {A X} (view : State -> X) (c : M State A) x :
  keeps view c -> maintains (fun s => view s = x) c.
Proof. intros H s Hs. rewrite H. exact Hs. Qed.

Lemma call_keeps_counts {A} (func : M State A) :
  keeps counts_view func -> keeps counts_view (call func).
Proof.
  intros Hf. apply maintains_keeps. intros x.
  set (P := fun m : ProductionRAGManager =>
    (successful_requests (_metrics m), failed_requests (_metrics m)) = x).
  assert (Hbreaker : forall b m, P m -> P (set_circuit_breaker b m))
    by (intros b m H; exact H).
  apply (call_maintains (fun s => P (self s))).
  - apply can_execute_self, Hbreaker.
  - apply on_success_self, Hbreaker.
  - apply on_failure_self, Hbreaker.
  - apply (keeps_maintains_eq counts_view func x Hf).
Qed.

Lemma send_metrics_keeps_counts : keeps counts_view _send_metrics.
Proof.
  apply maintains_keeps. intros x.
  apply (send_metrics_self (fun m =>
    (successful_requests (_metrics m), failed_requests (_metrics m)) = x)).
Qed.

Lemma record_success_counts t (s : State) :
  counts_view (snd (_record_success t s)) =
  ((fst (counts_view s) + 1)%Z, snd (counts_view s)).
Proof.
  unfold _record_success, bind, time_time, modify, get_self, gets.
  cbn [fst snd]. destruct (enable_monitoring _); [| reflexivity].
  rewrite send_metrics_keeps_counts. reflexivity.
Qed.

Lemma record_failure_counts (s : State) :
  counts_view (snd (_record_failure s)) =
  (fst (counts_view s), (snd (counts_view s) + 1)%Z).
Proof.
  unfold _record_failure, bind, time_time, modify, get_self, gets.
  cbn [fst snd]. destruct (enable_monitoring _); [| reflexivity].
  rewrite send_metrics_keeps_counts. reflexivity.
Qed.

Lemma attempt_try_counts {A} (func : M State A) (s : State) :
  keeps counts_view func ->
  counts_view (snd (attempt_try func s)) =
  match fst (attempt_try func s) with
  | inr _ => ((fst (counts_view s) + 1)%Z, snd (counts_view s))
  | inl _ => counts_view s
  end.
Proof.
  intros Hf. unfold attempt_try, bind, time_time. cbn [fst snd].
  pose proof (call_keeps_counts func Hf (clock_read 1 s)) as Hc.
  destruct (call func (clock_read 1 s)) as [[e | a] s1]; cbn [fst snd] in *;
    [exact Hc |].
  match goal with
  | |- context [_record_success ?t ?s2] =>
      pose proof (record_success_counts t s2) as Hr;
      pose proof (record_success_returns t s2) as Hret;
      destruct (_record_success t s2) as [[e' | []] s3]
  end; cbn [fst snd] in *; [discriminate |].
  cbn [ret fst snd]. rewrite Hr.
  change (counts_view (clock_read 1 s1)) with (counts_view s1).
  rewrite Hc. reflexivity.
Qed.

Lemma attempt_once_counts {A} (func : M State A) (attempt : nat) (s : State) :
  keeps counts_view func ->
  match fst (attempt_once func attempt s) with
  | inr (inl _) =>
      counts_view (snd (attempt_once func attempt s)) =
        ((fst (counts_view s) + 1)%Z, snd (counts_view s))
  | _ =>
      counts_view (snd (attempt_once func attempt s)) =
        (fst (counts_view s), (snd (counts_view s) + 1)%Z)
  end.
Proof.
  intros Hf. unfold attempt_once, try_except.
  pose proof (attempt_try_counts func s Hf) as Ht.
  pose proof (attempt_try_outcome func s) as Ho.
  destruct (attempt_try func s) as [[e | [result | e]] s1]; cbn [fst snd] in *.
  - unfold attempt_except, bind, get_self, gets.
    pose proof (record_failure_returns s1) as Hr.
    pose proof (record_failure_counts s1) as Hk.
    destruct (_record_failure s1) as [[e' | []] s2]; cbn [fst snd] in *;
      [discriminate |].
    rewrite Ht in Hk.
    destruct (Z.of_nat attempt <? retry_attempts (self s2) - 1)%Z.
    + unfold time_sleep. destruct (Qle_bool 0 _); cbn; exact Hk.
    + cbn. exact Hk.
  - exact Ht.
  - destruct Ho.
Qed.

Lemma retry_from_account {A} (func : M State A) :
  keeps retry_view func ->
  keeps counts_view func ->
  forall (n i : nat) (last : option exn) (s : State),
    (0 <= retry_backoff_factor (self s))%Q ->
    (i + n)%nat = Z.to_nat (retry_attempts (self s)) ->
    let r := retry_from func n i last s in
    exists k : nat,
      (k <= n)%nat /\
      snd (counts_view (snd r)) = (snd (counts_view s) + Z.of_nat k)%Z /\
      retry_view (snd r) =
        (slept (world s) ++
         map (fun j => (retry_backoff_factor (self s) ^ Z.of_nat j)%Q)
           (seq i (Nat.min k (n - 1))),
         retry_attempts (self s), retry_backoff_factor (self s)) /\
      match fst r with
      | inr _ =>
          (k < n)%nat /\
          fst (counts_view (snd r)) = (fst (counts_view s) + 1)%Z
      | inl _ => k = n /\ fst (counts_view (snd r)) = fst (counts_view s)
      end.
Proof.
  intros Hf Hc n. induction n as [| n IH]; intros i last s Hb HR r; subst r.
  - exists 0%nat. cbn [retry_from].
    assert (Hsame : forall e, snd (@raise State A e s) = s) by reflexivity.
    destruct last as [e |]; cbn; rewrite app_nil_r, Z.add_0_r; auto.
  - rewrite retry_from_S. unfold bind.
    pose proof (attempt_once_counts func i s Hc) as Hcount.
    destruct (attempt_once_cases func i s Hf Hb)
      as [(result & Hr & _ & Hv) | (e & Hr & _ & Hv)].
    + destruct (attempt_once func i s) as [[e' | [result' | e']] s1];
        cbn [fst snd] in *; try discriminate.
      exists 0%nat. cbn [ret fst snd Nat.min seq map].
      rewrite Hcount, Hv, app_nil_r, Z.add_0_r. cbn [fst snd].
      split; [lia |]. split; [reflexivity |]. split; [reflexivity |].
      split; [lia | reflexivity].
    + destruct (attempt_once func i s) as [[e' | [result' | e']] s1];
        cbn [fst snd] in *; try discriminate.
      unfold retry_view in Hv. injection Hv as Hsl Hra Hbf.
      specialize (IH (S i) (Some e') s1).
      rewrite Hra, Hbf in IH.
      destruct IH as (k & Hk & Hfail & Hview & Hres); [exact Hb | lia |].
      exists (S k). split; [lia |].
      rewrite Hcount in Hfail, Hres. cbn [fst snd] in Hfail, Hres.
      split; [rewrite Hfail; lia |].
      split.
      * rewrite Hview, Hsl. f_equal. f_equal.
        replace (S n - 1)%nat with n by lia.
        destruct (Z.ltb_spec (Z.of_nat i) (retry_attempts (self s) - 1))
          as [Hlt | Hge].
        -- replace (Nat.min (S k) n) with (S (Nat.min k (n - 1))) by lia.
           rewrite <- app_assoc. reflexivity.
        -- replace n with 0%nat in * by lia.
           replace k with 0%nat by lia. cbn. rewrite app_nil_r. reflexivity.
      * destruct (fst (retry_from func n (S i) (Some e') s1)).
        -- destruct Hres as [-> Hs]. split; [reflexivity | exact Hs].
        -- destruct Hres as [Hlt Hs]. split; [lia | exact Hs].
Qed.

(** X10. What one run of [_retry_with_backoff] leaves behind, for a
    function that neither sleeps nor touches the retry settings and the
    counters itself, a backoff factor that is not negative and [R =
    retry_attempts]: some number [k <= R] of attempts failed, each counted
    once in [failed_requests]; after each of them but the [R]-th the loop
    slept [factor^0], [factor^1], ... in this order and nothing else; if the
    run returned then [k < R] and one success was counted; if it raised
    then all [R] attempts failed and no success was counted. *)
Theorem retry_loop_accounting (A : Type) (func : M State A) (s : State) :
  keeps retry_view func ->
  keeps counts_view func ->
  (0 <= retry_backoff_factor (self s))%Q ->
  let r := _retry_with_backoff func s in
  let R := Z.to_nat (retry_attempts (self s)) in
  let before := _metrics (self s) in
  let after := _metrics (self (snd r)) in
  exists k : nat,
    (k <= R)%nat /\
    failed_requests after = (failed_requests before + Z.of_nat k)%Z /\
    slept (world (snd r)) =
      slept (world s) ++
      backoff_delays (retry_backoff_factor (self s)) (Nat.min k (R - 1)) /\
    match fst r with
    | inr _ =>
        (k < R)%nat /\
        successful_requests after = (successful_requests before + 1)%Z
    | inl _ =>
        k = R /\ successful_requests after = successful_requests before
    end.
Proof.
  intros Hf Hc Hb. cbn zeta.
  unfold _retry_with_backoff, bind, get_self, gets. cbn [fst snd].
  destruct (retry_from_account func Hf Hc
              (Z.to_nat (retry_attempts (self s))) 0 None s Hb eq_refl)
    as (k & Hk & Hfail & Hview & Hres).
  exists k. split; [exact Hk |]. split; [exact Hfail |].
  split; [| exact Hres].
  apply (f_equal (fun x => fst (fst x))) in Hview. exact Hview.
Qed.

Lemma retry_loop_accounting_witness :
  let r := _retry_with_backoff (extern (Heartbeat 0)) failing_state in
  exists k : nat,
    (k <= 3)%nat /\
    failed_requests (_metrics (self (snd r))) = (0 + Z.of_nat k)%Z /\
    slept (world (snd r)) = [] ++ backoff_delays 2 (Nat.min k 2) /\
    match fst r with
    | inr _ =>
        (k < 3)%nat /\
        successful_requests (_metrics (self (snd r))) = (0 + 1)%Z
    | inl _ => k = 3%nat /\ successful_requests (_metrics (self (snd r))) = 0%Z
    end.
Proof.
  apply (retry_loop_accounting pyval (extern (Heartbeat 0)) failing_state).
  - intros s. reflexivity.
  - intros s. reflexivity.
  - cbn. discriminate.
Defined.

End SyncExtra.

(** * More properties of the asynchronous manager *)

Module AsyncExtra.

Import Async MFacts MoreFacts AsyncFacts.

(** ** From the primitive updates to the requests *)

Section Parts.

(** An invariant kept by the primitive updates of the state is kept by the
    computations built from them: the clock, the breaker with its scheduled
    recordings, the sleeps, and the requests of the pool. *)
Context (inv : State -> Prop).
Context (clock_ok : forall n s, inv s -> inv (clock_read n s)).
Context (pending_ok : forall l s, inv s -> inv (set_pending l s)).
Context (breaker_ok : forall b s, inv s -> inv (on_pool (set_breaker b) s)).
Context (session_ok :
  forall s, inv s -> inv (on_pool (set_session SessionOpen) s)).
Context (slept_ok :
  forall d s, inv s ->
    inv (on_world (fun w => set_slept (slept w ++ [d]) w) s)).
Context (http_ok :
  forall r s, inv s ->
    inv (on_world (fun w => set_http_log (http_log w ++ [r]) w) s)).

Lemma time_time_ok : maintains inv time_time.
Proof using clock_ok. intros s H. apply clock_ok, H. Qed.

Lemma put_breaker_ok b : maintains inv (put_breaker b).
Proof using breaker_ok. intros s H. apply breaker_ok, H. Qed.

Lemma record_success_task_ok : maintains inv _record_success.
Proof using breaker_ok.
  pose proof put_breaker_ok. unfold _record_success, get_breaker. maint.
Qed.

Lemma record_failure_task_ok : maintains inv _record_failure.
Proof using clock_ok breaker_ok.
  pose proof put_breaker_ok. pose proof time_time_ok.
  unfold _record_failure, get_breaker. maint.
Qed.

Lemma run_recordings_ok l : maintains inv (run_recordings l).
Proof using clock_ok breaker_ok.
  pose proof record_success_task_ok. pose proof record_failure_task_ok.
  assert (maintains inv _record_stale)
    by (unfold _record_stale; pose proof time_time_ok; maint).
  induction l as [| r rest IH]; cbn [run_recordings]; [apply maintains_ret |].
  apply maintains_bind; [destruct r; assumption | intros _; exact IH].
Qed.

Lemma run_pending_ok : maintains inv run_pending.
Proof using clock_ok breaker_ok pending_ok.
  unfold run_pending.
  apply maintains_bind; [apply maintains_gets | intros l].
  apply maintains_bind; [| intros _; apply run_recordings_ok].
  intros s H. apply pending_ok, H.
Qed.

Lemma record_success_ok : maintains inv record_success.
Proof using pending_ok. intros s H. apply pending_ok, H. Qed.

Lemma record_failure_ok : maintains inv record_failure.
Proof using pending_ok. intros s H. apply pending_ok, H. Qed.

Lemma asyncio_sleep_ok d : maintains inv (asyncio_sleep d).
Proof using clock_ok breaker_ok pending_ok slept_ok.
  unfold asyncio_sleep.
  apply maintains_bind; [| intros _; apply run_pending_ok].
  intros s H. apply slept_ok, H.
Qed.

Lemma http_exchange_ok r : maintains inv (http_exchange r).
Proof using clock_ok breaker_ok pending_ok http_ok.
  unfold http_exchange.
  apply maintains_bind; [apply maintains_gets | intros n].
  apply maintains_bind; [intros s H; apply http_ok, H | intros _].
  apply maintains_bind; [apply run_pending_ok | intros _].
  intros s H. exact H.
Qed.

Lemma check_state_ok : maintains inv _check_state.
Proof using clock_ok breaker_ok.
  pose proof put_breaker_ok. pose proof time_time_ok.
  unfold _check_state, get_breaker. maint.
Qed.

Lemma ensure_session_ok : maintains inv _ensure_session.
Proof using session_ok.
  unfold _ensure_session.
  apply maintains_bind; [apply maintains_gets | intros p].
  destruct (session p); try apply maintains_ret;
    intros s H; apply session_ok, H.
Qed.

Lemma request_try_ok r : maintains inv (request_try r).
Proof using clock_ok breaker_ok pending_ok http_ok session_ok.
  pose proof ensure_session_ok. pose proof (http_exchange_ok r).
  pose proof record_success_ok.
  unfold request_try. maint.
Qed.

Lemma request_except_ok attempt e : maintains inv (request_except attempt e).
Proof using clock_ok breaker_ok pending_ok slept_ok.
  pose proof record_failure_ok. pose proof asyncio_sleep_ok.
  unfold request_except. maint.
Qed.

Lemma request_from_ok r n attempt : maintains inv (request_from r n attempt).
Proof using clock_ok breaker_ok pending_ok http_ok session_ok slept_ok.
  pose proof (request_try_ok r). pose proof request_except_ok.
  revert attempt. induction n as [| n IH]; intros attempt.
  - cbn. apply maintains_ret.
  - rewrite request_from_S. maint.
Qed.

Lemma request_ok method endpoint json :
  maintains inv (request method endpoint json).
Proof using clock_ok breaker_ok pending_ok http_ok session_ok slept_ok.
  pose proof check_state_ok. pose proof request_from_ok.
  unfold request. maint.
Qed.

End Parts.

(** ** From the Redis commands to the cache *)

Section Cache.

(** The same for the cache, for the commands [allowed] to be sent. *)
Context (inv : State -> Prop) (allowed : redis_command -> Prop).
Context (clock_ok : forall n s, inv s -> inv (clock_read n s)).
Context (pending_ok : forall l s, inv s -> inv (set_pending l s)).
Context (breaker_ok : forall b s, inv s -> inv (on_pool (set_breaker b) s)).
Context (redis_ok :
  forall c s, allowed c -> inv s ->
    inv (on_world (fun w => set_redis_log (redis_log w ++ [c]) w) s)).

Lemma redis_call_ok c : allowed c -> maintains inv (redis_call c).
Proof using clock_ok pending_ok breaker_ok redis_ok.
  intros Hc. unfold redis_call.
  apply maintains_bind; [apply maintains_gets | intros n].
  apply maintains_bind; [intros s H; apply redis_ok; assumption | intros _].
  apply maintains_bind;
    [apply run_pending_ok; assumption | intros _].
  intros s H. exact H.
Qed.

(** What follows the computation of the key is run with a key made of the
    prefix, a colon and a digest. *)
Lemma with_generated_key {A} prefix data (k : string -> M State A) :
  (forall digest, maintains inv (k (prefix +:+ ":" +:+ digest))) ->
  maintains inv (let* key := _generate_key prefix data in k key).
Proof.
  intros Hk s Hs. unfold bind at 1.
  destruct (_generate_key prefix data s) as [[e | key] s1] eqn:Hkey;
    unfold _generate_key, bind, gets in Hkey; cbn in Hkey;
    destruct (json_dumps_sorted (world s) data) as [e' | text];
    cbn in Hkey; inversion Hkey; subst; cbn; [exact Hs | apply Hk, Hs].
Qed.

Lemma cache_get_ok prefix data :
  (forall key, allowed (GET key)) -> maintains inv (cache_get prefix data).
Proof using clock_ok pending_ok breaker_ok redis_ok.
  intros Hget. unfold cache_get.
  apply maintains_bind; [apply maintains_gets | intros c].
  destruct (cache_off c); [apply maintains_ret |].
  apply maintains_try_except; [| intros; apply maintains_ret].
  apply with_generated_key. intros digest.
  apply maintains_bind; [apply redis_call_ok, Hget | intros v]. maint.
Qed.

Lemma cache_set_ok prefix data v :
  (forall digest ttl text, allowed (SETEX (prefix +:+ ":" +:+ digest) ttl text)) ->
  maintains inv (cache_set prefix data v).
Proof using clock_ok pending_ok breaker_ok redis_ok.
  intros Hset. unfold cache_set.
  apply maintains_bind; [apply maintains_gets | intros c].
  destruct (cache_off c); [apply maintains_ret |].
  apply maintains_try_except; [| intros; apply maintains_ret].
  apply with_generated_key. intros digest.
  apply maintains_bind; [apply maintains_gets | intros w].
  destruct (json_dumps w v) as [e | text]; [apply maintains_raise |].
  apply maintains_bind; [apply redis_call_ok, Hset | intros; apply maintains_ret].
Qed.

Lemma invalidate_pattern_ok pattern :
  allowed (KEYS pattern) -> (forall keys, allowed (DEL keys)) ->
  maintains inv (invalidate_pattern pattern).
Proof using clock_ok pending_ok breaker_ok redis_ok.
  intros Hkeys Hdel. unfold invalidate_pattern.
  apply maintains_bind; [apply maintains_gets | intros c].
  destruct (cache_off c); [apply maintains_ret |].
  apply maintains_try_except; [| intros; apply maintains_ret].
  apply maintains_bind; [apply redis_call_ok, Hkeys | intros keys].
  pose proof (redis_call_ok (DEL keys) (Hdel keys)).
  destruct (truthy keys); [| apply maintains_ret].
  destruct keys; maint.
Qed.

Lemma self_cache_get_ok prefix data :
  (forall key, allowed (GET key)) ->
  maintains inv (self_cache_get prefix data).
Proof using clock_ok pending_ok breaker_ok redis_ok.
  intros Hget. pose proof (cache_get_ok prefix data Hget).
  unfold self_cache_get. maint.
Qed.

Lemma self_cache_set_ok prefix data v :
  (forall digest ttl text, allowed (SETEX (prefix +:+ ":" +:+ digest) ttl text)) ->
  maintains inv (self_cache_set prefix data v).
Proof using clock_ok pending_ok breaker_ok redis_ok.
  intros Hset. pose proof (cache_set_ok prefix data v Hset).
  unfold self_cache_set. maint.
Qed.

Lemma self_cache_invalidate_ok pattern :
  allowed (KEYS pattern) -> (forall keys, allowed (DEL keys)) ->
  maintains inv (self_cache_invalidate pattern).
Proof using clock_ok pending_ok breaker_ok redis_ok.
  intros Hkeys Hdel. pose proof (invalidate_pattern_ok pattern Hkeys Hdel).
  unfold self_cache_invalidate. maint.
Qed.

End Cache.


(** ** From the coroutines to a session of them *)

Section Facade.

(** An invariant that the public coroutines maintain is maintained along
    every sequence of them. *)
Context (inv : State -> Prop).
Context (initialize_ok : maintains inv initialize).
Context (close_ok : maintains inv close).
Context (health_ok : maintains inv health_check).
Context (collections_ok : maintains inv get_collections).
Context (create_ok : forall n m, maintains inv (create_collection n m)).
Context (add_ok : forall c d m i, maintains inv (add_documents c d m i)).
Context (search_ok :
  forall c q n w wd, maintains inv (similarity_search c q n w wd)).
Context (info_ok : forall c, maintains inv (get_collection_info c)).
Context (delete_ok : forall c, maintains inv (delete_collection c)).
Context (clear_ok : maintains inv clear_cache).
Context (async_search_ok :
  forall q c n w wd, maintains inv (async_similarity_search q c n w wd)).

Lemma arun_facade_op_maintains op : maintains inv (run_facade_op op).
Proof using All.
  destruct op; cbn [run_facade_op];
    try exact clear_ok; try exact initialize_ok; try exact close_ok;
    (apply maintains_bind; [| intros; apply maintains_ret]); auto.
  unfold get_metrics. maint.
Qed.

Lemma arun_facade_ops_maintains ops (s : State) :
  inv s -> inv (run_facade_ops ops s).
Proof using All.
  revert s. induction ops as [| op rest IH]; intros s H; [exact H |].
  cbn. apply IH. apply arun_facade_op_maintains. exact H.
Qed.

End Facade.

(** ** The counters of requests *)

Ltac unchanged := intros; assumption.

Lemma behind_time k : maintains (behind k) time_time.
Proof. intros s H. exact H. Qed.

Lemma behind_request k method endpoint json :
  maintains (behind k) (request method endpoint json).
Proof. apply request_ok; unchanged. Qed.

Lemma behind_ensure_session k : maintains (behind k) _ensure_session.
Proof. apply ensure_session_ok; unchanged. Qed.

Lemma behind_pool_close k : maintains (behind k) pool_close.
Proof.
  unfold pool_close.
  apply maintains_bind; [apply maintains_gets | intros p].
  destruct (session p); try apply maintains_ret; intros s H; exact H.
Qed.

Lemma behind_cache_get k prefix data :
  maintains (behind k) (self_cache_get prefix data).
Proof.
  apply (self_cache_get_ok (behind k) (fun _ => True)); try unchanged.
  intros; exact I.
Qed.

Lemma behind_cache_set k prefix data v :
  maintains (behind k) (self_cache_set prefix data v).
Proof.
  apply (self_cache_set_ok (behind k) (fun _ => True)); try unchanged.
  intros; exact I.
Qed.

Lemma behind_cache_invalidate k pattern :
  maintains (behind k) (self_cache_invalidate pattern).
Proof.
  apply (self_cache_invalidate_ok (behind k) (fun _ => True)); try unchanged;
    intros; exact I.
Qed.

Lemma behind_invalidate_pattern k pattern :
  maintains (behind k) (invalidate_pattern pattern).
Proof.
  apply (invalidate_pattern_ok (behind k) (fun _ => True)); try unchanged;
    intros; exact I.
Qed.

Lemma behind_weaken (s : State) : behind 1 s -> behind 0 s.
Proof. unfold behind. lia. Qed.

Lemma count_success_behind :
  leads (behind 0) (modify (on_metrics count_success)) (behind 1).
Proof. intros s H. unfold behind in *. cbn. lia. Qed.

Lemma update_metrics_behind t :
  leads (behind 1) (_update_metrics t) (behind 0).
Proof. intros s H. unfold behind in *. cbn. lia. Qed.

Lemma count_miss_behind k : maintains (behind k) (modify (on_metrics count_miss)).
Proof. intros s H. exact H. Qed.

Lemma count_hit_behind k : maintains (behind k) (modify (on_metrics count_hit)).
Proof. intros s H. exact H. Qed.

Lemma count_and_reraise_behind {A} k e :
  maintains (behind k) (@count_and_reraise A e).
Proof.
  unfold count_and_reraise.
  apply maintains_bind; [intros s H; exact H | intros; apply maintains_raise].
Qed.

Lemma async_with_pool_behind {A} (body : M State A) :
  leads (behind 0) body (behind 0) ->
  maintains (behind 0) (async_with_pool body).
Proof.
  intros Hbody. unfold async_with_pool.
  apply maintains_bind; [apply maintains_gets | intros m].
  destruct (connection_pool m); [| apply maintains_raise].
  apply maintains_bind; [apply behind_ensure_session | intros _].
  apply (leads_try_finally (behind 0) (behind 0) (behind 0));
    [exact Hbody | apply behind_pool_close].
Qed.

(** The block of a coroutine that fetches: the success is counted as soon
    as the answer is there, the request only after the cache was written. *)
Lemma fetch_behind (req : M State pyval) (mid : pyval -> M State unit)
  (last : pyval -> M State pyval) (start : Q) :
  maintains (behind 0) req ->
  (forall r, maintains (behind 1) (mid r)) ->
  (forall r, maintains (behind 0) (last r)) ->
  maintains (behind 0)
    (async_with_pool
       (let* response := req in
        modify (on_metrics count_success) ;;;
        mid response ;;;
        modify (on_metrics count_miss) ;;;
        let* t := time_time in
        _update_metrics (t - start)%Q ;;;
        last response)).
Proof.
  intros Hreq Hmid Hlast. apply async_with_pool_behind.
  apply (leads_bind (behind 0) (behind 0)); [exact Hreq | auto | intros r].
  apply (leads_bind _ (behind 1));
    [apply count_success_behind | apply behind_weaken | intros _].
  apply (leads_bind _ (behind 1));
    [apply Hmid | apply behind_weaken | intros _].
  apply (leads_bind _ (behind 1));
    [apply count_miss_behind | apply behind_weaken | intros _].
  apply (leads_bind _ (behind 1));
    [apply behind_time | apply behind_weaken | intros t].
  apply (leads_bind _ (behind 0));
    [apply update_metrics_behind | auto | intros _].
  apply maintains_leads, Hlast.
Qed.

(** The block of a coroutine that changes the service. *)
Lemma change_behind (req : M State pyval) (mid : M State unit) (start : Q) :
  maintains (behind 0) req ->
  maintains (behind 1) mid ->
  maintains (behind 0)
    (async_with_pool
       (let* response := req in
        modify (on_metrics count_success) ;;;
        mid ;;;
        let* t := time_time in
        _update_metrics (t - start)%Q ;;;
        ret response)).
Proof.
  intros Hreq Hmid. apply async_with_pool_behind.
  apply (leads_bind (behind 0) (behind 0)); [exact Hreq | auto | intros r].
  apply (leads_bind _ (behind 1));
    [apply count_success_behind | apply behind_weaken | intros _].
  apply (leads_bind _ (behind 1));
    [apply Hmid | apply behind_weaken | intros _].
  apply (leads_bind _ (behind 1));
    [apply behind_time | apply behind_weaken | intros t].
  apply (leads_bind _ (behind 0));
    [apply update_metrics_behind | auto | intros _].
  apply leads_ret. auto.
Qed.

Lemma behind_py_len k v : maintains (behind k) (py_len v).
Proof. destruct v; cbn; first [apply maintains_ret | apply maintains_raise]. Qed.

Lemma behind_generate_ids k n i : maintains (behind k) (generate_ids n i).
Proof.
  revert i. induction n as [| n IH]; intros i; cbn [generate_ids];
    [apply maintains_ret |].
  apply maintains_bind; [apply behind_time | intros now].
  apply maintains_bind; [apply maintains_gets | intros w].
  apply maintains_bind; [apply IH | intros; apply maintains_ret].
Qed.

Lemma behind_get_results k r : maintains (behind k) (get_results r).
Proof. destruct r; cbn; first [apply maintains_ret | apply maintains_raise]. Qed.

Lemma behind_redis_call k c : maintains (behind k) (redis_call c).
Proof.
  apply (redis_call_ok (behind k) (fun _ => True)); try unchanged. exact I.
Qed.

Ltac behind_step :=
  lazymatch goal with
  | |- maintains _ (async_with_pool
         (bind _ (fun _ =>
            bind (modify (on_metrics count_success)) (fun _ =>
              bind _ (fun _ => bind (modify (on_metrics count_miss)) _))))) =>
      apply fetch_behind; [| intros ? | intros ?]
  | |- maintains _ (async_with_pool
         (bind _ (fun _ =>
            bind (modify (on_metrics count_success)) _))) =>
      apply change_behind
  | |- maintains _ (ret _) => apply maintains_ret
  | |- maintains _ (raise _) => apply maintains_raise
  | |- maintains _ (gets _) => apply maintains_gets
  | |- maintains _ time_time => apply behind_time
  | |- maintains _ (request _ _ _) => apply behind_request
  | |- maintains _ (get _) => apply behind_request
  | |- maintains _ (post _ _) => apply behind_request
  | |- maintains _ (delete _) => apply behind_request
  | |- maintains _ (self_cache_get _ _) => apply behind_cache_get
  | |- maintains _ (self_cache_set _ _ _) => apply behind_cache_set
  | |- maintains _ (self_cache_invalidate _) => apply behind_cache_invalidate
  | |- maintains _ (invalidate_pattern _) => apply behind_invalidate_pattern
  | |- maintains _ (py_len _) => apply behind_py_len
  | |- maintains _ (generate_ids _ _) => apply behind_generate_ids
  | |- maintains _ (get_results _) => apply behind_get_results
  | |- maintains _ (redis_call _) => apply behind_redis_call
  | |- maintains _ pool_close => apply behind_pool_close
  | |- maintains _ (modify new_connection_pool) => intros ? ?; assumption
  | |- maintains _ (modify new_cache) => intros ? ?; assumption
  | |- maintains _ (modify (on_cache _)) => intros ? ?; assumption
  | |- maintains _ (modify (on_metrics count_hit)) => apply count_hit_behind
  | |- maintains _ (modify (on_metrics count_miss)) => apply count_miss_behind
  | |- maintains _ (count_and_reraise _) => apply count_and_reraise_behind
  | |- maintains _ (try_except _ _) =>
      apply maintains_try_except; [| intros ?]
  | |- maintains _ (bind _ _) => apply maintains_bind; [| intros ?]
  | |- maintains _ (if ?b then _ else _) => destruct b
  | |- maintains _ (match ?x with _ => _ end) => destruct x
  end.

Ltac behind_op := repeat behind_step.

Lemma health_check_behind : maintains (behind 0) health_check.
Proof.
  unfold health_check, health_check_try.
  apply maintains_try_except; [| intros; apply maintains_ret].
  apply async_with_pool_behind. apply maintains_leads. behind_op.
Qed.

Lemma get_collections_behind : maintains (behind 0) get_collections.
Proof. unfold get_collections. behind_op. Qed.

Lemma create_collection_behind n m :
  maintains (behind 0) (create_collection n m).
Proof. unfold create_collection. behind_op. Qed.

Lemma add_documents_behind c d m i :
  maintains (behind 0) (add_documents c d m i).
Proof. unfold add_documents. behind_op. Qed.

Lemma similarity_search_behind c q n w wd :
  maintains (behind 0) (similarity_search c q n w wd).
Proof. unfold similarity_search. behind_op. Qed.

Lemma get_collection_info_behind c :
  maintains (behind 0) (get_collection_info c).
Proof. unfold get_collection_info. behind_op. Qed.

Lemma delete_collection_behind c :
  maintains (behind 0) (delete_collection c).
Proof. unfold delete_collection. behind_op. Qed.

Lemma clear_cache_behind : maintains (behind 0) clear_cache.
Proof. unfold clear_cache. behind_op. Qed.

Lemma initialize_behind : maintains (behind 0) initialize.
Proof.
  pose proof health_check_behind. unfold initialize, connect.
  behind_op; assumption.
Qed.

Lemma close_behind : maintains (behind 0) close.
Proof. unfold close, cache_close. behind_op. Qed.

Lemma async_similarity_search_behind q c n w wd :
  maintains (behind 0) (async_similarity_search q c n w wd).
Proof. unfold async_similarity_search. behind_op. Qed.

Lemma behind_facade (s : State) (ops : list facade_op) :
  behind 0 s -> behind 0 (run_facade_ops ops s).
Proof.
  apply (arun_facade_ops_maintains (behind 0)).
  - apply initialize_behind.
  - apply close_behind.
  - apply health_check_behind.
  - apply get_collections_behind.
  - apply create_collection_behind.
  - apply add_documents_behind.
  - apply similarity_search_behind.
  - apply get_collection_info_behind.
  - apply delete_collection_behind.
  - apply clear_cache_behind.
  - apply async_similarity_search_behind.
Qed.

Lemma success_rate_cases (m : Metrics) :
  (requests_total m <= requests_success m)%Z ->
  success_rate m = PyInt 0 \/
  exists q, success_rate m = PyFloat q /\ (1 <= q)%Q.
Proof.
  intros H. unfold success_rate.
  destruct (Z.ltb_spec 0 (requests_total m)) as [Hpos | Hle]; [right | left; reflexivity].
  eexists. split; [reflexivity |].
  apply Qle_shift_div_l.
  - rewrite <- (Zlt_Qlt 0). exact Hpos.
  - rewrite Qmult_1_l. rewrite <- Zle_Qle. exact H.
Qed.

(** X11. The manager counts a request in [requests_total] only at the end
    of a successful operation, after it was counted in [requests_success];
    failed operations are counted in [requests_failed] alone.  So along any
    sequence of its public coroutines and methods, [batch_operations]
    apart, each awaited to its end before the next is started,
    [requests_total <= requests_success] stays true, and the [success_rate]
    that [get_metrics] reports is the integer 0 or a number that is at least
    1, whatever failed. *)
Theorem success_rate_is_never_below_one (s : State) (ops : list facade_op) :
  (requests_total (metrics (self s)) <= requests_success (metrics (self s)))%Z ->
  let s' := run_facade_ops ops s in
  let m' := metrics (self s') in
  (requests_total m' <= requests_success m')%Z /\
  exists d rate,
    get_metrics s' = (inr (PyDict d), s') /\
    dict_get d "success_rate" = Some rate /\
    (rate = PyInt 0 \/ exists q, rate = PyFloat q /\ (1 <= q)%Q).
Proof.
  intros H s' m'.
  assert (H' : behind 0 s').
  { apply behind_facade. unfold behind. lia. }
  unfold behind in H'. fold m' in H'. split; [lia |].
  eexists. exists (success_rate m'). split; [reflexivity |].
  split; [reflexivity |]. apply success_rate_cases. lia.
Qed.

Lemma success_rate_is_never_below_one_witness :
  let s' := run_facade_ops sample_session second_fails_state in
  requests_failed (metrics (self s')) = 1%Z /\
  success_rate (metrics (self s')) = PyFloat (2 # 2) /\
  (requests_total (metrics (self s')) <= requests_success (metrics (self s')))%Z /\
  exists d rate,
    get_metrics s' = (inr (PyDict d), s') /\
    dict_get d "success_rate" = Some rate /\
    (rate = PyInt 0 \/ exists q, rate = PyFloat q /\ (1 <= q)%Q).
Proof.
  split; [vm_compute; reflexivity |].
  split; [vm_compute; reflexivity |].
  apply (success_rate_is_never_below_one second_fails_state sample_session).
  cbn. lia.
Defined.

(** ** From the parts to the public coroutines *)

Lemma async_with_pool_maintains {A} (inv : State -> Prop) (body : M State A) :
  maintains inv _ensure_session -> maintains inv pool_close ->
  maintains inv body -> maintains inv (async_with_pool body).
Proof. intros He Hc Hbody. unfold async_with_pool. maint. Qed.

Section Coroutines.

(** Two invariants, [inv] between the statements of a public coroutine and
    [inner] inside its [async with self.connection_pool] block: when the
    block takes [inv] to [inner] and back, and the requests, the counters
    and the cache calls maintain the one in force where they stand, every
    public coroutine maintains [inv]. *)
Context (inv inner : State -> Prop).
Context (with_pool_ok :
  forall (body : M State pyval),
    maintains inner body -> maintains inv (async_with_pool body)).
Context (with_pool_bool_ok :
  forall (body : M State bool),
    maintains inner body -> maintains inv (async_with_pool body)).
Context (time_ok : maintains inv time_time).
Context (metrics_ok : forall f, maintains inv (modify (on_metrics f))).
Context (lookup_ok : forall p d, maintains inv (self_cache_get p d)).
Context (sweep_all_ok : maintains inv (invalidate_pattern "*")).
Context (inner_time_ok : maintains inner time_time).
Context (inner_request_ok : forall m e j, maintains inner (request m e j)).
Context (inner_metrics_ok : forall f, maintains inner (modify (on_metrics f))).
Context (store_search_ok :
  forall w name d v,
    maintains inner (self_cache_set ("search:" +:+ format w name) d v)).
Context (store_info_ok :
  forall d v, maintains inner (self_cache_set "collection_info" d v)).
Context (store_collections_ok :
  forall d v, maintains inner (self_cache_set "collections" d v)).
Context (sweep_created_ok :
  maintains inner (self_cache_invalidate "collections:*")).
Context (sweep_added_ok :
  forall w name,
    maintains inner
      (self_cache_invalidate ("collection:" +:+ format w name +:+ ":*"))).
Context (sweep_deleted_ok :
  forall w name,
    maintains inner (self_cache_invalidate ("*" +:+ format w name +:+ "*"))).
Context (store_query_ok :
  forall d v, maintains inner (self_cache_set "search" d v)).
Context (new_pool_ok : forall s, inv s -> inv (new_connection_pool s)).
Context (new_cache_ok : forall s, inv s -> inv (new_cache s)).
Context (connect_ok : maintains inv connect).
Context (pool_close_ok : maintains inv pool_close).
Context (cache_close_ok : maintains inv cache_close).

Lemma py_len_maintains v : maintains inv (py_len v).
Proof. destruct v; cbn; first [apply maintains_ret | apply maintains_raise]. Qed.

Lemma generate_ids_maintains n i : maintains inv (generate_ids n i).
Proof using time_ok.
  revert i. induction n as [| n IH]; intros i; cbn [generate_ids];
    [apply maintains_ret |].
  apply maintains_bind; [exact time_ok | intros now].
  apply maintains_bind; [apply maintains_gets | intros w].
  apply maintains_bind; [apply IH | intros; apply maintains_ret].
Qed.

Lemma count_and_reraise_maintains {A} e : maintains inv (@count_and_reraise A e).
Proof using metrics_ok.
  unfold count_and_reraise.
  apply maintains_bind; [apply metrics_ok | intros; apply maintains_raise].
Qed.

Ltac coroutine_step :=
  lazymatch goal with
  | |- maintains _ (ret _) => apply maintains_ret
  | |- maintains _ (raise _) => apply maintains_raise
  | |- maintains _ (gets _) => apply maintains_gets
  | |- maintains inv time_time => exact time_ok
  | |- maintains inner time_time => exact inner_time_ok
  | |- maintains inner (request _ _ _) => apply inner_request_ok
  | |- maintains inner (get _) => apply inner_request_ok
  | |- maintains inner (post _ _) => apply inner_request_ok
  | |- maintains inner (delete _) => apply inner_request_ok
  | |- maintains inv (self_cache_get _ _) => apply lookup_ok
  | |- maintains inner (self_cache_set ("search:" +:+ _) _ _) =>
      apply store_search_ok
  | |- maintains inner (self_cache_set "collection_info" _ _) =>
      apply store_info_ok
  | |- maintains inner (self_cache_set "collections" _ _) =>
      apply store_collections_ok
  | |- maintains inner (self_cache_set "search" _ _) =>
      apply store_query_ok
  | |- maintains inner (get_results ?r) =>
      destruct r; cbn [get_results]
  | |- maintains inv pool_close => exact pool_close_ok
  | |- maintains inv cache_close => exact cache_close_ok
  | |- maintains inner (self_cache_invalidate "collections:*") =>
      exact sweep_created_ok
  | |- maintains inner (self_cache_invalidate ("collection:" +:+ _)) =>
      apply sweep_added_ok
  | |- maintains inner (self_cache_invalidate ("*" +:+ _)) =>
      apply sweep_deleted_ok
  | |- maintains inv (invalidate_pattern _) => exact sweep_all_ok
  | |- maintains inv (py_len _) => apply py_len_maintains
  | |- maintains inv (generate_ids _ _) => apply generate_ids_maintains
  | |- maintains inv (modify (on_metrics _)) => apply metrics_ok
  | |- maintains inner (modify (on_metrics _)) => apply inner_metrics_ok
  | |- maintains inner (_update_metrics _) => apply inner_metrics_ok
  | |- maintains inv (count_and_reraise _) => apply count_and_reraise_maintains
  | |- maintains inv (async_with_pool _) =>
      first [apply with_pool_ok | apply with_pool_bool_ok]
  | |- maintains _ (try_except _ _) =>
      apply maintains_try_except; [| intros ?]
  | |- maintains _ (bind _ _) => apply maintains_bind; [| intros ?]
  | |- maintains _ (if ?b then _ else _) => destruct b
  | |- maintains _ (match ?x with _ => _ end) => destruct x
  end.

Ltac coroutine := repeat coroutine_step.

Lemma health_check_maintains : maintains inv health_check.
Proof using with_pool_bool_ok inner_request_ok.
  unfold health_check, health_check_try. coroutine.
Qed.

Lemma get_collections_maintains : maintains inv get_collections.
Proof using with_pool_ok time_ok metrics_ok lookup_ok inner_time_ok
  inner_request_ok inner_metrics_ok store_collections_ok.
  unfold get_collections. coroutine.
Qed.

Lemma create_collection_maintains n m : maintains inv (create_collection n m).
Proof using with_pool_ok time_ok metrics_ok inner_time_ok inner_request_ok
  inner_metrics_ok sweep_created_ok.
  unfold create_collection. coroutine.
Qed.

Lemma add_documents_maintains c d m i : maintains inv (add_documents c d m i).
Proof using with_pool_ok time_ok metrics_ok inner_time_ok inner_request_ok
  inner_metrics_ok sweep_added_ok.
  unfold add_documents. coroutine.
Qed.

Lemma similarity_search_maintains c q n w wd :
  maintains inv (similarity_search c q n w wd).
Proof using with_pool_ok time_ok metrics_ok lookup_ok inner_time_ok
  inner_request_ok inner_metrics_ok store_search_ok.
  unfold similarity_search. coroutine.
Qed.

Lemma get_collection_info_maintains c : maintains inv (get_collection_info c).
Proof using with_pool_ok time_ok metrics_ok lookup_ok inner_time_ok
  inner_request_ok inner_metrics_ok store_info_ok.
  unfold get_collection_info. coroutine.
Qed.

Lemma delete_collection_maintains c : maintains inv (delete_collection c).
Proof using with_pool_ok time_ok metrics_ok inner_time_ok inner_request_ok
  inner_metrics_ok sweep_deleted_ok.
  unfold delete_collection. coroutine.
Qed.

Lemma clear_cache_maintains : maintains inv clear_cache.
Proof using sweep_all_ok. unfold clear_cache. coroutine. Qed.

Lemma initialize_maintains : maintains inv initialize.
Proof using with_pool_bool_ok inner_request_ok new_pool_ok new_cache_ok
  connect_ok.
  pose proof health_check_maintains as Hh. unfold initialize.
  apply maintains_bind; [intros s H; apply new_pool_ok, H | intros _].
  apply maintains_bind; [intros s H; apply new_cache_ok, H | intros _].
  apply maintains_bind; [exact connect_ok | intros _].
  apply maintains_bind; [exact Hh | intros; apply maintains_ret].
Qed.

Lemma close_maintains : maintains inv close.
Proof using pool_close_ok cache_close_ok. unfold close. coroutine. Qed.

Lemma async_similarity_search_maintains q c n w wd :
  maintains inv (async_similarity_search q c n w wd).
Proof using with_pool_ok time_ok metrics_ok lookup_ok inner_time_ok
  inner_request_ok inner_metrics_ok store_query_ok.
  unfold async_similarity_search. coroutine.
Qed.

Lemma session_maintains ops (s : State) : inv s -> inv (run_facade_ops ops s).
Proof using All.
  apply (arun_facade_ops_maintains inv).
  - apply initialize_maintains.
  - apply close_maintains.
  - apply health_check_maintains.
  - apply get_collections_maintains.
  - apply create_collection_maintains.
  - apply add_documents_maintains.
  - apply similarity_search_maintains.
  - apply get_collection_info_maintains.
  - apply delete_collection_maintains.
  - apply clear_cache_maintains.
  - apply async_similarity_search_maintains.
Qed.

End Coroutines.

(** ** The keys of the cache *)

Lemma pool_close_unchanged (inv : State -> Prop) :
  (forall x s, inv s -> inv (on_pool (set_session x) s)) ->
  maintains inv pool_close.
Proof.
  intros H. unfold pool_close.
  apply maintains_bind; [apply maintains_gets | intros p].
  destruct (session p); try apply maintains_ret; intros s Hs; apply H, Hs.
Qed.

Lemma prefix_split (p k : string) :
  String.prefix p k = true -> exists rest, k = p +:+ rest.
Proof.
  revert k. induction p as [| a p IH]; intros k H.
  - exists k. reflexivity.
  - destruct k as [| b k]; [discriminate |]. cbn in H.
    destruct (Ascii.ascii_dec a b) as [-> | _]; [| discriminate].
    destruct (IH k H) as [rest ->]. exists rest. reflexivity.
Qed.

Lemma prefix_append (p rest : string) : String.prefix p (p +:+ rest) = true.
Proof.
  induction p as [| a p IH]; [destruct rest; reflexivity |].
  change (String.prefix (String a p) (String a (p +:+ rest)) = true).
  cbn [String.prefix].
  destruct (Ascii.ascii_dec a a) as [_ | Hne]; [exact IH | contradiction].
Qed.

Lemma manager_key_not_collection (key : string) :
  manager_key key = true -> String.prefix "collection:" key = false.
Proof.
  intros H. destruct (String.prefix "collection:" key) eqn:Hp; [| reflexivity].
  destruct (prefix_split _ _ Hp) as [rest ->].
  vm_compute in H. discriminate H.
Qed.

Lemma search_key (x digest : string) :
  manager_key (("search:" +:+ x) +:+ ":" +:+ digest) = true.
Proof.
  unfold manager_key.
  change (("search:" +:+ x) +:+ ":" +:+ digest)
    with ("search:" +:+ (x +:+ ":" +:+ digest)).
  rewrite prefix_append. reflexivity.
Qed.

Lemma info_key (digest : string) :
  manager_key ("collection_info" +:+ ":" +:+ digest) = true.
Proof.
  unfold manager_key.
  change ("collection_info" +:+ ":" +:+ digest)
    with ("collection_info:" +:+ digest).
  rewrite (prefix_append "collection_info:"), orb_true_r. reflexivity.
Qed.

Lemma collections_key (digest : string) :
  manager_key ("collections" +:+ ":" +:+ digest) = true.
Proof.
  unfold manager_key.
  change ("collections" +:+ ":" +:+ digest) with ("collections:" +:+ digest).
  rewrite (prefix_append "collections:"), orb_true_r. reflexivity.
Qed.

Lemma query_key (digest : string) :
  manager_key ("search" +:+ ":" +:+ digest) = true.
Proof.
  unfold manager_key.
  change ("search" +:+ ":" +:+ digest) with ("search:" +:+ digest).
  rewrite (prefix_append "search:"). reflexivity.
Qed.

Lemma writes_facade (s : State) (ops : list facade_op) :
  Forall manager_write (redis_log (world s)) ->
  Forall manager_write (redis_log (world (run_facade_ops ops s))).
Proof.
  set (inv := fun s : State => Forall manager_write (redis_log (world s))).
  assert (Hredis : forall c s0, manager_write c -> inv s0 ->
            inv (on_world (fun w => set_redis_log (redis_log w ++ [c]) w) s0)).
  { intros c s0 Hc H. unfold inv. cbn. apply Forall_app. split; [exact H |].
    constructor; [exact Hc | constructor]. }
  assert (Hsweep : forall pattern, maintains inv (self_cache_invalidate pattern)).
  { intros pattern.
    apply (self_cache_invalidate_ok inv manager_write); try unchanged;
      [exact Hredis | exact I | intros; exact I]. }
  assert (Hpool : forall A (body : M State A),
            maintains inv body -> maintains inv (async_with_pool body)).
  { intros A body. apply async_with_pool_maintains;
      [apply ensure_session_ok; unchanged | apply pool_close_unchanged; unchanged]. }
  apply (session_maintains inv inv).
  - apply Hpool.
  - apply Hpool.
  - intros s0 H. exact H.
  - intros f s0 H. exact H.
  - intros p d.
    apply (self_cache_get_ok inv manager_write); try unchanged;
      [exact Hredis | intros; exact I].
  - apply (invalidate_pattern_ok inv manager_write); try unchanged;
      [exact Hredis | exact I | intros; exact I].
  - intros s0 H. exact H.
  - intros m e j. apply request_ok; unchanged.
  - intros f s0 H. exact H.
  - intros w name d v.
    apply (self_cache_set_ok inv manager_write); try unchanged;
      [exact Hredis | intros; apply search_key].
  - intros d v.
    apply (self_cache_set_ok inv manager_write); try unchanged;
      [exact Hredis | intros; apply info_key].
  - intros d v.
    apply (self_cache_set_ok inv manager_write); try unchanged;
      [exact Hredis | intros; apply collections_key].
  - apply Hsweep.
  - intros w name. apply Hsweep.
  - intros w name. apply Hsweep.
  - intros d v.
    apply (self_cache_set_ok inv manager_write); try unchanged;
      [exact Hredis | intros; apply query_key].
  - intros s0 H. exact H.
  - intros s0 H. exact H.
  - unfold connect.
    pose proof (redis_call_ok inv manager_write) as Hcall.
    apply maintains_bind; [apply maintains_gets | intros c].
    destruct (negb _); [apply maintains_ret |].
    apply maintains_try_except; [| intros e s0 H; exact H].
    apply maintains_bind; [intros s0 H; exact H | intros _].
    apply maintains_bind; [| intros; apply maintains_ret].
    apply Hcall; try unchanged; [exact Hredis | exact I].
  - apply pool_close_unchanged; unchanged.
  - unfold cache_close.
    apply maintains_bind; [apply maintains_gets | intros c].
    destruct (redis c); [| apply maintains_ret].
    apply maintains_bind; [| intros; apply maintains_ret].
    apply (redis_call_ok inv manager_write); try unchanged;
      [exact Hredis | exact I].
Qed.

(** X12. Every value that the public coroutines and methods of the manager,
    [batch_operations] apart, each awaited to its end before the next is
    started, write to Redis is written under a key that begins with
    [search:], [collection_info:] or [collections:]; no key written begins
    with [collection:], the beginning of the only pattern whose keys
    [add_documents] deletes. *)
Theorem written_keys_never_begin_with_collection (s : State)
  (ops : list facade_op) (key : string) (ttl : Z) (v : string) :
  Forall manager_write (redis_log (world s)) ->
  In (SETEX key ttl v) (redis_log (world (run_facade_ops ops s))) ->
  manager_key key = true /\ String.prefix "collection:" key = false.
Proof.
  intros H Hin. pose proof (writes_facade s ops H) as H'.
  rewrite List.Forall_forall in H'. specialize (H' _ Hin). cbn in H'.
  split; [exact H' | apply manager_key_not_collection, H'].
Qed.

Lemma written_keys_never_begin_with_collection_witness :
  manager_key "search:d41d8cd98f00b204e9800998ecf8427e" = true /\
  String.prefix "collection:" "search:d41d8cd98f00b204e9800998ecf8427e"
    = false.
Proof.
  apply (written_keys_never_begin_with_collection second_fails_state
           sample_session _ 120 "{}").
  - constructor.
  - vm_compute. right. right. right. right. left. reflexivity.
Defined.

(** X13. All that [add_documents] sends to Redis, however it ends, are
    look-ups of the keys matching a pattern that begins with [collection:]
    and deletions; it writes nothing and looks no other key up. *)
Theorem add_documents_only_sweeps_collection_keys
  (collection_name documents metadatas ids : pyval) (s : State) :
  let s' := snd (add_documents collection_name documents metadatas ids s) in
  exists sent,
    redis_log (world s') = redis_log (world s) ++ sent /\
    Forall collection_sweep sent.
Proof.
  cbn zeta.
  set (inv := fun s0 : State =>
    exists sent, redis_log (world s0) = redis_log (world s) ++ sent /\
                 Forall collection_sweep sent).
  assert (Hredis : forall c s0, collection_sweep c -> inv s0 ->
            inv (on_world (fun w => set_redis_log (redis_log w ++ [c]) w) s0)).
  { intros c s0 Hc (sent & Hlog & Hall). exists (sent ++ [c]). cbn.
    rewrite Hlog, <- app_assoc. split; [reflexivity |].
    apply Forall_app. split; [exact Hall |].
    constructor; [exact Hc | constructor]. }
  apply (add_documents_maintains inv inv).
  - intros body. apply async_with_pool_maintains;
      [apply ensure_session_ok; unchanged | apply pool_close_unchanged; unchanged].
  - intros s0 H. exact H.
  - intros f s0 H. exact H.
  - intros s0 H. exact H.
  - intros m e j. apply request_ok; unchanged.
  - intros f s0 H. exact H.
  - intros w name.
    apply (self_cache_invalidate_ok inv collection_sweep); try unchanged;
      [exact Hredis | apply prefix_append | intros; exact I].
  - exists []. rewrite app_nil_r. split; [reflexivity | constructor].
Qed.

(** ** The HTTP session *)

Lemma with_pool_closes {A} (body : M State A) :
  maintains (fun s => session (pool s) = SessionOpen) body ->
  maintains (fun s => session (pool s) <> SessionOpen) (async_with_pool body).
Proof.
  intros Hbody. unfold async_with_pool.
  apply maintains_bind; [apply maintains_gets | intros m].
  destruct (connection_pool m); [| apply maintains_raise].
  intros s _. unfold bind. rewrite ensure_session_eq.
  apply (leads_try_finally (fun s => session (pool s) = SessionOpen)
           (fun s => session (pool s) = SessionOpen)
           (fun s => session (pool s) <> SessionOpen) body pool_close);
    [exact Hbody | | reflexivity].
  intros s1 H. unfold pool_close, bind, gets. cbn [fst snd]. rewrite H.
  cbn. discriminate.
Qed.

Lemma closed_facade (s : State) (ops : list facade_op) :
  session (pool s) <> SessionOpen ->
  session (pool (run_facade_ops ops s)) <> SessionOpen.
Proof.
  set (inv := fun s : State => session (pool s) <> SessionOpen).
  set (inner := fun s : State => session (pool s) = SessionOpen).
  assert (Hset : forall p d v, maintains inner (self_cache_set p d v)).
  { intros p d v.
    apply (self_cache_set_ok inner (fun _ => True)); try unchanged.
    intros; exact I. }
  assert (Hsweep : forall pattern, maintains inner (self_cache_invalidate pattern)).
  { intros pattern.
    apply (self_cache_invalidate_ok inner (fun _ => True)); try unchanged;
      intros; exact I. }
  apply (session_maintains inv inner).
  - intros body. apply with_pool_closes.
  - intros body. apply with_pool_closes.
  - intros s0 H. exact H.
  - intros f s0 H. exact H.
  - intros p d.
    apply (self_cache_get_ok inv (fun _ => True)); try unchanged.
    intros; exact I.
  - apply (invalidate_pattern_ok inv (fun _ => True)); try unchanged;
      intros; exact I.
  - intros s0 H. exact H.
  - intros m e j. apply request_ok; try unchanged. intros s0 _. reflexivity.
  - intros f s0 H. exact H.
  - intros w name d v. apply Hset.
  - intros d v. apply Hset.
  - intros d v. apply Hset.
  - apply Hsweep.
  - intros w name. apply Hsweep.
  - intros w name. apply Hsweep.
  - intros d v. apply Hset.
  - intros s0 _. unfold inv. cbn. discriminate.
  - intros s0 H. exact H.
  - unfold connect.
    apply maintains_bind; [apply maintains_gets | intros c].
    destruct (negb _); [apply maintains_ret |].
    apply maintains_try_except; [| intros e s0 H; exact H].
    apply maintains_bind; [intros s0 H; exact H | intros _].
    apply maintains_bind; [| intros; apply maintains_ret].
    apply (redis_call_ok inv (fun _ => True)); try unchanged. exact I.
  - intros s0 _. unfold inv, pool_close, bind, gets. cbn [fst snd].
    destruct (session (pool s0)) eqn:Hs; cbn; rewrite ?Hs; discriminate.
  - unfold cache_close.
    apply maintains_bind; [apply maintains_gets | intros c].
    destruct (redis c); [| apply maintains_ret].
    apply maintains_bind; [| intros; apply maintains_ret].
    apply (redis_call_ok inv (fun _ => True)); try unchanged. exact I.
Qed.

(** X14. Awaited alone, no public coroutine or method of the manager,
    [batch_operations] apart, leaves the HTTP session of the pool open: the
    session is opened on entering [async with self.connection_pool] and
    closed on leaving it, returned or raised; [initialize] replaces the pool
    by one without a session and [close] closes the session.  So when the
    session is not open before a sequence of them, each awaited to its end
    before the next is started, it is not open after it, nor after one
    more. *)
Theorem session_is_closed_between_operations (s : State)
  (ops : list facade_op) (op : facade_op) :
  session (pool s) <> SessionOpen ->
  let s' := run_facade_ops ops s in
  session (pool s') <> SessionOpen /\
  session (pool (snd (run_facade_op op s'))) <> SessionOpen.
Proof.
  intros H s'. split; [apply closed_facade, H |].
  apply (closed_facade s (ops ++ [op])) in H.
  replace (run_facade_ops (ops ++ [op]) s)
    with (snd (run_facade_op op s')) in H; [exact H |].
  subst s'. clear H. revert s. induction ops as [| o rest IH]; intros s;
    [reflexivity | apply IH].
Qed.

Lemma session_is_closed_between_operations_witness :
  session (pool (run_facade_ops sample_session quiet_state)) = SessionClosed /\
  session (pool (run_facade_ops sample_session quiet_state)) <> SessionOpen /\
  session (pool (snd (run_facade_op OpGetCollections
                        (run_facade_ops sample_session quiet_state))))
    <> SessionOpen.
Proof.
  split; [vm_compute; reflexivity |].
  apply (session_is_closed_between_operations quiet_state sample_session
           OpGetCollections).
  cbn. discriminate.
Defined.

(** ** The breaker of the pool *)

Lemma record_failures_facts (n : nat) (s : State) :
  let b := _circuit_breaker (pool s) in
  let s1 := snd (record_failures n s) in
  let b1 := _circuit_breaker (pool s1) in
  time_source (world s1) = time_source (world s) /\
  time_reads (world s1) = (time_reads (world s) + n)%nat /\
  http_log (world s1) = http_log (world s) /\
  threshold b1 = threshold b /\
  timeout b1 = timeout b /\
  failure_count b1 = (failure_count b + Z.of_nat n)%Z /\
  ((0 < n)%nat ->
   last_failure_time b1 =
     time_source (world s) (time_reads (world s) + n - 1)) /\
  ((0 < n)%nat -> (threshold b <= failure_count b + Z.of_nat n)%Z ->
   state b1 = OPEN).
Proof.
  revert s. induction n as [| n IH]; intros s.
  - cbn. rewrite Nat.add_0_r, Z.add_0_r. repeat split; try reflexivity; lia.
  - cbn [record_failures]. unfold bind. rewrite record_failure_task_eq.
    match goal with
    | |- context [record_failures n ?s0] => set (s' := s0)
    end.
    cbn zeta.
    destruct (IH s') as (Hsrc & Hreads & Hlog & Hthr & Hto & Hcount & Hlast & Hopen).
    cbn [fst snd] in *.
    rewrite Hsrc, Hreads, Hlog, Hthr, Hto, Hcount. subst s'. cbn.
    split; [reflexivity |]. split; [lia |]. split; [reflexivity |].
    split; [reflexivity |]. split; [reflexivity |]. split; [lia |].
    split.
    + intros _. destruct n as [| n].
      * cbn. f_equal. lia.
      * rewrite Hlast by lia. cbn. f_equal. lia.
    + intros _ Hge. destruct n as [| n].
      * cbn in *.
        destruct (Z.leb_spec (threshold (_circuit_breaker (pool s)))
                    (failure_count (_circuit_breaker (pool s)) + 1));
          [reflexivity | lia].
      * apply Hopen; [lia |]. cbn. lia.
Qed.

(** X15. After [threshold] failures recorded in a row (threshold at least
    one, counter not negative) the breaker of the pool is OPEN, and a
    request made while no more than [timeout] seconds have passed since the
    last of them is refused with [Exception("Circuit breaker is OPEN")]:
    nothing but one reading of the clock happens; no session is opened, no
    HTTP request is sent and no retry is made. *)
Theorem open_breaker_refuses_requests (s : State) (method endpoint : string)
  (json : option pyval) :
  let b := _circuit_breaker (pool s) in
  let n := Z.to_nat (threshold b) in
  let r := time_reads (world s) in
  let s1 := snd (record_failures n s) in
  (1 <= threshold b)%Z ->
  (0 <= failure_count b)%Z ->
  (time_source (world s) (r + n) - time_source (world s) (r + n - 1)
   <= timeout b)%Q ->
  state (_circuit_breaker (pool s1)) = OPEN /\
  request method endpoint json s1 =
    (inl (Exception "Circuit breaker is OPEN"), clock_read 1 s1) /\
  http_log (world (snd (request method endpoint json s1)))
    = http_log (world s).
Proof.
  intros b n r s1 Hthr Hcount Htime.
  destruct (record_failures_facts n s)
    as (Hsrc & Hreads & Hlog & _ & Hto & _ & Hlast & Hopen).
  fold s1 in Hsrc, Hreads, Hlog, Hto, Hlast, Hopen.
  assert (Hn : (0 < n)%nat) by (subst n; lia).
  assert (Hst : state (_circuit_breaker (pool s1)) = OPEN).
  { apply Hopen; [exact Hn |]. subst n b. lia. }
  assert (Href : request method endpoint json s1 =
            (inl (Exception "Circuit breaker is OPEN"), clock_read 1 s1)).
  { apply request_refused; [exact Hst |].
    rewrite Hsrc, Hreads, Hto, (Hlast Hn). exact Htime. }
  split; [exact Hst |]. split; [exact Href |].
  rewrite Href. cbn. exact Hlog.
Qed.

Lemma open_breaker_refuses_requests_witness :
  state (_circuit_breaker (pool tripped_state)) = OPEN /\
  get "/collections" tripped_state =
    (inl (Exception "Circuit breaker is OPEN"), clock_read 1 tripped_state) /\
  http_log (world (snd (get "/collections" tripped_state))) = [].
Proof.
  apply (open_breaker_refuses_requests quiet_state "GET" "/collections" None).
  - cbn. lia.
  - cbn. lia.
  - vm_compute. discriminate.
Defined.

(** ** What one request sends and sleeps *)

Lemma run_pending_keeps_log l :
  maintains (fun s => http_log (world s) = l) run_pending.
Proof. apply run_pending_ok; unchanged. Qed.

Lemma http_exchange_sends r l :
  leads (fun s => http_log (world s) = l) (http_exchange r)
    (fun s => http_log (world s) = l ++ [r]).
Proof.
  intros s H. unfold http_exchange, bind, gets, modify. cbn [fst snd].
  match goal with
  | |- context [run_pending ?s0] =>
      pose proof (run_pending_keeps_log (l ++ [r]) s0) as Hp;
      destruct (run_pending_returns s0) as [s1 Hs1]
  end.
  rewrite Hs1 in Hp |- *. cbn [fst snd] in *. apply Hp. cbn. rewrite H.
  reflexivity.
Qed.

Lemma request_try_sends r l :
  leads (fun s => http_log (world s) = l) (request_try r)
    (fun s => http_log (world s) = l ++ [r]).
Proof.
  intros s H. unfold request_try. unfold bind at 1.
  rewrite ensure_session_eq.
  apply (leads_bind (fun s => http_log (world s) = l)
           (fun s => http_log (world s) = l ++ [r])
           (fun s => http_log (world s) = l ++ [r]));
    [apply http_exchange_sends | auto | | exact H].
  intros response. apply maintains_leads.
  apply maintains_bind; [apply maintains_gets | intros w].
  destruct (400 <=? fst response)%Z; [apply maintains_raise |].
  destruct (snd response); [apply maintains_raise |].
  apply maintains_bind; [intros s0 H0; exact H0 | intros; apply maintains_ret].
Qed.

Lemma request_except_keeps_log attempt e l :
  maintains (fun s => http_log (world s) = l) (request_except attempt e).
Proof. apply request_except_ok; unchanged. Qed.

(** One iteration of the loop of [request]. *)
Lemma attempt_cases r (i : nat) (s : State) :
  let c := config (pool s) in
  let out :=
    try_except (let* data := request_try r in ret (Some data))
      (fun e => request_except i e ;;; ret None) s in
  http_log (world (snd out)) = http_log (world s) ++ [r] /\
  match fst out with
  | inr (Some _) => retry_view (snd out) = retry_view s
  | inr None =>
      Z.of_nat i <> (retry_attempts c - 1)%Z /\
      retry_view (snd out) =
        (slept (world s) ++ [(retry_delay c * 2 ^ Z.of_nat i)%Q], c,
         http_source (world s))
  | inl _ =>
      Z.of_nat i = (retry_attempts c - 1)%Z /\
      retry_view (snd out) = retry_view s
  end.
Proof.
  cbn zeta. unfold try_except, bind.
  pose proof (request_try_keeps_retry r s) as Hview.
  pose proof (request_try_sends r (http_log (world s)) s eq_refl) as Hlog.
  destruct (request_try r s) as [[e | data] s1]; cbn [fst snd] in *;
    [| split; assumption].
  pose proof (request_except_cases i e s1) as Hc.
  pose proof (request_except_keeps_log i e _ s1 Hlog) as Hlog'.
  assert (Hcfg : config (pool s1) = config (pool s)).
  { apply (f_equal (fun x => snd (fst x))) in Hview. exact Hview. }
  assert (Hsl : slept (world s1) = slept (world s)).
  { apply (f_equal (fun x => fst (fst x))) in Hview. exact Hview. }
  assert (Hsrc : http_source (world s1) = http_source (world s)).
  { apply (f_equal snd) in Hview. exact Hview. }
  cbn zeta in Hc. rewrite Hcfg in Hc.
  destruct (Z.eqb_spec (Z.of_nat i) (retry_attempts (config (pool s)) - 1))
    as [Heq | Hne].
  - destruct Hc as [Hr Hv].
    destruct (request_except i e s1) as [[e' | []] s2]; cbn [fst snd] in *;
      [| discriminate].
    split; [exact Hlog' |]. split; [exact Heq | congruence].
  - destruct Hc as [Hr Hv].
    destruct (request_except i e s1) as [[e' | []] s2]; cbn [fst snd] in *;
      [discriminate |].
    split; [exact Hlog' |]. split; [exact Hne |].
    cbn [ret snd]. rewrite Hv, Hsl, Hsrc. reflexivity.
Qed.

Lemma request_from_account r :
  forall (n i : nat) (s : State),
    n = 0%nat \/ Z.of_nat (i + n) = retry_attempts (config (pool s)) ->
    let out := request_from r n i s in
    exists k : nat,
      (k <= n)%nat /\
      retry_view (snd out) =
        (slept (world s) ++
         map (fun j => (retry_delay (config (pool s)) * 2 ^ Z.of_nat j)%Q)
           (seq i (Nat.min k (n - 1))),
         config (pool s), http_source (world s)) /\
      match fst out with
      | inl _ =>
          k = n /\ (1 <= n)%nat /\
          length (http_log (world (snd out)))
            = (length (http_log (world s)) + n)%nat
      | inr v =>
          (n = 0%nat /\ v = PyNone /\
           http_log (world (snd out)) = http_log (world s)) \/
          ((k < n)%nat /\
           length (http_log (world (snd out)))
             = (length (http_log (world s)) + k + 1)%nat)
      end.
Proof.
  intros n. induction n as [| n IH]; intros i s HR out; subst out.
  - exists 0%nat. cbn. rewrite app_nil_r.
    split; [lia |]. split; [reflexivity |]. left. auto.
  - destruct HR as [HR | HR]; [discriminate |].
    rewrite request_from_S.
    destruct (attempt_cases r i s) as [Hlog Hcase]. cbn zeta in Hcase.
    remember (try_except (let* data := request_try r in ret (Some data))
                (fun e => request_except i e ;;; ret None)) as it eqn:Hit.
    clear Hit. unfold bind.
    destruct (it s) as [[e | [data |]] s1]; cbn [fst snd] in *.
    + destruct Hcase as [Hlast Hv]. assert (n = 0%nat) by lia. subst n.
      exists 1%nat. cbn. rewrite app_nil_r.
      split; [lia |]. split; [exact Hv |].
      split; [reflexivity |]. split; [lia |].
      rewrite Hlog, length_app. reflexivity.
    + exists 0%nat. cbn [Nat.min seq map ret fst snd]. rewrite app_nil_r.
      split; [lia |]. split; [exact Hcase |]. right.
      split; [lia |]. rewrite Hlog, length_app. cbn. lia.
    + destruct Hcase as [Hnot Hv].
      assert (Hn : (1 <= n)%nat) by lia.
      unfold retry_view in Hv. injection Hv as Hsl Hcfg Hsrc.
      destruct (IH (S i) s1) as (k & Hk & Hview & Hres).
      { right. rewrite Hcfg. rewrite <- HR. f_equal. lia. }
      exists (S k). split; [lia |].
      rewrite Hcfg, Hsl, Hsrc in Hview.
      split.
      * rewrite Hview. f_equal. f_equal.
        replace (Nat.min (S k) (S n - 1)) with (S (Nat.min k (n - 1))) by lia.
        rewrite <- app_assoc. reflexivity.
      * destruct (fst (request_from r n (S i) s1)) as [e | v].
        -- destruct Hres as (-> & _ & Hlen). split; [reflexivity |].
           split; [lia |]. rewrite Hlen, Hlog, length_app. cbn. lia.
        -- destruct Hres as [(Hz & _) | (Hlt & Hlen)]; [lia |]. right.
           split; [lia |]. rewrite Hlen, Hlog, length_app. cbn. lia.
Qed.

Lemma check_state_raises (s : State) (e : exn) :
  fst (_check_state s) = inl e -> e = Exception "Circuit breaker is OPEN".
Proof.
  unfold _check_state, bind, get_breaker, gets, time_time. cbn [fst snd].
  destruct (state (_circuit_breaker (pool s))); cbn; try discriminate.
  destruct (Qlt_bool _ _); cbn; [discriminate | congruence].
Qed.

Lemma check_state_keeps_view (s : State) :
  retry_view (snd (_check_state s)) = retry_view s /\
  http_log (world (snd (_check_state s))) = http_log (world s).
Proof.
  split.
  - apply (check_state_ok (fun s0 => retry_view s0 = retry_view s));
      [unchanged | unchanged | reflexivity].
  - apply (check_state_ok (fun s0 => http_log (world s0) = http_log (world s)));
      [unchanged | unchanged | reflexivity].
Qed.

Lemma request_eq method endpoint json (s : State) :
  request method endpoint json s =
  match _check_state s with
  | (inl e, s0) => (inl e, s0)
  | (inr _, s0) =>
      request_from
        {| Async.method := method; url := base_url (pool s) +:+ endpoint;
           Async.json := json |}
        (Z.to_nat (retry_attempts (config (pool s)))) 0 s0
  end.
Proof. reflexivity. Qed.

(** X16. What one [request] of the pool sends and sleeps, with [R =
    retry_attempts] and [d = retry_delay].  It is refused by the breaker
    before anything is sent, or it makes some number of attempts that fail,
    [k <= R], each sending the request once, and sleeps [d * 2^0],
    [d * 2^1], ... after each of them but the [R]-th, and nothing else.  If
    it returns, either [R] is zero or less and it returns [None] having
    sent nothing, or one more attempt was answered: [k < R] and [k + 1]
    requests were sent.  If it raises without being refused, all [R]
    attempts failed and exactly [R] requests were sent. *)
Theorem request_accounting (method endpoint : string) (json : option pyval)
  (s : State) :
  let c := config (pool s) in
  let R := Z.to_nat (retry_attempts c) in
  let out := request method endpoint json s in
  let sent := length (http_log (world (snd out))) in
  exists k : nat,
    (k <= R)%nat /\
    slept (world (snd out)) =
      slept (world s) ++ backoff_delays (retry_delay c) (Nat.min k (R - 1)) /\
    match fst out with
    | inl e =>
        (k = 0%nat /\ e = Exception "Circuit breaker is OPEN" /\
         http_log (world (snd out)) = http_log (world s)) \/
        (k = R /\ (1 <= R)%nat /\
         sent = (length (http_log (world s)) + R)%nat)
    | inr v =>
        (R = 0%nat /\ v = PyNone /\
         http_log (world (snd out)) = http_log (world s)) \/
        ((k < R)%nat /\ sent = (length (http_log (world s)) + k + 1)%nat)
    end.
Proof.
  cbn zeta. rewrite request_eq.
  set (r := {| Async.method := method; url := base_url (pool s) +:+ endpoint;
               Async.json := json |}).
  destruct (check_state_keeps_view s) as [Hview Hlog].
  pose proof (check_state_raises s) as Hraise.
  destruct (_check_state s) as [[e | []] s0]; cbn [fst snd] in *.
  - exists 0%nat. split; [lia |].
    apply (f_equal (fun x => fst (fst x))) in Hview. cbn [fst retry_view] in Hview.
    rewrite Hview. cbn [Nat.min backoff_delays seq map]. rewrite app_nil_r.
    split; [reflexivity |].
    left. split; [reflexivity |]. split; [apply Hraise; reflexivity | exact Hlog].
  - unfold retry_view in Hview. injection Hview as Hsl Hcfg Hsrc.
    destruct (request_from_account r
                (Z.to_nat (retry_attempts (config (pool s)))) 0 s0)
      as (k & Hk & Hv & Hres).
    { rewrite Hcfg.
      destruct (Z.le_gt_cases (retry_attempts (config (pool s))) 0);
        [left; apply Z2Nat.nonpos; assumption | right; cbn; lia]. }
    cbn zeta in Hv, Hres. rewrite Hcfg, Hsl in Hv. rewrite Hlog in Hres.
    exists k. split; [exact Hk |].
    split; [apply (f_equal (fun x => fst (fst x))) in Hv; exact Hv |].
    destruct (fst (request_from r _ 0 s0)) as [e | v].
    + right. exact Hres.
    + exact Hres.
Qed.

End AsyncExtra.

(** * Batches of coroutines *)

Module CoroutineFacts.

Import Async MFacts MoreFacts AsyncFacts Coroutine.

(** ** Awaited alone, a coroutine is the computation of module [Async] *)

Lemma alone_suspended {A} (rest : Co A) (s : State) :
  alone (Suspended rest) s = alone rest (snd (run_pending s)).
Proof.
  cbn [alone]. unfold bind.
  destruct (run_pending_returns s) as (s1 & ->). reflexivity.
Qed.

Lemma alone_bind {A B} (c : Co A) (k : A -> Co B) (s : State) :
  alone (co_bind c k) s = bind (alone c) (fun a => alone (k a)) s.
Proof.
  revert s. induction c as [[e | a] | step next IH | rest IH]; intros s.
  - reflexivity.
  - reflexivity.
  - cbn [co_bind alone]. rewrite IH. reflexivity.
  - cbn [co_bind]. rewrite alone_suspended, IH. unfold bind.
    rewrite alone_suspended. reflexivity.
Qed.

Lemma alone_try_except {A} (c : Co A) (h : exn -> Co A) (s : State) :
  alone (co_try_except c h) s = try_except (alone c) (fun e => alone (h e)) s.
Proof.
  revert s. induction c as [[e | a] | step next IH | rest IH]; intros s.
  - reflexivity.
  - reflexivity.
  - cbn [co_try_except alone]. rewrite IH. reflexivity.
  - cbn [co_try_except]. rewrite alone_suspended, IH. unfold try_except.
    rewrite alone_suspended. reflexivity.
Qed.

Lemma alone_try_finally {A} (c : Co A) (f : M State unit) (s : State) :
  alone (co_try_finally c f) s = try_finally (alone c) f s.
Proof.
  revert s. induction c as [r | step next IH | rest IH]; intros s.
  - cbn. unfold try_finally. destruct (f s) as [[e | []] s1]; reflexivity.
  - cbn [co_try_finally alone]. rewrite IH. reflexivity.
  - cbn [co_try_finally]. rewrite alone_suspended, IH. unfold try_finally.
    rewrite alone_suspended. reflexivity.
Qed.

Lemma agrees_ret {A} (a : A) : agrees (co_ret a) (ret a).
Proof. intros s. reflexivity. Qed.

Lemma agrees_raise {A} (e : exn) : agrees (@co_raise A e) (raise e).
Proof. intros s. reflexivity. Qed.

Lemma agrees_atomic {A} (m : M State A) : agrees (atomic m) m.
Proof. intros s. cbn. destruct (m s); reflexivity. Qed.

Lemma agrees_suspend : agrees suspend run_pending.
Proof.
  intros s. unfold suspend. rewrite alone_suspended.
  destruct (run_pending_returns s) as (s1 & ->). reflexivity.
Qed.

Lemma agrees_bind {A B} (c : Co A) (k : A -> Co B) (m : M State A)
  (k' : A -> M State B) :
  agrees c m -> (forall a, agrees (k a) (k' a)) ->
  agrees (co_bind c k) (bind m k').
Proof.
  intros Hc Hk s. rewrite alone_bind. unfold bind. rewrite Hc.
  destruct (m s) as [[e | a] s1]; [reflexivity | apply Hk].
Qed.

Lemma agrees_try_except {A} (c : Co A) (h : exn -> Co A) (m : M State A)
  (h' : exn -> M State A) :
  agrees c m -> (forall e, agrees (h e) (h' e)) ->
  agrees (co_try_except c h) (try_except m h').
Proof.
  intros Hc Hh s. rewrite alone_try_except. unfold try_except. rewrite Hc.
  destruct (m s) as [[e | a] s1]; [apply Hh | reflexivity].
Qed.

Lemma agrees_try_finally {A} (c : Co A) (m : M State A) (f : M State unit) :
  agrees c m -> agrees (co_try_finally c f) (try_finally m f).
Proof.
  intros Hc s. rewrite alone_try_finally. unfold try_finally. rewrite Hc.
  reflexivity.
Qed.

(** Agreement is proved along the code, which is the same on both sides. *)
Ltac agree_step :=
  lazymatch goal with
  | |- agrees (co_bind _ _) (bind _ _) => apply agrees_bind; [| intros ?]
  | |- agrees (co_try_except _ _) (try_except _ _) =>
      apply agrees_try_except; [| intros ?]
  | |- agrees (co_try_finally _ _) (try_finally _ _) =>
      apply agrees_try_finally
  | |- agrees (atomic _) _ => apply agrees_atomic
  | |- agrees suspend run_pending => apply agrees_suspend
  | |- agrees (co_ret _) (ret _) => apply agrees_ret
  | |- agrees (co_raise _) (raise _) => apply agrees_raise
  | |- agrees (if ?b then _ else _) _ => destruct b
  | |- agrees (match ?x with _ => _ end) _ => destruct x
  | |- agrees _ _ => solve [auto]
  end.

Ltac agree := repeat agree_step.

Lemma asyncio_sleep_agrees d :
  agrees (Coroutine.asyncio_sleep d) (Async.asyncio_sleep d).
Proof. unfold Coroutine.asyncio_sleep, Async.asyncio_sleep. agree. Qed.

Lemma http_exchange_agrees r :
  agrees (Coroutine.http_exchange r) (Async.http_exchange r).
Proof. unfold Coroutine.http_exchange, Async.http_exchange. agree. Qed.

Lemma redis_call_agrees c :
  agrees (Coroutine.redis_call c) (Async.redis_call c).
Proof. unfold Coroutine.redis_call, Async.redis_call. agree. Qed.

Lemma request_try_agrees r :
  agrees (Coroutine.request_try r) (Async.request_try r).
Proof.
  pose proof http_exchange_agrees.
  unfold Coroutine.request_try, Async.request_try. agree.
Qed.

Lemma request_except_agrees attempt e :
  agrees (Coroutine.request_except attempt e) (Async.request_except attempt e).
Proof.
  pose proof asyncio_sleep_agrees.
  unfold Coroutine.request_except, Async.request_except. agree.
Qed.

Lemma request_from_agrees r n attempt :
  agrees (Coroutine.request_from r n attempt) (Async.request_from r n attempt).
Proof.
  pose proof request_try_agrees. pose proof request_except_agrees.
  revert attempt. induction n as [| n IH]; intros attempt.
  - apply agrees_ret.
  - cbn [Coroutine.request_from Async.request_from]. agree.
Qed.

Lemma request_agrees method endpoint json :
  agrees (Coroutine.request method endpoint json)
    (Async.request method endpoint json).
Proof.
  pose proof request_from_agrees.
  unfold Coroutine.request, Async.request. agree.
Qed.

Lemma cache_get_agrees prefix data :
  agrees (Coroutine.cache_get prefix data) (Async.cache_get prefix data).
Proof.
  pose proof redis_call_agrees.
  unfold Coroutine.cache_get, Async.cache_get. agree.
Qed.

Lemma cache_set_agrees prefix data v :
  agrees (Coroutine.cache_set prefix data v) (Async.cache_set prefix data v).
Proof.
  pose proof redis_call_agrees.
  unfold Coroutine.cache_set, Async.cache_set. agree.
Qed.

Lemma invalidate_pattern_agrees pattern :
  agrees (Coroutine.invalidate_pattern pattern)
    (Async.invalidate_pattern pattern).
Proof.
  pose proof redis_call_agrees.
  unfold Coroutine.invalidate_pattern, Async.invalidate_pattern. agree.
Qed.

Lemma async_with_pool_agrees {A} (body : Co A) (body' : M State A) :
  agrees body body' ->
  agrees (Coroutine.async_with_pool body) (Async.async_with_pool body').
Proof.
  intros H. unfold Coroutine.async_with_pool, Async.async_with_pool. agree.
Qed.

Lemma count_and_reraise_agrees {A} e :
  agrees (@Coroutine.count_and_reraise A e) (Async.count_and_reraise e).
Proof. unfold Coroutine.count_and_reraise, Async.count_and_reraise. agree. Qed.

Ltac coroutine_agrees :=
  pose proof request_agrees; pose proof cache_get_agrees;
  pose proof cache_set_agrees; pose proof invalidate_pattern_agrees;
  pose proof @count_and_reraise_agrees;
  unfold Coroutine.get, Async.get, Coroutine.post, Async.post,
    Coroutine.self_cache_get, Async.self_cache_get,
    Coroutine.self_cache_set, Async.self_cache_set,
    Coroutine.self_cache_invalidate, Async.self_cache_invalidate;
  repeat first [apply async_with_pool_agrees | agree_step].

(** Awaited alone, the three coroutines of a batch are the coroutines of
    module [Async]. *)
Lemma similarity_search_agrees c q n w wd :
  agrees (Coroutine.similarity_search c q n w wd)
    (Async.similarity_search c q n w wd).
Proof.
  unfold Coroutine.similarity_search, Async.similarity_search.
  coroutine_agrees.
Qed.

Lemma add_documents_agrees c d m i :
  agrees (Coroutine.add_documents c d m i) (Async.add_documents c d m i).
Proof.
  unfold Coroutine.add_documents, Async.add_documents. coroutine_agrees.
Qed.

Lemma get_collection_info_agrees c :
  agrees (Coroutine.get_collection_info c) (Async.get_collection_info c).
Proof.
  unfold Coroutine.get_collection_info, Async.get_collection_info.
  coroutine_agrees.
Qed.

(** ** The tasks of a batch *)



(** For an operation of unknown type it creates none. *)
Lemma unknown_type_skipped (operation : pyval) :
  unknown_type operation = true -> create_task_for operation = inr None.
Proof.
  destruct operation as [| | | | | | op |]; try discriminate.
  unfold unknown_type, create_task_for.
  destruct (eq_str (arg op "type" PyNone) "search"); [discriminate |].
  destruct (eq_str (arg op "type" PyNone) "add"); [discriminate |].
  destruct (eq_str (arg op "type" PyNone) "get_info"); [discriminate |].
  reflexivity.
Qed.


(** ** The event loop *)















(** ** What every block of a coroutine maintains, every batch maintains *)

Lemma blocks_atomic {A} (inv : State -> Prop) (m : M State A) :
  maintains inv m -> blocks_maintain inv (atomic m).
Proof. intros H s Hs. split; [apply H, Hs | exact I]. Qed.

Lemma blocks_bind {A B} (inv : State -> Prop) (c : Co A) (k : A -> Co B) :
  blocks_maintain inv c -> (forall a, blocks_maintain inv (k a)) ->
  blocks_maintain inv (co_bind c k).
Proof.
  intros Hc Hk.
  induction c as [[e | a] | step next IH | rest IH];
    cbn [co_bind blocks_maintain] in *.
  - exact I.
  - apply Hk.
  - intros s Hs. destruct (Hc s Hs) as [H1 H2].
    split; [exact H1 | apply IH, H2].
  - apply IH, Hc.
Qed.

Lemma blocks_try_except {A} (inv : State -> Prop) (c : Co A)
  (h : exn -> Co A) :
  blocks_maintain inv c -> (forall e, blocks_maintain inv (h e)) ->
  blocks_maintain inv (co_try_except c h).
Proof.
  intros Hc Hh.
  induction c as [[e | a] | step next IH | rest IH];
    cbn [co_try_except blocks_maintain] in *.
  - apply Hh.
  - exact I.
  - intros s Hs. destruct (Hc s Hs) as [H1 H2].
    split; [exact H1 | apply IH, H2].
  - apply IH, Hc.
Qed.

Lemma blocks_try_finally {A} (inv : State -> Prop) (c : Co A)
  (f : M State unit) :
  blocks_maintain inv c -> maintains inv f ->
  blocks_maintain inv (co_try_finally c f).
Proof.
  intros Hc Hf.
  induction c as [r | step next IH | rest IH];
    cbn [co_try_finally blocks_maintain] in *.
  - intros s Hs. split; [apply Hf, Hs | exact I].
  - intros s Hs. destruct (Hc s Hs) as [H1 H2].
    split; [exact H1 | apply IH, H2].
  - apply IH, Hc.
Qed.

(** What follows the computation of the key is run with a key made of the
    prefix, a colon and a digest. *)
Lemma blocks_generated_key {A} (inv : State -> Prop) prefix data
  (k : string -> Co A) :
  (forall digest, blocks_maintain inv (k (prefix +:+ ":" +:+ digest))) ->
  blocks_maintain inv (co_bind (atomic (_generate_key prefix data)) k).
Proof.
  intros Hk s Hs. cbn [fst snd].
  unfold _generate_key, bind, gets. cbn [fst snd].
  destruct (json_dumps_sorted (world s) data) as [e | text]; cbn [fst snd].
  - split; [exact Hs | exact I].
  - split; [exact Hs | apply Hk].
Qed.

Ltac blocks_step :=
  lazymatch goal with
  | |- blocks_maintain _ (co_bind (atomic (_generate_key _ _)) _) =>
      apply blocks_generated_key; intros ?
  | |- blocks_maintain _ (co_bind _ _) => apply blocks_bind; [| intros ?]
  | |- blocks_maintain _ (co_try_except _ _) =>
      apply blocks_try_except; [| intros ?]
  | |- blocks_maintain _ (co_try_finally _ _) => apply blocks_try_finally
  | |- blocks_maintain _ (atomic _) => apply blocks_atomic
  | |- blocks_maintain _ suspend => exact I
  | |- blocks_maintain _ (co_ret _) => exact I
  | |- blocks_maintain _ (co_raise _) => exact I
  | |- blocks_maintain _ (if ?b then _ else _) => destruct b
  | |- blocks_maintain _ (match ?x with _ => _ end) => destruct x
  | |- blocks_maintain _ _ => solve [auto]
  | |- maintains _ (gets _) => apply maintains_gets
  | |- maintains _ _ => solve [auto]
  end.

Ltac blocks := repeat blocks_step.

Section Blocks.

(** An invariant kept by the primitive updates of the state, for the Redis
    commands [allowed] to be sent, among them those of the three coroutines
    of a batch. *)
Context (inv : State -> Prop) (allowed : redis_command -> Prop).
Context (clock_ok : forall n s, inv s -> inv (clock_read n s)).
Context (pending_ok : forall l s, inv s -> inv (set_pending l s)).
Context (breaker_ok : forall b s, inv s -> inv (on_pool (set_breaker b) s)).
Context (session_ok : forall x s, inv s -> inv (on_pool (set_session x) s)).
Context (slept_ok :
  forall d s, inv s ->
    inv (on_world (fun w => set_slept (slept w ++ [d]) w) s)).
Context (http_ok :
  forall r s, inv s ->
    inv (on_world (fun w => set_http_log (http_log w ++ [r]) w) s)).
Context (redis_ok :
  forall c s, allowed c -> inv s ->
    inv (on_world (fun w => set_redis_log (redis_log w ++ [c]) w) s)).
Context (metrics_ok : forall f s, inv s -> inv (on_metrics f s)).
Context (get_allowed : forall key, allowed (GET key)).
Context (keys_allowed : forall pattern, allowed (KEYS pattern)).
Context (del_allowed : forall keys, allowed (DEL keys)).
Context (search_allowed :
  forall x digest ttl text,
    allowed (SETEX (("search:" +:+ x) +:+ ":" +:+ digest) ttl text)).
Context (info_allowed :
  forall digest ttl text,
    allowed (SETEX ("collection_info" +:+ ":" +:+ digest) ttl text)).

Lemma loop_turn_ok : maintains inv run_pending.
Proof using clock_ok pending_ok breaker_ok.
  apply AsyncExtra.run_pending_ok; assumption.
Qed.

Lemma asyncio_sleep_blocks d :
  blocks_maintain inv (Coroutine.asyncio_sleep d).
Proof using slept_ok.
  unfold Coroutine.asyncio_sleep. blocks. intros s H. apply slept_ok, H.
Qed.

Lemma http_exchange_blocks r :
  blocks_maintain inv (Coroutine.http_exchange r).
Proof using http_ok.
  unfold Coroutine.http_exchange. blocks.
  - intros s H. apply http_ok, H.
  - intros s H. exact H.
Qed.

Lemma redis_call_blocks c :
  allowed c -> blocks_maintain inv (Coroutine.redis_call c).
Proof using redis_ok.
  intros Hc. unfold Coroutine.redis_call. blocks.
  - intros s H. apply redis_ok; assumption.
  - intros s H. exact H.
Qed.

Lemma request_blocks method endpoint json :
  blocks_maintain inv (Coroutine.request method endpoint json).
Proof using clock_ok pending_ok breaker_ok session_ok slept_ok http_ok.
  pose proof http_exchange_blocks as Hx.
  pose proof asyncio_sleep_blocks as Hs.
  assert (He : maintains inv _ensure_session)
    by (apply AsyncExtra.ensure_session_ok; intros; apply session_ok;
        assumption).
  assert (Hc : maintains inv _check_state)
    by (apply AsyncExtra.check_state_ok; assumption).
  assert (Hrs : maintains inv record_success)
    by (apply AsyncExtra.record_success_ok; assumption).
  assert (Hrf : maintains inv record_failure)
    by (apply AsyncExtra.record_failure_ok; assumption).
  assert (Htry : forall r, blocks_maintain inv (Coroutine.request_try r))
    by (intros r; unfold Coroutine.request_try; blocks).
  assert (Hexc : forall i e, blocks_maintain inv (Coroutine.request_except i e))
    by (intros i e; unfold Coroutine.request_except; blocks).
  assert (Hfrom : forall r n i,
            blocks_maintain inv (Coroutine.request_from r n i)).
  { intros r n. induction n as [| n IH]; intros i; [exact I |].
    cbn [Coroutine.request_from]. blocks. }
  unfold Coroutine.request. blocks.
Qed.

Lemma cache_get_blocks prefix data :
  blocks_maintain inv (Coroutine.self_cache_get prefix data).
Proof using redis_ok get_allowed.
  pose proof (fun key => redis_call_blocks (GET key) (get_allowed key)).
  unfold Coroutine.self_cache_get, Coroutine.cache_get. blocks.
Qed.

Lemma cache_set_blocks prefix data v :
  (forall digest ttl text,
     allowed (SETEX (prefix +:+ ":" +:+ digest) ttl text)) ->
  blocks_maintain inv (Coroutine.self_cache_set prefix data v).
Proof using redis_ok.
  intros Hset.
  pose proof (fun digest ttl text =>
                redis_call_blocks _ (Hset digest ttl text)).
  unfold Coroutine.self_cache_set, Coroutine.cache_set. blocks.
Qed.

Lemma invalidate_blocks pattern :
  blocks_maintain inv (Coroutine.self_cache_invalidate pattern).
Proof using redis_ok keys_allowed del_allowed.
  pose proof (fun p => redis_call_blocks (KEYS p) (keys_allowed p)).
  pose proof (fun k => redis_call_blocks (DEL k) (del_allowed k)).
  unfold Coroutine.self_cache_invalidate, Coroutine.invalidate_pattern. blocks.
Qed.

Lemma async_with_pool_blocks {A} (body : Co A) :
  blocks_maintain inv body ->
  blocks_maintain inv (Coroutine.async_with_pool body).
Proof using session_ok.
  intros Hbody.
  assert (He : maintains inv _ensure_session)
    by (apply AsyncExtra.ensure_session_ok; intros; apply session_ok;
        assumption).
  assert (Hc : maintains inv pool_close)
    by (apply AsyncExtra.pool_close_unchanged; assumption).
  unfold Coroutine.async_with_pool. blocks.
Qed.

Ltac coroutine_blocks :=
  pose proof request_blocks; pose proof cache_get_blocks;
  pose proof invalidate_blocks;
  pose proof (AsyncExtra.time_time_ok inv clock_ok);
  assert (forall f, maintains inv (modify (on_metrics f)))
    by (intros ? ? ?; apply metrics_ok; assumption);
  assert (forall t, maintains inv (_update_metrics t))
    by (intros ? ? ?; apply metrics_ok; assumption);
  unfold Coroutine.get, Coroutine.post, Coroutine.count_and_reraise;
  repeat first [apply async_with_pool_blocks | blocks_step].

Lemma similarity_search_blocks c q n w wd :
  blocks_maintain inv (Coroutine.similarity_search c q n w wd).
Proof using All.
  pose proof (fun x d v => cache_set_blocks ("search:" +:+ x) d v
                             (search_allowed x)).
  unfold Coroutine.similarity_search. coroutine_blocks.
Qed.

Lemma add_documents_blocks c d m i :
  blocks_maintain inv (Coroutine.add_documents c d m i).
Proof using All.
  assert (forall v, maintains inv (py_len v))
    by (intros v; destruct v; cbn;
        first [apply maintains_ret | apply maintains_raise]).
  assert (forall n k, maintains inv (generate_ids n k)).
  { intros n. induction n as [| n IH]; intros k; cbn [generate_ids];
      [apply maintains_ret |].
    apply maintains_bind; [apply AsyncExtra.time_time_ok, clock_ok | intros now].
    apply maintains_bind; [apply maintains_gets | intros w].
    apply maintains_bind; [apply IH | intros; apply maintains_ret]. }
  unfold Coroutine.add_documents. coroutine_blocks.
Qed.

Lemma get_collection_info_blocks c :
  blocks_maintain inv (Coroutine.get_collection_info c).
Proof using All.
  pose proof (fun d v => cache_set_blocks "collection_info" d v info_allowed).
  unfold Coroutine.get_collection_info. coroutine_blocks.
Qed.

Lemma create_task_for_blocks operation t :
  create_task_for operation = inr (Some t) -> blocks_maintain inv t.
Proof using All.
  assert (Hcall : forall op parameters required method,
            (forall a, blocks_maintain inv (method a)) ->
            call_with_params op parameters required method = inr (Some t) ->
            blocks_maintain inv t).
  { intros op parameters required method Hm. unfold call_with_params.
    destruct (dict_get op "params") as [[| | | | | | params |] |];
      try discriminate.
    destruct (binds parameters required params); [| discriminate].
    intros H. injection H as <-. apply Hm. }
  unfold create_task_for. destruct operation as [| | | | | | op |];
    try discriminate.
  destruct (eq_str _ "search").
  { apply Hcall. intros a. apply similarity_search_blocks. }
  destruct (eq_str _ "add").
  { apply Hcall. intros a. apply add_documents_blocks. }
  destruct (eq_str _ "get_info").
  { apply Hcall. intros a. apply get_collection_info_blocks. }
  discriminate.
Qed.

Lemma create_tasks_blocks operations tasks :
  create_tasks operations = inr tasks ->
  Forall (blocks_maintain inv) tasks.
Proof using All.
  revert tasks. induction operations as [| o rest IH]; intros tasks H.
  - injection H as <-. constructor.
  - cbn in H. destruct (create_task_for o) as [e | task] eqn:Ho;
      [discriminate |].
    destruct (create_tasks rest) as [e | tasks']; [discriminate |].
    injection H as <-. specialize (IH tasks' eq_refl).
    destruct task as [t |]; [| exact IH].
    constructor; [apply (create_task_for_blocks o t Ho) | exact IH].
Qed.

Lemma advance_inv {A} (c : Co A) (s : State) :
  blocks_maintain inv c -> inv s ->
  inv (snd (advance c s)) /\ blocks_maintain inv (fst (advance c s)).
Proof.
  revert s. induction c as [r | step next IH | rest IH]; intros s Hc Hs;
    cbn [advance fst snd].
  - split; [exact Hs | exact I].
  - destruct (Hc s Hs) as [H1 H2]. apply IH; assumption.
  - split; [exact Hs | exact Hc].
Qed.

Lemma resume_inv {A} (c : Co A) (s : State) :
  blocks_maintain inv c -> inv s ->
  inv (snd (resume c s)) /\ blocks_maintain inv (fst (resume c s)).
Proof.
  intros Hc Hs. destruct c as [r | step next | rest];
    apply advance_inv; assumption.
Qed.

Lemma alone_inv {A} (c : Co A) (s : State) :
  blocks_maintain inv c -> inv s -> inv (snd (alone c s)).
Proof using clock_ok pending_ok breaker_ok.
  revert s. induction c as [r | step next IH | rest IH]; intros s Hc Hs.
  - exact Hs.
  - cbn [alone]. destruct (Hc s Hs) as [H1 H2]. apply IH; assumption.
  - rewrite alone_suspended. apply IH; [exact Hc |]. apply loop_turn_ok, Hs.
Qed.

Lemma start_all_inv (tasks : list (Co pyval)) (s : State) :
  Forall (blocks_maintain inv) tasks -> inv s ->
  inv (snd (start_all tasks s)) /\
  Forall (blocks_maintain inv) (fst (start_all tasks s)).
Proof.
  intros H. revert s. induction H as [| t rest Ht _ IH]; intros s Hs.
  - split; [exact Hs | constructor].
  - cbn [start_all fst snd].
    destruct (advance_inv t s Ht Hs) as [H1 H2].
    destruct (IH _ H1) as [H3 H4].
    split; [exact H3 | constructor; assumption].
Qed.

Lemma take_turn_inv (t : turn) (tasks : list (Co pyval)) (s : State) :
  Forall (blocks_maintain inv) tasks -> inv s ->
  inv (snd (take_turn t tasks s)) /\
  Forall (blocks_maintain inv) (fst (take_turn t tasks s)).
Proof using clock_ok pending_ok breaker_ok.
  intros H Hs. destruct t as [i |]; cbn [take_turn].
  - destruct (tasks !! i) as [c |] eqn:Hc; [| split; assumption].
    cbn [fst snd].
    destruct (resume_inv c s (Forall_lookup_1 _ _ _ _ H Hc) Hs) as [H1 H2].
    split; [exact H1 | apply Forall_insert; assumption].
  - cbn [fst snd]. split; [apply loop_turn_ok, Hs | exact H].
Qed.

Lemma take_turns_inv (schedule : list turn) (tasks : list (Co pyval))
  (s : State) :
  Forall (blocks_maintain inv) tasks -> inv s ->
  inv (snd (take_turns schedule tasks s)) /\
  Forall (blocks_maintain inv) (fst (take_turns schedule tasks s)).
Proof using clock_ok pending_ok breaker_ok.
  revert tasks s. induction schedule as [| t rest IH]; intros tasks s H Hs;
    [split; assumption |].
  cbn [take_turns]. destruct (take_turn_inv t tasks s H Hs) as [H1 H2].
  apply IH; assumption.
Qed.

Lemma finish_all_inv (tasks : list (Co pyval)) (s : State) :
  Forall (blocks_maintain inv) tasks -> inv s ->
  inv (snd (finish_all tasks s)).
Proof using clock_ok pending_ok breaker_ok.
  intros H. revert s. induction H as [| t rest Ht _ IH]; intros s Hs;
    [exact Hs |].
  cbn [finish_all fst snd]. apply IH, alone_inv; assumption.
Qed.

Lemma gather_maintains (schedule : list turn) (tasks : list (Co pyval)) :
  Forall (blocks_maintain inv) tasks -> maintains inv (gather schedule tasks).
Proof using clock_ok pending_ok breaker_ok.
  intros H. unfold gather. destruct tasks as [| t rest];
    [apply maintains_ret |].
  set (tasks := t :: rest) in *.
  apply maintains_bind; [apply loop_turn_ok | intros _].
  apply maintains_bind; [| intros results].
  - intros s Hs. cbn [snd].
    destruct (start_all_inv tasks s H Hs) as [H1 H2].
    destruct (take_turns_inv schedule _ _ H2 H1) as [H3 H4].
    apply finish_all_inv; assumption.
  - apply maintains_bind; [apply loop_turn_ok | intros; apply maintains_ret].
Qed.

(** Under every schedule of the event loop. *)
Lemma batch_operations_maintains (schedule : list turn)
  (operations : list pyval) :
  maintains inv (batch_operations schedule operations).
Proof using All.
  unfold batch_operations.
  pose proof (create_tasks_blocks operations) as H.
  destruct (create_tasks operations) as [e | tasks]; [apply maintains_raise |].
  apply maintains_bind; [apply gather_maintains, H; reflexivity |].
  intros; apply maintains_ret.
Qed.

End Blocks.

(** X17. Under every schedule of the event loop, every value that the
    coroutines of a batch write to Redis is written under a key that begins
    with [search:], [collection_info:] or [collections:], as the values that
    the coroutines write when they are awaited one after the other; no key
    written begins with [collection:]. *)
Theorem batch_writes_under_the_keys_of_the_manager (schedule : list turn)
  (operations : list pyval) (s : State) (key : string) (ttl : Z)
  (v : string) :
  Forall manager_write (redis_log (world s)) ->
  In (SETEX key ttl v)
    (redis_log (world (snd (batch_operations schedule operations s)))) ->
  manager_key key = true /\ String.prefix "collection:" key = false.
Proof.
  intros H Hin.
  set (inv := fun s : State => Forall manager_write (redis_log (world s))).
  assert (H' : inv (snd (batch_operations schedule operations s))).
  { apply (batch_operations_maintains inv manager_write); try exact H;
      try (intros; assumption); try (intros; exact I).
    - intros c s0 Hc H0. unfold inv. cbn. apply Forall_app.
      split; [exact H0 | constructor; [exact Hc | constructor]].
    - intros. apply AsyncExtra.search_key.
    - intros. apply AsyncExtra.info_key. }
  unfold inv in H'. rewrite List.Forall_forall in H'.
  specialize (H' _ Hin). cbn in H'.
  split; [exact H' | apply AsyncExtra.manager_key_not_collection, H'].
Qed.

Lemma batch_writes_under_the_keys_of_the_manager_witness :
  let key := "search:docs:d41d8cd98f00b204e9800998ecf8427e" in
  In (SETEX key 120 "{}")
    (redis_log (world (snd (batch_operations (round_robin 3 8)
       [search_op "docs"; get_info_op "missing"; search_op "docs"]
       (refusing "/collections/missing"))))) /\
  manager_key key = true /\ String.prefix "collection:" key = false.
Proof.
  intros key.
  assert (Hin : In (SETEX key 120 "{}")
    (redis_log (world (snd (batch_operations (round_robin 3 8)
       [search_op "docs"; get_info_op "missing"; search_op "docs"]
       (refusing "/collections/missing"))))))
    by (vm_compute; auto 10).
  split; [exact Hin |].
  apply (batch_writes_under_the_keys_of_the_manager (round_robin 3 8)
           [search_op "docs"; get_info_op "missing"; search_op "docs"]
           (refusing "/collections/missing") key 120 "{}");
    [vm_compute; constructor | exact Hin].
Defined.

End CoroutineFacts.

(** * The retry loops: the sleep after a failed attempt, and the error that
      is left when all attempts have failed *)

Module RetryFacts.

Import MFacts MoreFacts.

(** ** The sleep after a failed attempt *)







(** ** The error that is left when all attempts have failed *)

Section Settings.

(** A property of the manager object that no assignment to the pool, the
    breaker, the counters or the vector stores changes, such as a property
    of its retry settings, is maintained by the closures of the facade. *)
Context (P : Sync.ProductionRAGManager -> Prop).
Context (pool_free : forall p m, P m -> P (Sync.set_connection_pool p m)).
Context (breaker_free : forall b m, P m -> P (Sync.set_circuit_breaker b m)).
Context (metrics_free : forall x m, P m -> P (Sync.set_metrics x m)).
Context (stores_free : forall v m, P m -> P (Sync.set_vector_stores v m)).

Local Abbreviation inv := (fun s : Sync.State => P (Sync.self s)).







End Settings.








End RetryFacts.
